(** * ref-extractor: citation extraction and consolidation pipeline

    A shallow embedding of the JavaScript sources

    - [RefExtractorCitationProcessor] (parseField, parseFields,
      deduplicateCitations, normalizeUris, performDeduplication,
      addCiteCountToItem, extractMetadata, isValidMetadata, processFields),
    - [RefExtractorFieldExtractor] (extractComplexFieldContent,
      extractOfficeOpenXmlFields),
    - [RefExtractorOutputFormatter] (cleanCitations, addCountsToTitle,
      formatBibliographyWithCounts, formatWithCitationJs, formatFallback,
      format),

    and, around them,

    - [RefExtractorConfig] (the citation prefixes and document types),
    - [RefExtractorFieldExtractor] (extractOpenDocumentFields,
      extractFields, validateFields, unescapeXmlEntities),
    - [RefExtractorCitationProcessor] (validateCitations,
      getCitationStatistics),
    - [RefExtractorErrorHandler] (the classification of error codes,
      storeError, attemptRecovery, showUserNotification, getErrorStats),
    - [RefExtractorDocumentParser] (detectDocumentType, getFilesToExtract
      and the choice of files in parseDocument),
    - [RefExtractorZoteroIntegration] (isZoteroUri, parseZoteroUri,
      extractZoteroItems, groupItemsByLibrary, generateSelectionStrings,
      processZoteroIntegration),
    - [RefExtractorUIController] (updateProcessingResults and the hand-over
      of the citations in handleFileSelect),

    followed by the properties of the specification that concern them and
    by further properties of the code.

    Modelling conventions.
    - A JavaScript string is a [string]; its characters stand for code
      units below 256.
    - A JSON value is a [json] tree; numbers are integers.  Property names
      are those of the citation payload schema: none shadows a member of
      [Object.prototype], so [hasOwnProperty] is a key lookup and string
      conversion never raises.  The formatter is the exception: the
      fallback listing and the cache key of [format] convert values with
      [substitute], which throws on an object that has a [toString] of
      its own, and [formatAny] takes arguments of any kind.
    - Exceptions are explicit: a computation that may throw returns a
      [result].
    - The [itemData] objects, which the deduplication mutates in place, live
      in a store indexed by locations; citation entries hold locations.
    - The configuration module is loaded, so [getConfig] returns the
      constants of [RefExtractorConfig].  Timing, statistics and log entries
      have no part in the results and are left out, except for the log of
      [extractComplexFieldContent]. *)

From Stdlib Require Import ZArith String Ascii DecimalString List Sorted.
From Stdlib Require DecimalNat.
From stdpp Require Import gmap strings list fin_maps.

Open Scope string_scope.
Set Warnings "-register-all".

(** ** JavaScript strings *)

Module JsString.

Definition LF : ascii := "010"%char.
Definition TAB : ascii := "009"%char.

Definition nl : string := String LF EmptyString.
Definition tab : string := String TAB EmptyString.

(** [WhiteSpace] and [LineTerminator] code units below 256, as
    [String.prototype.trim] strips them. *)
Definition is_ws (c : ascii) : bool :=
  let n := nat_of_ascii c in
  (((9 <=? n) && (n <=? 13)) || (n =? 32) || (n =? 160))%nat.

(** The class [\d]. *)
Definition is_digit (c : ascii) : bool :=
  let n := nat_of_ascii c in ((48 <=? n) && (n <=? 57))%nat.

(** The class [[0-9A-Za-z]]. *)
Definition is_alnum (c : ascii) : bool :=
  let n := nat_of_ascii c in
  (((48 <=? n) && (n <=? 57)) || ((65 <=? n) && (n <=? 90))
   || ((97 <=? n) && (n <=? 122)))%nat.

(** The complement of the class [.]. *)
Definition is_line_terminator (c : ascii) : bool :=
  let n := nat_of_ascii c in ((n =? 10) || (n =? 13))%nat.

Definition is_empty (s : string) : bool :=
  match s with EmptyString => true | String _ _ => false end.

Fixpoint trimStart (s : string) : string :=
  match s with
  | EmptyString => EmptyString
  | String c s' => if is_ws c then trimStart s' else s
  end.

Fixpoint trimEnd (s : string) : string :=
  match s with
  | EmptyString => EmptyString
  | String c s' =>
      let t := trimEnd s' in
      if is_ws c && is_empty t then EmptyString else String c t
  end.

Definition trim (s : string) : string := trimEnd (trimStart s).

(** [s.startsWith(p)], returning what follows [p]. *)
Fixpoint strip_prefix (p s : string) : option string :=
  match p, s with
  | EmptyString, _ => Some s
  | String a p', String b s' =>
      if Ascii.eqb a b then strip_prefix p' s' else None
  | String _ _, EmptyString => None
  end.

Definition startsWith (p s : string) : bool :=
  match strip_prefix p s with Some _ => true | None => false end.

(** The longest prefix of characters in a class, and the rest. *)
Fixpoint span (f : ascii -> bool) (s : string) : string * string :=
  match s with
  | EmptyString => (EmptyString, EmptyString)
  | String c s' =>
      if f c then let '(a, b) := span f s' in (String c a, b)
      else (EmptyString, s)
  end.

(** [s.split('\n')]. *)
Fixpoint split_lines (s : string) : list string :=
  match s with
  | EmptyString => [EmptyString]
  | String c s' =>
      match split_lines s' with
      | l :: ls =>
          if Ascii.eqb c LF then EmptyString :: l :: ls
          else String c l :: ls
      | [] => [EmptyString]
      end
  end.

(** [l.join(sep)]. *)
Fixpoint join (sep : string) (l : list string) : string :=
  match l with
  | [] => EmptyString
  | [x] => x
  | x :: rest => x +:+ sep +:+ join sep rest
  end.

(** Leftmost match of a pattern given by its matcher at a position: the
    text before the match, what the matcher captured, the text after. *)
Section Find.
Context {A : Type} (m : string -> option (A * string)).

Fixpoint find_first (s : string) : option (string * A * string) :=
  match m s with
  | Some (a, rest) => Some (EmptyString, a, rest)
  | None =>
      match s with
      | EmptyString => None
      | String c s' =>
          match find_first s' with
          | Some (pre, a, rest) => Some (String c pre, a, rest)
          | None => None
          end
      end
  end.

End Find.

(** [s.replace(pat, '')] for a string pattern: the first occurrence goes. *)
Definition remove_first (pat s : string) : string :=
  match find_first (fun t => option_map (fun r => (tt, r)) (strip_prefix pat t)) s with
  | Some (pre, _, rest) => pre +:+ rest
  | None => s
  end.

(** Decimal numerals. *)
Definition dec (n : nat) : string := NilZero.string_of_uint (Nat.to_uint n).
Definition decZ (n : Z) : string := NilZero.string_of_int (Z.to_int n).

Definition digit_val (c : ascii) : N := N.of_nat (nat_of_ascii c - 48).

(** [parseInt(s, 10)] on a string of digits; the counts stay within the
    range where JavaScript numbers are exact. *)
Definition parseInt (s : string) : N :=
  fold_left (fun acc c => (10 * acc + digit_val c)%N) (list_ascii_of_string s) 0%N.

End JsString.

(** ** Exceptions *)

Inductive result (A : Type) : Type :=
| Ok (a : A)
| Throw (msg : string).

Arguments Ok {A} a.
Arguments Throw {A} msg.

#[global] Instance result_bind : MBind result := fun A B k r =>
  match r with
  | Ok a => k a
  | Throw e => Throw e
  end.

(** [try { body } catch (e) { handler(e) }] *)
Definition try_catch {A : Type} (body : result A) (handler : string -> result A) : result A :=
  match body with
  | Ok a => Ok a
  | Throw e => handler e
  end.

Fixpoint rmapM {A B : Type} (f : A -> result B) (l : list A) : result (list B) :=
  match l with
  | [] => Ok []
  | x :: rest => y ← f x; ys ← rmapM f rest; Ok (y :: ys)
  end.

(** ** JSON values *)

Module Json.
Import JsString.

Inductive json : Type :=
| JNull
| JBool (b : bool)
| JNum (n : Z)
| JStr (s : string)
| JArr (l : list json)
| JObj (fs : list (string * json)).

(** An object is its own properties, in the order in which JavaScript
    enumerates them. *)
Definition object : Type := list (string * json).

Fixpoint get (k : string) (o : object) : option json :=
  match o with
  | [] => None
  | (k', v) :: rest => if String.eqb k k' then Some v else get k rest
  end.

Definition hasOwnProperty (k : string) (o : object) : bool :=
  match get k o with Some _ => true | None => false end.

(** [o[k] = v]: an existing property keeps its place. *)
Fixpoint set (k : string) (v : json) (o : object) : object :=
  match o with
  | [] => [(k, v)]
  | (k', v') :: rest =>
      if String.eqb k k' then (k, v) :: rest else (k', v') :: set k v rest
  end.

(** [delete o[k]] *)
Fixpoint delete (k : string) (o : object) : object :=
  match o with
  | [] => []
  | (k', v') :: rest =>
      if String.eqb k k' then rest else (k', v') :: delete k rest
  end.

(** [v.k] on a value that is not null: [None] is [undefined]. *)
Definition prop (k : string) (v : json) : option json :=
  match v with
  | JObj fs => get k fs
  | _ => None
  end.

(** ToBoolean; [None] is [undefined]. *)
Definition truthy (v : option json) : bool :=
  match v with
  | None => false
  | Some JNull => false
  | Some (JBool b) => b
  | Some (JNum n) => negb (n =? 0)%Z
  | Some (JStr s) => negb (is_empty s)
  | Some (JArr _) => true
  | Some (JObj _) => true
  end.

(** ToString of a value. *)
Fixpoint to_string (v : json) : string :=
  match v with
  | JNull => "null"
  | JBool true => "true"
  | JBool false => "false"
  | JNum n => decZ n
  | JStr s => s
  | JArr l =>
      join "," (map (fun x => match x with JNull => EmptyString | _ => to_string x end) l)
  | JObj _ => "[object Object]"
  end.

(** ToString as a template literal applies it; [None] is [undefined]. *)
Definition interpolate (v : option json) : string :=
  match v with
  | None => "undefined"
  | Some x => to_string x
  end.

(** Whether ToString returns for a value.  An object with a property
    [toString] of its own has no primitive value: the property hides
    [Object.prototype.toString], no value of a JSON text is callable, and
    [valueOf] returns the object, so the conversion throws a TypeError.  An
    array is joined, which converts every element that is not null.  On a
    value for which it returns, ToString gives [to_string]. *)
Fixpoint printable (v : json) : bool :=
  match v with
  | JArr l => forallb printable l
  | JObj fs => match get "toString" fs with Some _ => false | None => true end
  | _ => true
  end.

(** [typeof v === 'object'] (true of null, arrays and objects). *)
Definition typeof_object (v : json) : bool :=
  match v with
  | JNull | JArr _ | JObj _ => true
  | _ => false
  end.

(** [{...v}]: the own enumerable properties of an object or an array. *)
Definition spread (v : json) : object :=
  match v with
  | JObj fs => fs
  | JArr l => imap (fun i x => (dec i, x)) l
  | _ => []
  end.

(** [JSON.stringify(v, null, gap)]; [gap] is empty for [JSON.stringify(v)]. *)
Definition DQUOTE : ascii := "034"%char.
Definition BACKSLASH : ascii := "092"%char.

Definition hex_digit (n : nat) : ascii :=
  nth n (list_ascii_of_string "0123456789abcdef") "0"%char.

Definition quote_char (c : ascii) : string :=
  let n := nat_of_ascii c in
  if (n =? 34)%nat then String BACKSLASH (String DQUOTE EmptyString)
  else if (n =? 92)%nat then String BACKSLASH (String BACKSLASH EmptyString)
  else if (n =? 8)%nat then String BACKSLASH "b"
  else if (n =? 12)%nat then String BACKSLASH "f"
  else if (n =? 10)%nat then String BACKSLASH "n"
  else if (n =? 13)%nat then String BACKSLASH "r"
  else if (n =? 9)%nat then String BACKSLASH "t"
  else if (n <? 32)%nat then
    String BACKSLASH ("u00" +:+ String (hex_digit (n / 16)) (String (hex_digit (n mod 16)) EmptyString))
  else String c EmptyString.

Definition quote (s : string) : string :=
  String DQUOTE (String.concat EmptyString (map quote_char (list_ascii_of_string s)))
  +:+ String DQUOTE EmptyString.

Fixpoint stringify_at (gap indent : string) (v : json) : string :=
  match v with
  | JNull => "null"
  | JBool true => "true"
  | JBool false => "false"
  | JNum n => decZ n
  | JStr s => quote s
  | JArr l =>
      let inner := indent +:+ gap in
      match l with
      | [] => "[]"
      | _ =>
          let parts := map (stringify_at gap inner) l in
          if is_empty gap then "[" +:+ join "," parts +:+ "]"
          else "[" +:+ nl +:+ inner +:+ join ("," +:+ nl +:+ inner) parts
               +:+ nl +:+ indent +:+ "]"
      end
  | JObj fs =>
      let inner := indent +:+ gap in
      match fs with
      | [] => "{}"
      | _ =>
          let parts :=
            map (fun kv => match kv with
                           | (k, x) =>
                               quote k +:+ (if is_empty gap then ":" else ": ")
                               +:+ stringify_at gap inner x
                           end) fs in
          if is_empty gap then "{" +:+ join "," parts +:+ "}"
          else "{" +:+ nl +:+ inner +:+ join ("," +:+ nl +:+ inner) parts
               +:+ nl +:+ indent +:+ "}"
      end
  end.

Definition stringify (gap : string) (v : json) : string := stringify_at gap EmptyString v.

End Json.

(** ** CitationFieldParser: [parseField], [parseFields] *)

Module Parser.
Import JsString Json.

(** [CITATION_PREFIXES.CSL_GENERAL], the pattern
    [/^(ADDIN )?(ZOTERO_ITEM )?CSL_CITATION/]: what follows the match, if the
    field matches.  The optional groups start with letters that differ from
    the first letter of what may follow, so the greedy choice is the only
    one. *)
Definition match_csl_prefix (field : string) : option string :=
  let s1 := match strip_prefix "ADDIN " field with Some r => r | None => field end in
  let s2 := match strip_prefix "ZOTERO_ITEM " s1 with Some r => r | None => s1 end in
  strip_prefix "CSL_CITATION" s2.

(** [s.replace(/(\{.+\}) [0-9A-Za-z]+$/, '$1')].  The pattern ends at the end
    of the string, so the hash is the longest alphanumeric suffix, preceded
    by a space and a closing brace; before that brace the pattern needs an
    opening brace followed by at least one character, with no line
    terminator in between.  The match ends the string, hence replacing it by
    its first group removes the space and the hash. *)
Definition strip_hash (s : string) : string :=
  let r := String.rev s in
  let '(hash, r1) := span is_alnum r in
  match hash, r1 with
  | String _ _, String " " (String "}" r2) =>
      let '(inside, _) := span (fun c => negb (is_line_terminator c)) r2 in
      match inside with
      | String _ inside' =>
          if existsb (Ascii.eqb "{") (list_ascii_of_string inside')
          then String.rev (String "}" r2)
          else s
      | EmptyString => s
      end
  | _, _ => s
  end.

Section WithJsonParse.

(** [JSON.parse]: a built-in; it throws on malformed text. *)
Variable JSON_parse : string -> result json.

(** One element of [citationItems]: objects (and arrays) are kept, with
    their provenance added. *)
Definition citeEntry (field : string) (fieldIndex citeIndex : nat) (cite : json) : option json :=
  if truthy (Some cite) && typeof_object cite then
    Some (JObj (set "_originalField" (JStr field)
                 (set "_citeIndex" (JNum (Z.of_nat citeIndex))
                   (set "_fieldIndex" (JNum (Z.of_nat fieldIndex)) (spread cite)))))
  else None.

(** The body of the [try] block of [parseField]. *)
Definition parseField_try (field : string) (fieldIndex : nat) : result (list json) :=
  match match_csl_prefix field with
  | None => Ok []
  | Some rest =>
      let cleanedField := strip_hash (trim rest) in
      if is_empty cleanedField then Ok []
      else
        fieldObject ← JSON_parse cleanedField;
        if negb (truthy (Some fieldObject)) || negb (typeof_object fieldObject)
        then Throw "Invalid field object structure"
        else
          match prop "citationItems" fieldObject with
          | Some (JArr citationItems) =>
              Ok (omap id (imap (citeEntry field fieldIndex) citationItems))
          | _ => Ok []
          end
  end.

Definition parseField (field : string) (fieldIndex : nat) : result (list json) :=
  try_catch (parseField_try field fieldIndex) (fun _ => Ok []).

(** [fields.forEach] with its own [try]/[catch]: a field that throws adds
    nothing. *)
Definition parseFields (fields : list string) : list json :=
  concat (imap (fun index field =>
                  match parseField field index with
                  | Ok citations => citations
                  | Throw _ => []
                  end) fields).

End WithJsonParse.

End Parser.

(** ** DeduplicationEngine and MetadataProjector *)

Module Dedup.
Import JsString Json.

(** Locations of [itemData] objects, and the store that holds them. *)
Definition loc : Type := nat.
Abbreviation store := (gmap nat object).

(** A citation entry, as [parseField] builds it: [c_uris] is empty when the
    entry has no [uris] property, [c_itemData] is [None] when the entry has
    no [itemData] property or a null one. *)
Record citation : Type := mkCitation {
  c_uris : list string;
  c_itemData : option loc;
  c_fieldIndex : nat;
  c_citeIndex : nat
}.

(** An element of the deduplication array. *)
Record dedupEntry : Type := mkDedupEntry {
  item : option loc;
  uris : list string;
  count : nat;
  index : nat;
  indices : option (list nat);
  originalCite : citation
}.

Definition set_uris (e : dedupEntry) (us : list string) : dedupEntry :=
  mkDedupEntry (item e) us (count e) (index e) (indices e) (originalCite e).

Definition set_count_indices (e : dedupEntry) (c : nat) (ix : list nat) : dedupEntry :=
  mkDedupEntry (item e) (uris e) c (index e) (Some ix) (originalCite e).

(** [l.indexOf(u) !== -1] *)
Definition includes (u : string) (l : list string) : bool := bool_decide (u ∈ l).

(** Positions of the elements of an array that pass a test: the array's
    elements are objects, and a position stands for the reference to one. *)
Fixpoint positions_from {A : Type} (f : A -> bool) (k : nat) (l : list A) : list nat :=
  match l with
  | [] => []
  | x :: rest =>
      if f x then k :: positions_from f (S k) rest
      else positions_from f (S k) rest
  end.

Definition positions {A : Type} (f : A -> bool) (l : list A) : list nat :=
  positions_from f 0 l.

(** *** normalizeUris *)

(** The body of [matchingItems.forEach]: the uris of the matching item that
    the current item lacks are pushed on the current item.  Both are read
    from the array when the body runs. *)
Definition pushNewUris (i k : nat) (arr : list dedupEntry) : list dedupEntry :=
  match arr !! i, arr !! k with
  | Some currentItem, Some matchingItem =>
      let newUris :=
        List.filter (fun matchUri => negb (includes matchUri (uris currentItem)))
                    (uris matchingItem) in
      <[i := set_uris currentItem (uris currentItem ++ newUris)%list]> arr
  | _, _ => arr
  end.

(** One turn of the loop on [j]. *)
Definition normalizeStep (i : nat) (uri : string) (arr : list dedupEntry) : list dedupEntry :=
  let matchingItems := positions (fun it => includes uri (uris it)) arr in
  foldl (fun a k => pushNewUris i k a) arr matchingItems.

(** The loop on [j] for the item at [i]: it runs while [j] is below the
    length of the item's uris, which the loop itself extends.  [None] when
    the fuel runs out. *)
Fixpoint normalizeItem (fuel : nat) (i j : nat) (arr : list dedupEntry) : option (list dedupEntry) :=
  match arr !! i ≫= (fun currentItem => uris currentItem !! j) with
  | None => Some arr
  | Some uri =>
      match fuel with
      | O => None
      | S fuel' => normalizeItem fuel' i (S j) (normalizeStep i uri arr)
      end
  end.

(** The number of uris held by the whole array bounds the turns of the loop
    on [j]. *)
Definition totalUris (arr : list dedupEntry) : nat :=
  sum_list (map (fun e => length (uris e)) arr).

(** The loop on [i], over the positions [todo]. *)
Fixpoint normalizeLoop (todo : list nat) (arr : list dedupEntry) : option (list dedupEntry) :=
  match todo with
  | [] => Some arr
  | i :: rest =>
      arr' ← normalizeItem (totalUris arr) i 0 arr;
      normalizeLoop rest arr'
  end.

Definition normalizeUris (deduplicationArray : list dedupEntry) : option (list dedupEntry) :=
  normalizeLoop (seq 0 (length deduplicationArray)) deduplicationArray.

(** *** addCiteCountToItem *)

Definition countInfo (n : nat) : string := "Times cited: " +:+ dec n.

(** The update of the object itself. *)
Definition annotate (n : nat) (o : object) : object :=
  let o1 := if hasOwnProperty "note" o then o else set "note" (JStr EmptyString) o in
  let note := get "note" o1 in
  set "note"
      (JStr (if truthy note then countInfo n +:+ nl +:+ interpolate note
             else countInfo n))
      o1.

(** [item] is a reference to an object of the store. *)
Definition addCiteCountToItem (l : loc) (n : nat) (h : store) : store :=
  match h !! l with
  | Some o => <[l := annotate n o]> h
  | None => h
  end.

(** *** performDeduplication *)

Record dedupState : Type := mkDedupState {
  ds_array : list dedupEntry;
  duplicateIndices : gset nat;
  ds_store : store
}.

(** The body of the loop on [i]. *)
Definition dedupStep (st : dedupState) (i : nat) : dedupState :=
  match ds_array st !! i with
  | None => st
  | Some currentItem =>
      if bool_decide (index currentItem ∈ duplicateIndices st) then st
      else
        match uris currentItem with
        | [] => st
        | uri :: _ =>
            let matchingItems :=
              List.filter
                (fun it => includes uri (uris it)
                           && negb (bool_decide (index it ∈ duplicateIndices st)))
                (ds_array st) in
            let n := length matchingItems in
            let currentItem' :=
              set_count_indices currentItem n (map index matchingItems) in
            let h :=
              match item currentItem with
              | Some l => addCiteCountToItem l n (ds_store st)
              | None => ds_store st
              end in
            let dup :=
              foldl (fun d matchingItem =>
                       if (index currentItem <? index matchingItem)%nat
                       then {[ index matchingItem ]} ∪ d else d)
                    (duplicateIndices st) matchingItems in
            mkDedupState (<[i := currentItem']> (ds_array st)) dup h
        end
  end.

Definition dedupLoop (deduplicationArray : list dedupEntry) (h : store) : dedupState :=
  foldl dedupStep (mkDedupState deduplicationArray ∅ h)
        (seq 0 (length deduplicationArray)).

Definition performDeduplication (deduplicationArray : list dedupEntry) (h : store)
  : list dedupEntry * store :=
  let st := dedupLoop deduplicationArray h in
  (List.filter (fun it => negb (bool_decide (index it ∈ duplicateIndices st)))
               (ds_array st),
   ds_store st).

(** *** deduplicateCitations *)

Record dedupResult : Type := mkDedupResult {
  itemData : option loc;
  r_uris : list string;
  _count : nat;
  _indices : list nat
}.

Definition deduplicationArray_of (citations : list citation) : list dedupEntry :=
  imap (fun index cite =>
          mkDedupEntry (c_itemData cite) (c_uris cite) 1 index None cite)
       citations.

(** The members of a cluster: [entry.indices || [entry.index]]. *)
Definition members (e : dedupEntry) : list nat :=
  match indices e with
  | Some ix => ix
  | None => [index e]
  end.

Definition is_null {A : Type} (o : option A) : bool :=
  match o with Some _ => false | None => true end.

(** [None] stands for a normalization that ran out of fuel. *)
Definition deduplicateCitations (citations : list citation) (h : store)
  : option (list dedupResult * store) :=
  match citations with
  | [] => Some ([], h)
  | _ =>
      arr ← normalizeUris (deduplicationArray_of citations);
      let '(deduplicatedArray, h') := performDeduplication arr h in
      Some (map (fun e => mkDedupResult (item e) (uris e) (count e) (members e))
                (List.filter (fun e => negb (is_null (item e))) deduplicatedArray),
            h')
  end.

(** *** extractMetadata *)

Definition isValidMetadata (metadata : object) : bool :=
  hasOwnProperty "title" metadata
  && truthy (get "title" metadata)
  && negb (is_empty (trim (interpolate (get "title" metadata)))).

(** The projection keeps the references to the accepted records. *)
Definition extractMetadata (deduplicatedCitations : list dedupResult) (h : store) : list loc :=
  omap (fun c =>
          match itemData c with
          | Some l =>
              match h !! l with
              | Some o => if isValidMetadata o then Some l else None
              | None => None
              end
          | None => None
          end) deduplicatedCitations.

End Dedup.

(** ** FieldScanner: the complex-field strategy *)

Module FieldExtractor.
Import JsString.

(** A sibling of the run that holds a begin marker, as the walk sees it: for
    an element, whether [querySelectorAll(FIELD_CHAR_END)] finds something
    in it and the text contents of its [w:instrText] descendants; other
    nodes (text, comments) answer neither query. *)
Inductive node : Type :=
| Element (hasFieldCharEnd : bool) (instrTextFields : list string)
| OtherNode.

Definition hasEndMarker (n : node) : bool :=
  match n with
  | Element e _ => e
  | OtherNode => false
  end.

Definition instrTexts (n : node) : list string :=
  match n with
  | Element _ ts => ts
  | OtherNode => []
  end.

(** A begin marker: the siblings that follow its parent element, in
    document order; [None] when the marker has no parent element. *)
Definition fieldStart : Type := option (list node).

Definition maxIterations : nat := 1000.

Inductive logEntry : Type :=
| LogDebug (msg : string)
| LogWarn (msg : string).

(** The [while] loop: [siblings] is [nextRun] and what follows it. *)
Fixpoint walkSiblings (siblings : list node) (iterationCount : nat)
  (instrTextContent : string) (log : list logEntry)
  : string * nat * list logEntry :=
  match siblings with
  | [] => (instrTextContent, iterationCount, log)
  | nextRun :: rest =>
      if (iterationCount <? maxIterations)%nat then
        let iterationCount := S iterationCount in
        if hasEndMarker nextRun then
          (instrTextContent, iterationCount,
           (log ++ [LogDebug "Found field end marker"])%list)
        else
          walkSiblings rest iterationCount
            (fold_left String.append (instrTexts nextRun) instrTextContent) log
      else (instrTextContent, iterationCount, log)
  end.

Definition extractComplexFieldContent (start : fieldStart) : string * list logEntry :=
  match start with
  | None => (EmptyString, [LogWarn "Error extracting complex field content"])
  | Some siblings =>
      let '(instrTextContent, iterationCount, log) := walkSiblings siblings 0 EmptyString [] in
      (trim instrTextContent,
       if (maxIterations <=? iterationCount)%nat
       then (log ++ [LogWarn "Reached maximum iterations while extracting complex field content"])%list
       else log)
  end.

(** The loop of [extractOfficeOpenXmlFields] over the begin markers. *)
Fixpoint extractFields (complexFieldStarts : list fieldStart)
  (fields : list string) (log : list logEntry) : list string * list logEntry :=
  match complexFieldStarts with
  | [] => (fields, log)
  | start :: rest =>
      let '(fieldContent, l) := extractComplexFieldContent start in
      if negb (is_empty fieldContent) && negb (is_empty (trim fieldContent))
      then extractFields rest (fields ++ [fieldContent])%list (log ++ l)%list
      else extractFields rest fields (log ++ l)%list
  end.

(** [parsedDOM] is what [parseXmlString] gives: the begin markers of the
    document, or a throw when the markup does not parse. *)
Definition extractOfficeOpenXmlFields (parsedDOM : result (list fieldStart))
  : result (list string * list logEntry) :=
  complexFieldStarts ← parsedDOM;
  Ok (extractFields complexFieldStarts [] []).

End FieldExtractor.

(** ** OutputFormatter *)

Module Formatter.
Import JsString Json.

(** *** cleanCitations *)

(** The pattern [/Times cited: \d+\n/] at the start of [s]: the length of
    the match. *)
Definition match_count_line (s : string) : option nat :=
  match strip_prefix "Times cited: " s with
  | Some r =>
      let '(ds, r') := span is_digit r in
      match ds, r' with
      | String _ _, String c _ =>
          if Ascii.eqb c LF then Some (String.length "Times cited: " + String.length ds + 1)
          else None
      | _, _ => None
      end
  | None => None
  end.

(** [s.replace(/Times cited: \d+\n/g, '')]; [skip] counts the characters of
    the current match that remain to be dropped. *)
Fixpoint remove_count_lines_from (skip : nat) (s : string) : string :=
  match s with
  | EmptyString => EmptyString
  | String c s' =>
      match skip with
      | S k => remove_count_lines_from k s'
      | O =>
          match match_count_line s with
          | Some (S k) => remove_count_lines_from k s'
          | _ => String c (remove_count_lines_from 0 s')
          end
      end
  end.

Definition remove_count_lines (s : string) : string := remove_count_lines_from 0 s.

Definition cleanCitation (citation : json) : json :=
  if negb (truthy (Some citation)) || negb (typeof_object citation) then citation
  else
    let cleanedCitation := spread citation in
    match get "note" cleanedCitation with
    | Some (JStr note) =>
        if is_empty note then JObj cleanedCitation
        else
          let note' := remove_count_lines note in
          if is_empty (trim note') then JObj (delete "note" cleanedCitation)
          else JObj (set "note" (JStr note') cleanedCitation)
    | _ => JObj cleanedCitation
    end.

Definition cleanCitations (citations : list json) : list json :=
  map cleanCitation citations.

(** *** addCountsToTitle *)

(** The pattern [/Times cited: (\d+)/] at the start of [s]. *)
Definition match_times_cited (s : string) : option (string * string) :=
  match strip_prefix "Times cited: " s with
  | Some r =>
      let '(ds, r') := span is_digit r in
      if is_empty ds then None else Some (ds, r')
  | None => None
  end.

Definition addCountToTitle (citation : json) : json :=
  if negb (truthy (Some citation)) || negb (typeof_object citation) then citation
  else
    let modifiedCitation := spread citation in
    let count :=
      match get "note" modifiedCitation with
      | Some (JStr note) =>
          match find_first match_times_cited note with
          | Some (_, ds, _) => ds
          | None => "NA"
          end
      | _ => "NA"
      end in
    if truthy (get "title" modifiedCitation) then
      JObj (set "title"
              (JStr ("[" +:+ count +:+ " citations] "
                     +:+ interpolate (get "title" modifiedCitation)))
              modifiedCitation)
    else JObj modifiedCitation.

Definition addCountsToTitle (citations : list json) : list json :=
  map addCountToTitle citations.

(** *** formatBibliographyWithCounts *)

(** The pattern [/\[(\d+) citations\] /] at the start of [s]. *)
Definition match_count_marker (s : string) : option (string * string) :=
  match s with
  | String "[" s1 =>
      let '(ds, s2) := span is_digit s1 in
      if is_empty ds then None
      else
        match strip_prefix " citations] " s2 with
        | Some rest => Some (ds, rest)
        | None => None
        end
  | _ => None
  end.

(** The text of a match whose digits are [count]: [countMatch[0]]. *)
Definition marker (count : string) : string := "[" +:+ count +:+ " citations] ".

(** The callback of [lines.map]: [None] is [null]. *)
Definition formatLine (line : string) : option (N * string) :=
  if is_empty (trim line) then None
  else
    match find_first match_count_marker line with
    | Some (_, count, _) =>
        let cleanedLine := remove_first (marker count) line in
        Some (parseInt count, count +:+ tab +:+ cleanedLine)
    | None => Some (0%N, "0" +:+ tab +:+ line)
    end.

(** [formattedLines.sort((a, b) => b[0] - a[0])]: the sort is stable, and a
    stable sort has one result. *)
Fixpoint insert_desc (x : N * string) (l : list (N * string)) : list (N * string) :=
  match l with
  | [] => [x]
  | y :: rest =>
      if (y.1 <=? x.1)%N then x :: y :: rest else y :: insert_desc x rest
  end.

Definition sort_desc (l : list (N * string)) : list (N * string) :=
  foldr insert_desc [] l.

Definition header : string := "cite_count" +:+ tab +:+ "reference" +:+ nl.

Definition zeroRow (line : string) : bool := startsWith ("0" +:+ tab) line.

(** The rows of the table, sorted, before the zero rows are dropped. *)
Definition formattedLines (bibliography : string) : list (N * string) :=
  sort_desc (omap formatLine (split_lines bibliography)).

(** What the function makes of the rendered bibliography. *)
Definition countsTable (bibliography : string) : string :=
  let body :=
    join nl (List.filter (fun line => negb (zeroRow line))
                         (map snd (formattedLines bibliography))) in
  header +:+ body.

(** The external rendering capability: [new Cite(json).format(format,
    options)], which may throw; [options] is [None] when the call gives
    none. *)
Definition renderer : Type := string -> string -> option json -> result string.

Definition formatBibliographyWithCounts (Cite : renderer) (citations : list json)
  : result string :=
  let modifiedCitations := addCountsToTitle citations in
  let citationJson := stringify EmptyString (JArr modifiedCitations) in
  bibliography ← Cite citationJson "bibliography" None;
  Ok (countsTable bibliography).

(** *** formatWithCitationJs *)

Definition CSL_JSON : string := "data".
Definition CSL_JSON_WITH_COUNTS : string := "data-with-counts".
Definition BIBTEX : string := "bibtex".
Definition RIS : string := "ris".
Definition BIBLIOGRAPHY : string := "bibliography".
Definition BIBLIOGRAPHY_WITH_COUNTS : string := "bibliography-with-counts".

(** [Cite] is [None] when Citation.js is not loaded.  Whatever is thrown
    inside is wrapped by the error handler and thrown again. *)
Definition formatWithCitationJs (Cite : option renderer) (citations : list json)
  (format : string) (options : json) : result string :=
  try_catch
    match Cite with
    | None => Throw "Citation.js is not available"
    | Some render =>
        match citations with
        | [] => Ok EmptyString
        | _ =>
            if String.eqb format BIBLIOGRAPHY_WITH_COUNTS
            then formatBibliographyWithCounts render citations
            else
              let processedCitations :=
                if negb (String.eqb format CSL_JSON_WITH_COUNTS)
                then cleanCitations citations else citations in
              render (stringify EmptyString (JArr processedCitations)) format (Some options)
        end
    end
    (fun _ => Throw "Citation.js formatting failed").

(** *** formatFallback *)

Definition TypeError : string := "TypeError".

(** A substitution of a template literal: ToString of the value, which
    throws on a value that is not [printable]; [None] is [undefined]. *)
Definition substitute (v : option json) : result string :=
  match v with
  | Some x => if printable x then Ok (interpolate v) else Throw TypeError
  | None => Ok (interpolate v)
  end.

(** [`${a.family}, ${a.given}`] *)
Definition authorName (a : json) : result string :=
  match a with
  | JNull => Throw TypeError
  | _ =>
      family ← substitute (prop "family" a);
      given ← substitute (prop "given" a);
      Ok (family +:+ ", " +:+ given)
  end.

(** The callback of [citations.map] in the bibliography case. *)
Definition fallbackLine (index : nat) (citation : json) : result string :=
  match citation with
  | JNull => Throw TypeError
  | _ =>
      let title :=
        if truthy (prop "title" citation) then prop "title" citation
        else Some (JStr "Unknown Title") in
      author ←
        (if truthy (prop "author" citation) then
           match prop "author" citation with
           | Some (JArr l) => names ← rmapM authorName l; Ok (join ", " names)
           | _ => Throw TypeError
           end
         else Ok "Unknown Author");
      title ← substitute title;
      Ok (dec (index + 1) +:+ ". " +:+ author +:+ ". " +:+ title +:+ ".")
  end.

Fixpoint fallbackLines (index : nat) (citations : list json) : result (list string) :=
  match citations with
  | [] => Ok []
  | citation :: rest =>
      line ← fallbackLine index citation;
      lines ← fallbackLines (S index) rest;
      Ok (line :: lines)
  end.

Definition formatFallback (citations : list json) (format : string) : result string :=
  match citations with
  | [] => Ok EmptyString
  | _ =>
      if String.eqb format CSL_JSON || String.eqb format CSL_JSON_WITH_COUNTS then
        let processedCitations :=
          if String.eqb format CSL_JSON then cleanCitations citations else citations in
        Ok (stringify "  " (JArr processedCitations))
      else if String.eqb format BIBLIOGRAPHY then
        lines ← fallbackLines 0 citations;
        Ok (join nl lines)
      else Ok (stringify "  " (JArr citations))
  end.

(** *** format *)

Record formatterState : Type := mkFormatterState {
  currentCitations : list json;
  formattingCache : list (string * string)
}.

Definition slice100 (s : string) : string := String.substring 0 100 s.

Definition generateCacheKey (citations : list json) (format : string) (options : json) : string :=
  format +:+ "_" +:+ slice100 (stringify EmptyString (JArr citations)) +:+ "_" +:+ stringify EmptyString options.

Fixpoint cache_get (key : string) (cache : list (string * string)) : option string :=
  match cache with
  | [] => None
  | (k, v) :: rest => if String.eqb key k then Some v else cache_get key rest
  end.

(** [formattingCache.set(key, v)] for a key that is not in the cache, then
    the eviction of the oldest entry above 100 entries. *)
Definition cache_set (key v : string) (cache : list (string * string)) : list (string * string) :=
  let cache' := (cache ++ [(key, v)])%list in
  if (100 <? length cache')%nat then tail cache' else cache'.

(** [format] called with a string and with an array or no list;
    [formatAny] below is the function for arguments of any kind.
    [citations] is [None] when the caller gives none (or null). *)
Definition format (Cite : option renderer) (fmt : string) (citations : option (list json))
  (options : json) (st : formatterState) : result string * formatterState :=
  let citationsToFormat :=
    match citations with
    | Some cs => cs
    | None => currentCitations st
    end in
  let cacheKey := generateCacheKey citationsToFormat fmt options in
  match cache_get cacheKey (formattingCache st) with
  | Some cachedResult => (Ok cachedResult, st)
  | None =>
      if is_empty fmt then (Throw "Format must be a non-empty string", st)
      else
        match citationsToFormat with
        | [] => (Ok EmptyString, st)
        | _ =>
            let r :=
              try_catch (formatWithCitationJs Cite citationsToFormat fmt options)
                        (fun _ => formatFallback citationsToFormat fmt) in
            match r with
            | Ok result =>
                (Ok result,
                 mkFormatterState (currentCitations st)
                                  (cache_set cacheKey result (formattingCache st)))
            | Throw e => (Throw e, st)
            end
        end
  end.

(** [citations || currentCitations], for an argument of any kind; [None]
    is an argument left out. *)
Definition citationsOrCurrent (citations : option json) (st : formatterState) : json :=
  match citations with
  | Some given => if truthy citations then given else JArr (currentCitations st)
  | None => JArr (currentCitations st)
  end.

(** [generateCacheKey] on values of any kind: the template literal
    converts the format, which may throw. *)
Definition generateCacheKeyOf (citations : json) (fmt : option json) (options : json)
  : result string :=
  name ← substitute fmt;
  Ok (name +:+ "_" +:+ slice100 (stringify EmptyString citations) +:+ "_"
      +:+ stringify EmptyString options).

(** [format] with arguments of any kind.  The key is made and looked up
    first; the two checks of the arguments follow; whatever is thrown
    inside is thrown again. *)
Definition formatAny (Cite : option renderer) (fmt : option json) (citations : option json)
  (options : json) (st : formatterState) : result string * formatterState :=
  let citationsToFormat := citationsOrCurrent citations st in
  match generateCacheKeyOf citationsToFormat fmt options with
  | Throw e => (Throw e, st)
  | Ok cacheKey =>
      match cache_get cacheKey (formattingCache st) with
      | Some cachedResult => (Ok cachedResult, st)
      | None =>
          match fmt with
          | Some (JStr name) =>
              if is_empty name then (Throw "Format must be a non-empty string", st)
              else
                match citationsToFormat with
                | JArr [] => (Ok EmptyString, st)
                | JArr list =>
                    let r :=
                      try_catch (formatWithCitationJs Cite list name options)
                                (fun _ => formatFallback list name) in
                    match r with
                    | Ok result =>
                        (Ok result,
                         mkFormatterState (currentCitations st)
                                          (cache_set cacheKey result (formattingCache st)))
                    | Throw e => (Throw e, st)
                    end
                | _ => (Throw "Citations must be an array", st)
                end
          | _ => (Throw "Format must be a non-empty string", st)
          end
      end
  end.

End Formatter.

(** ** CitationProcessor.processFields *)

Module Processor.
Import JsString Json Dedup.

(** The entries that [parseFields] returns, seen as citation entries over a
    store.  [JSON.parse] builds a fresh object for every object of the text
    and [parseField] copies the entry but shares its [itemData], so every
    non-null [itemData] gets a location of its own.  [None] when an entry is
    outside the payload schema ([uris] a list of strings, [itemData] an
    object or null). *)
Definition uris_of (cite : object) : option (list string) :=
  match get "uris" cite with
  | None => Some []
  | Some (JArr l) => mapM (fun u => match u with JStr s => Some s | _ => None end) l
  | Some _ => None
  end.

Definition index_of (v : option json) : nat :=
  match v with
  | Some (JNum n) => Z.to_nat n
  | _ => 0
  end.

Fixpoint materialize (cites : list json) (next : loc) (h : store)
  : option (list citation * store) :=
  match cites with
  | [] => Some ([], h)
  | JObj cite :: rest =>
      us ← uris_of cite;
      let fi := index_of (get "_fieldIndex" cite) in
      let ci := index_of (get "_citeIndex" cite) in
      match get "itemData" cite with
      | None | Some JNull =>
          '(cs, h') ← materialize rest next h;
          Some (mkCitation us None fi ci :: cs, h')
      | Some (JObj o) =>
          '(cs, h') ← materialize rest (S next) (<[next := o]> h);
          Some (mkCitation us (Some next) fi ci :: cs, h')
      | Some _ => None
      end
  | _ => None
  end.

(** The result object; [rawCitations] and [deduplicatedCitations] are
    absent from the early return. *)
Record processResult : Type := mkProcessResult {
  citations : list loc;
  isEmpty : bool;
  rawCitations : option (list citation);
  deduplicatedCitations : option (list dedupResult)
}.

Section WithJsonParse.
Variable JSON_parse : string -> result json.

Definition processFields (fields : list string) : option (processResult * store) :=
  '(parsedCitations, h0) ← materialize (Parser.parseFields JSON_parse fields) 0 ∅;
  match parsedCitations with
  | [] => Some (mkProcessResult [] true None None, h0)
  | _ =>
      '(dedup, h1) ← deduplicateCitations parsedCitations h0;
      let metadataItems := extractMetadata dedup h1 in
      Some (mkProcessResult metadataItems
                            (bool_decide (length metadataItems = 0))
                            (Some parsedCitations) (Some dedup),
            h1)
  end.

End WithJsonParse.

End Processor.

(** ** RefExtractorConfig: constants read by the modules below *)

Module Config.
Import JsString.

(** [CITATION_PREFIXES]: each pattern as the test [pattern.test(field)].
    The three specific patterns are anchored literals. *)
Definition MENDELEY (field : string) : bool := startsWith "ADDIN CSL_CITATION" field.

Definition ZOTERO_WORD (field : string) : bool :=
  startsWith "ADDIN ZOTERO_ITEM CSL_CITATION" field.

Definition ZOTERO_ODT (field : string) : bool := startsWith "ZOTERO_ITEM CSL_CITATION" field.

Definition CSL_GENERAL (field : string) : bool :=
  match Parser.match_csl_prefix field with Some _ => true | None => false end.

(** [DOCUMENT_TYPES] *)
Definition OFFICE_OPEN_XML : string := "OfficeOpenXML".
Definition OPEN_DOCUMENT : string := "OpenDocument".

(** [l.includes(x)] on an array of strings. *)
Definition includes (x : string) (l : list string) : bool := bool_decide (x ∈ l).

(** [l.forEach((x, index) => ...)] as a fold that passes the index. *)
Fixpoint forEach_from {A St : Type} (f : St -> nat -> A -> St) (index : nat) (l : list A)
  (s : St) : St :=
  match l with
  | [] => s
  | x :: rest => forEach_from f (S index) rest (f s index x)
  end.

Definition forEach {A St : Type} (f : St -> nat -> A -> St) (l : list A) (s : St) : St :=
  forEach_from f 0 l s.

End Config.

(** ** RefExtractorFieldExtractor: the reference-mark strategy, the public
    [extractFields], [validateFields] and [unescapeXmlEntities] *)

Module FieldExtractorApi.
Import JsString Json FieldExtractor Config.

(** What the queries of the extractor find in a content file that parses:
    the begin markers of its complex fields, and for every reference mark
    that [querySelectorAll(REFERENCE_MARKS)] selects the value of
    [getAttribute('text:name')], [None] for null. *)
Record contentDom : Type := mkContentDom {
  fieldCharBegins : list fieldStart;
  referenceMarks : list (option string)
}.

(** A content file, as [parseXmlString] answers for it: the document, or a
    throw when the markup does not parse. *)
Definition contentFile : Type := result contentDom.

(** The test and the push of the loop over the reference marks. *)
Definition referenceMarkField (nameAttribute : option string) : option string :=
  match nameAttribute with
  | Some name =>
      if negb (is_empty name) && negb (is_empty (trim name)) then Some (trim name) else None
  | None => None
  end.

Definition extractOpenDocumentFields (parsedDOM : contentFile) : result (list string) :=
  dom ← parsedDOM;
  Ok (omap referenceMarkField (referenceMarks dom)).

(** [extractOfficeOpenXmlFields] on a content file; the log is dropped. *)
Definition extractOfficeOpenXml (parsedDOM : contentFile) : result (list string) :=
  r ← extractOfficeOpenXmlFields (dom ← parsedDOM; Ok (fieldCharBegins dom));
  Ok r.1.

(** The public [extractFields]: every content file goes through the method
    chosen by the document type, inside its own [try]/[catch]. *)
Definition extractFields (contentFiles : list contentFile) (documentType : string)
  : list string :=
  let extractionMethod :=
    if String.eqb documentType OFFICE_OPEN_XML
    then extractOfficeOpenXml else extractOpenDocumentFields in
  foldl (fun allFields content =>
           match extractionMethod content with
           | Ok fields => (allFields ++ fields)%list
           | Throw _ => allFields
           end) [] contentFiles.

(** *** validateFields *)

Record fieldValidation : Type := mkFieldValidation {
  fv_isValid : bool;
  fv_errors : list string;
  fv_warnings : list string;
  fv_validFields : list string;
  fv_total : nat;
  fv_valid : nat;
  fv_invalid : nat;
  fv_suspicious : nat
}.

(** The three arrays that the loop fills: [validFields], [warnings],
    [errors]. *)
Definition validationArrays : Type := list string * list string * list string.

Definition validateField (acc : validationArrays) (index : nat) (field : json)
  : validationArrays :=
  let '(validFields, warnings, errors) := acc in
  match field with
  | JStr s =>
      let trimmedField := trim s in
      if is_empty trimmedField then
        (validFields, (warnings ++ ["Field " +:+ dec (index + 1) +:+ " is empty"])%list, errors)
      else if CSL_GENERAL trimmedField then
        ((validFields ++ [trimmedField])%list, warnings, errors)
      else
        (validFields,
         (warnings ++ ["Field " +:+ dec (index + 1) +:+ " does not match CSL citation pattern"])%list,
         errors)
  | _ =>
      (validFields, warnings,
       (errors ++ ["Field " +:+ dec (index + 1) +:+ " is not a string"])%list)
  end.

(** [fields] is an array; its elements are any values. *)
Definition validateFields (fields : list json) : fieldValidation :=
  let '(validFields, warnings, errors) := forEach validateField fields ([], [], []) in
  mkFieldValidation (bool_decide (length errors = 0)) errors warnings validFields
                    (length fields) (length validFields) (length errors) (length warnings).

(** *** unescapeXmlEntities *)

(** The pattern [/&quot;|&lt;|&gt;|&amp;|&apos;/] at the start of [s]: the
    character that the callback returns for the match, and the length of
    the match. *)
Definition match_entity (s : string) : option (ascii * nat) :=
  if startsWith "&quot;" s then Some (DQUOTE, 6)
  else if startsWith "&lt;" s then Some ("<"%char, 4)
  else if startsWith "&gt;" s then Some (">"%char, 4)
  else if startsWith "&amp;" s then Some ("&"%char, 5)
  else if startsWith "&apos;" s then Some ("'"%char, 6)
  else None.

(** The global replacement; [skip] counts the characters of the current
    match that remain to be dropped. *)
Fixpoint unescape_from (skip : nat) (s : string) : string :=
  match s with
  | EmptyString => EmptyString
  | String c s' =>
      match skip with
      | S k => unescape_from k s'
      | O =>
          match match_entity s with
          | Some (r, S k) => String r (unescape_from k s')
          | _ => String c (unescape_from 0 s')
          end
      end
  end.

Definition unescapeXmlEntities (xmlString : string) : string := unescape_from 0 xmlString.

End FieldExtractorApi.

(** ** CitationProcessor: [validateCitations], [getCitationStatistics] *)

Module CitationApi.
Import JsString Json Config.

(** [isValidMetadata] on any value: null and what is not an object are
    refused at once, an array has no [title] of its own. *)
Definition isValidMetadata (metadata : json) : bool :=
  match metadata with
  | JObj o => Dedup.isValidMetadata o
  | _ => false
  end.




(** *** getCitationStatistics *)

(** [s.includes(pat)] *)
Definition str_includes (pat s : string) : bool :=
  match find_first (fun t => option_map (fun r => (tt, r)) (strip_prefix pat t)) s with
  | Some _ => true
  | None => false
  end.






End CitationApi.

(** ** RefExtractorErrorHandler *)

Module ErrorHandler.
Import JsString.

Inductive severityLevel : Type := critical | high | medium | low | info.

Inductive errorCategory : Type := file | xml | citation | ui | network | unknown.

(** The entries of [MESSAGES.ERRORS]. *)
Inductive errorMessage : Type :=
| FILE_READ_FAILED | INVALID_DOCUMENT_TYPE | NO_REFERENCES_FOUND
| PARSING_FAILED | NETWORK_ERROR | UNKNOWN_ERROR.

(** Error codes are the integers of [ERROR_CODES]. *)
Definition getSeverityFromCode (code : Z) : severityLevel :=
  if (9000 <=? code)%Z then critical
  else if (5000 <=? code)%Z then high
  else if (3000 <=? code)%Z then medium
  else if (1000 <=? code)%Z then low
  else info.

Definition ranges : list (errorCategory * (Z * Z)) :=
  [(file, (1000, 1999)%Z); (xml, (2000, 2999)%Z); (citation, (3000, 3999)%Z);
   (ui, (4000, 4999)%Z); (network, (5000, 5999)%Z); (unknown, (9000, 9999)%Z)].

Fixpoint categoryIn (rs : list (errorCategory * (Z * Z))) (code : Z) : errorCategory :=
  match rs with
  | [] => unknown
  | (category, (min, max)) :: rest =>
      if ((min <=? code) && (code <=? max))%Z then category else categoryIn rest code
  end.

Definition getCategoryFromCode (code : Z) : errorCategory := categoryIn ranges code.

(** [CORRUPTED_ZIP], [INVALID_FILE_TYPE], [UNKNOWN_ERROR] *)
Definition nonRecoverableCodes : list Z := [1004; 1003; 9999]%Z.

Definition isRecoverableError (code : Z) : bool :=
  negb (existsb (Z.eqb code) nonRecoverableCodes).

(** [codeMessageMap[code] || messages.UNKNOWN_ERROR]: the map has the keys
    [FILE_READ_ERROR], [INVALID_FILE_TYPE], [XML_PARSE_ERROR],
    [CITATION_PARSE_ERROR] and [CITATION_JS_ERROR]. *)
Definition getUserFriendlyMessage (code : Z) : errorMessage :=
  if (code =? 1001)%Z then FILE_READ_FAILED
  else if (code =? 1003)%Z then INVALID_DOCUMENT_TYPE
  else if (code =? 2001)%Z then PARSING_FAILED
  else if (code =? 3001)%Z then NO_REFERENCES_FOUND
  else if (code =? 5001)%Z then NETWORK_ERROR
  else UNKNOWN_ERROR.

(** The standard error object: the fields that the handler reads.  The
    identifier, the stack, the context and the description of the browser
    are carried along and never read; [timestamp] is
    [environment.timestamp], the clock at creation. *)
Record error : Type := mkError {
  code : Z;
  message : string;
  severity : severityLevel;
  category : errorCategory;
  recoverable : bool;
  userMessage : errorMessage;
  recovered : bool;
  timestamp : Z
}.

Definition createStandardErrorInternal (now : Z) (code : Z) (message : string) : error :=
  mkError code message (getSeverityFromCode code) (getCategoryFromCode code)
          (isRecoverableError code) (getUserFriendlyMessage code) false now.

(** *** storeError *)

Definition MAX_ERROR_HISTORY : nat := 50.

(** [l.slice(-n)] for a positive [n]. *)
Definition slice_last {A : Type} (n : nat) (l : list A) : list A := drop (length l - n) l.

(** What [storeError] does to [errorHistory] ([DEBUG.STORE_ERRORS] is
    true); the event it dispatches afterwards goes to the browser. *)
Definition storeError (e : error) (errorHistory : list error) : list error :=
  let errorHistory := (errorHistory ++ [e])%list in
  if (MAX_ERROR_HISTORY <? length errorHistory)%nat
  then slice_last MAX_ERROR_HISTORY errorHistory
  else errorHistory.

(** *** attemptRecovery *)

(** [window.RefExtractorUI], when it is defined: for each of its methods
    that the handler looks for, whether it is there, and if so whether a
    call returns or throws. *)
Record uiHooks : Type := mkUiHooks {
  resetToInitialState : option (result unit);
  rebindEvents : option (result unit);
  showError : bool
}.

Definition callHook (hook : option (result unit)) : bool :=
  match hook with
  | Some (Ok _) => true
  | _ => false
  end.

Definition recoverFileError (RefExtractorUI : option uiHooks) : bool :=
  match RefExtractorUI with
  | Some hooks => callHook (resetToInitialState hooks)
  | None => false
  end.

Definition recoverUiError (RefExtractorUI : option uiHooks) : bool :=
  match RefExtractorUI with
  | Some hooks => callHook (rebindEvents hooks)
  | None => false
  end.

Definition attemptRecovery (RefExtractorUI : option uiHooks) (e : error) : bool :=
  if negb (recoverable e) then false
  else
    match category e with
    | file => recoverFileError RefExtractorUI
    | xml => false
    | citation => false
    | ui => recoverUiError RefExtractorUI
    | _ => false
    end.

(** *** showUserNotification *)

(** How the user is told: through the interface, or through [alert]. *)
Inductive notification : Type :=
| ShowError (text : errorMessage) (level : severityLevel)
| Alert (text : errorMessage).

Definition showUserNotification (RefExtractorUI : option uiHooks) (e : error)
  : option notification :=
  match severity e with
  | critical | high =>
      match RefExtractorUI with
      | Some hooks =>
          if showError hooks then Some (ShowError (userMessage e) (severity e))
          else Some (Alert (userMessage e))
      | None => Some (Alert (userMessage e))
      end
  | _ => None
  end.

(** *** getErrorStats *)

(** [m[k] = (m[k] || 0) + 1] on an object used as a table of counters. *)
Fixpoint bump {K : Type} (eqb : K -> K -> bool) (k : K) (m : list (K * nat)) : list (K * nat) :=
  match m with
  | [] => [(k, 1)]
  | (k', n) :: rest =>
      if eqb k k' then (k', n + 1) :: rest else (k', n) :: bump eqb k rest
  end.

Definition severity_eqb (a b : severityLevel) : bool :=
  match a, b with
  | critical, critical | high, high | medium, medium | low, low | info, info => true
  | _, _ => false
  end.

Definition category_eqb (a b : errorCategory) : bool :=
  match a, b with
  | file, file | xml, xml | citation, citation | ui, ui
  | network, network | unknown, unknown => true
  | _, _ => false
  end.

Record errorStats : Type := mkErrorStats {
  es_total : nat;
  byCategory : list (errorCategory * nat);
  bySeverity : list (severityLevel * nat);
  byRecoverable_true : nat;
  byRecoverable_false : nat;
  recent : nat
}.

Definition countError (oneHourAgo : Z) (stats : errorStats) (e : error) : errorStats :=
  mkErrorStats (es_total stats)
    (bump category_eqb (category e) (byCategory stats))
    (bump severity_eqb (severity e) (bySeverity stats))
    (if recoverable e then byRecoverable_true stats + 1 else byRecoverable_true stats)
    (if recoverable e then byRecoverable_false stats else byRecoverable_false stats + 1)
    (if (oneHourAgo <? timestamp e)%Z then recent stats + 1 else recent stats).

(** [now] is [Date.now()], in milliseconds. *)
Definition getErrorStats (now : Z) (errorHistory : list error) : errorStats :=
  foldl (countError (now - 60 * 60 * 1000)%Z)
        (mkErrorStats (length errorHistory) [] [] 0 0 0) errorHistory.

End ErrorHandler.

(** ** RefExtractorDocumentParser: the choice of the files to read *)

Module DocumentParser.
Import JsString Config.

(** [FILE_PATHS] *)
Definition OFFICE_OPEN_XML_CONTENT_FILES : list string :=
  ["word/document.xml"; "word/footnotes.xml"; "word/endnotes.xml"].
Definition OFFICE_OPEN_XML_STYLE_FILE : string := "docProps/custom.xml".
Definition OFFICE_OPEN_XML_INDICATOR_FILE : string := "word/document.xml".
Definition OPEN_DOCUMENT_CONTENT_FILES : list string := ["content.xml"].
Definition OPEN_DOCUMENT_STYLE_FILE : string := "meta.xml".
Definition OPEN_DOCUMENT_INDICATOR_FILE : string := "content.xml".

(** [filesInZip] is [Object.keys(zip.files)]; [None] is null. *)
Definition detectDocumentType (filesInZip : list string) : option string :=
  if includes OFFICE_OPEN_XML_INDICATOR_FILE filesInZip then Some OFFICE_OPEN_XML
  else if includes OPEN_DOCUMENT_INDICATOR_FILE filesInZip then Some OPEN_DOCUMENT
  else None.

Record filesToExtract : Type := mkFilesToExtract {
  contentFiles : list string;
  styleFile : string;
  hasStyleFile : bool
}.

Definition getFilesToExtract (documentType : string) (availableFiles : list string)
  : filesToExtract :=
  let '(contentFiles, styleFile) :=
    if String.eqb documentType OFFICE_OPEN_XML then
      (List.filter (fun file => includes file OFFICE_OPEN_XML_CONTENT_FILES) availableFiles,
       OFFICE_OPEN_XML_STYLE_FILE)
    else if String.eqb documentType OPEN_DOCUMENT then
      (List.filter (fun file => includes file OPEN_DOCUMENT_CONTENT_FILES) availableFiles,
       OPEN_DOCUMENT_STYLE_FILE)
    else ([], EmptyString) in
  mkFilesToExtract contentFiles styleFile (includes styleFile availableFiles).

(** The steps of [parseDocument] between the opening of the archive and the
    reading of the files: the files to read, or the message of the error
    thrown. *)
Definition chooseFiles (filesInZip : list string) : result filesToExtract :=
  match filesInZip with
  | [] => Throw "Invalid or corrupted ZIP file"
  | _ =>
      match detectDocumentType filesInZip with
      | None => Throw "Unsupported document type"
      | Some documentType =>
          let files := getFilesToExtract documentType filesInZip in
          match contentFiles files with
          | [] => Throw "No extractable content files found"
          | _ => Ok files
          end
      end
  end.

End DocumentParser.

(** ** RefExtractorZoteroIntegration *)

Module Zotero.
Import JsString Config.

(** [ZOTERO] *)
Definition URI_PREFIX : string := "http://zotero.org/".
Definition LOCAL_URI_PREFIX : string := "http://zotero.org/users/local/".
Definition WEB_URI_PREFIX : string := "http://zotero.org/users/".
Definition SELECTION_PREFIX : string := "zotero://select/".
Definition USERS : string := "users".
Definition GROUPS : string := "groups".

(** The match of a literal at the start of a string. *)
Definition literal (pat : string) (t : string) : option (unit * string) :=
  option_map (fun r => (tt, r)) (strip_prefix pat t).

(** [s.includes(pat)] *)
Definition str_includes (pat s : string) : bool :=
  match find_first (literal pat) s with
  | Some _ => true
  | None => false
  end.

(** [s.replace(pat, rep)] for a literal [pat] and a replacement without
    dollar signs: the first occurrence is replaced. *)
Definition replace_first (pat rep s : string) : string :=
  match find_first (literal pat) s with
  | Some (pre, _, rest) => pre +:+ rep +:+ rest
  | None => s
  end.

(** [s.split(sep)] for a separator of one character. *)
Fixpoint split (sep : ascii) (s : string) : list string :=
  match s with
  | EmptyString => [EmptyString]
  | String c s' =>
      match split sep s' with
      | l :: ls =>
          if Ascii.eqb c sep then EmptyString :: l :: ls
          else String c l :: ls
      | [] => [EmptyString]
      end
  end.

(** [uri] is a string. *)
Definition isZoteroUri (uri : string) : bool :=
  negb (is_empty uri) && str_includes URI_PREFIX uri.

Record zoteroUri : Type := mkZoteroUri {
  originalUri : string;
  normalizedUri : string;
  libraryType : string;
  libraryId : string;
  itemKey : string;
  libraryUrl : string
}.

(** [None] is null. *)
Definition parseZoteroUri (uri : string) : option zoteroUri :=
  if negb (isZoteroUri uri) then None
  else
    let normalizedUri :=
      if str_includes LOCAL_URI_PREFIX uri
      then replace_first LOCAL_URI_PREFIX WEB_URI_PREFIX uri else uri in
    match split "/" normalizedUri with
    | [protocol; empty; domain; libraryType; libraryId; itemsKeyword; itemKey] =>
        if negb (String.eqb protocol "http:") || negb (String.eqb domain "zotero.org")
           || negb (String.eqb itemsKeyword "items")
        then None
        else if negb (includes libraryType [USERS; GROUPS]) then None
        else
          Some (mkZoteroUri uri normalizedUri libraryType libraryId itemKey
                  ("https://www.zotero.org/" +:+ libraryType +:+ "/" +:+ libraryId))
    | _ => None
    end.

(** The citations are deduplicated entries; their [uris] are arrays of
    strings. *)
Definition extractZoteroItems (citations : list Dedup.dedupResult) : list string :=
  concat (map (fun citation => List.filter isZoteroUri (Dedup.r_uris citation)) citations).

Record library : Type := mkLibrary {
  items : list string;
  type : string;
  subID : string;
  lib_libraryUrl : string;
  selectionString : option string
}.

(** The object [libraries]: its keys are library addresses, enumerated in
    the order of their creation. *)
Definition libraries : Type := list (string * library).

Fixpoint lookupLibrary (libraryUrl : string) (libs : libraries) : option library :=
  match libs with
  | [] => None
  | (k, lib) :: rest => if String.eqb libraryUrl k then Some lib else lookupLibrary libraryUrl rest
  end.

Fixpoint updateLibrary (libraryUrl : string) (f : library -> library) (libs : libraries)
  : libraries :=
  match libs with
  | [] => []
  | (k, lib) :: rest =>
      if String.eqb libraryUrl k then (k, f lib) :: rest
      else (k, lib) :: updateLibrary libraryUrl f rest
  end.

Definition pushItem (itemKey : string) (lib : library) : library :=
  if includes itemKey (items lib) then lib
  else mkLibrary (items lib ++ [itemKey])%list (type lib) (subID lib) (lib_libraryUrl lib)
                 (selectionString lib).

(** The callback of [zoteroKeys.forEach]. *)
Definition groupItem (libs : libraries) (uri : string) : libraries :=
  match parseZoteroUri uri with
  | None => libs
  | Some parsedUri =>
      let libs :=
        match lookupLibrary (libraryUrl parsedUri) libs with
        | Some _ => libs
        | None =>
            (libs ++ [(libraryUrl parsedUri,
                       mkLibrary [] (libraryType parsedUri) (libraryId parsedUri)
                                 (libraryUrl parsedUri) None)])%list
        end in
      updateLibrary (libraryUrl parsedUri) (pushItem (itemKey parsedUri)) libs
  end.

Definition groupItemsByLibrary (zoteroKeys : list string) : libraries :=
  foldl groupItem [] zoteroKeys.

(** The body of the loop of [generateSelectionStrings]. *)
Definition withSelectionString (lib : library) : library :=
  match items lib with
  | [] => lib
  | _ =>
      let itemKeys := join "," (items lib) in
      if String.eqb (type lib) USERS then
        mkLibrary (items lib) (type lib) (subID lib) (lib_libraryUrl lib)
                  (Some (SELECTION_PREFIX +:+ "library/items?itemKey=" +:+ itemKeys))
      else if String.eqb (type lib) GROUPS then
        mkLibrary (items lib) (type lib) (subID lib) (lib_libraryUrl lib)
                  (Some (SELECTION_PREFIX +:+ "groups/" +:+ subID lib +:+ "/items?itemKey="
                         +:+ itemKeys))
      else lib
  end.

Definition generateSelectionStrings (libs : libraries) : libraries :=
  map (fun kv => (kv.1, withSelectionString kv.2)) libs.

(** The result of [processZoteroIntegration], with the counters of its
    statistics. *)
Record integrationResult : Type := mkIntegrationResult {
  hasZoteroItems : bool;
  selectors : libraries;
  totalItems : nat;
  zoteroItems : nat;
  librariesFound : nat;
  selectorsGenerated : nat
}.

Definition processZoteroIntegration (citations : list Dedup.dedupResult) : integrationResult :=
  match citations with
  | [] => mkIntegrationResult false [] 0 0 0 0
  | _ =>
      let zoteroItemKeys := extractZoteroItems citations in
      match zoteroItemKeys with
      | [] => mkIntegrationResult false [] (length citations) 0 0 0
      | _ =>
          let libs := groupItemsByLibrary zoteroItemKeys in
          let zoteroLibrarySelectors := generateSelectionStrings libs in
          mkIntegrationResult true zoteroLibrarySelectors (length citations)
            (length zoteroItemKeys) (length libs)
            (length (List.filter (fun kv => match selectionString kv.2 with
                                            | Some _ => true
                                            | None => false
                                            end) zoteroLibrarySelectors))
      end
  end.

End Zotero.

(** ** RefExtractorUIController: what [handleFileSelect] shows *)

Module UIController.
Import JsString Json Formatter.

(** [OutputFormatter.setCitations] *)
Definition setCitations (citations : list json) (st : formatterState) : formatterState :=
  mkFormatterState citations (formattingCache st).

(** [updateProcessingResults], as far as the text area goes: with
    citations in the result, its value becomes what
    [OutputFormatter.format] returns for the format [data], called with no
    list of its own; a throw is caught and leaves the text area alone. *)
Definition updateProcessingResults (Cite : option renderer) (citations : list json)
  (textArea : string) (st : formatterState) : string * formatterState :=
  match citations with
  | [] => (textArea, st)
  | _ =>
      match format Cite CSL_JSON None (JObj []) st with
      | (Ok value, st') => (value, st')
      | (Throw _, st') => (textArea, st')
      end
  end.

(** The two steps of [handleFileSelect] that follow [processFields]: the
    display of the result, then the hand-over of the citations to the
    formatter. *)
Definition showResult (Cite : option renderer) (citations : list json)
  (textArea : string) (st : formatterState) : string * formatterState :=
  let '(textArea, st) := updateProcessingResults Cite citations textArea st in
  (textArea, setCitations citations st).

End UIController.

(** * Properties *)

Open Scope list_scope.
Open Scope nat_scope.

(** ** Strings *)

Module StringFacts.
Import JsString.

Lemma sapp_cons c s t : String c s +:+ t = String c (s +:+ t).
Proof. reflexivity. Qed.

Lemma sapp_nil_l s : EmptyString +:+ s = s.
Proof. reflexivity. Qed.

Lemma sapp_nil_r s : s +:+ EmptyString = s.
Proof. induction s as [|c s IH]; [done|]. by rewrite sapp_cons, IH. Qed.

Lemma sapp_assoc s t u : (s +:+ t) +:+ u = s +:+ t +:+ u.
Proof. induction s as [|c s IH]; [done|]. by rewrite !sapp_cons, IH. Qed.

Lemma is_empty_true s : is_empty s = true <-> s = EmptyString.
Proof. by destruct s. Qed.

Lemma strip_prefix_Some p : forall s r, strip_prefix p s = Some r <-> s = p +:+ r.
Proof.
  induction p as [|a p IH]; intros s r; simpl.
  - rewrite sapp_nil_l. split; [by intros [= ->]|by intros ->].
  - destruct s as [|b s]; [done|]. rewrite sapp_cons.
    destruct (Ascii.eqb_spec a b) as [->|Hne].
    + rewrite IH. split; [by intros ->|by intros [= ->]].
    + split; [done|]. intros [= -> _]. done.
Qed.

Lemma strip_prefix_app p r : strip_prefix p (p +:+ r) = Some r.
Proof. by apply strip_prefix_Some. Qed.

(** All the characters of a string are in a class. *)
Fixpoint all (f : ascii -> bool) (s : string) : bool :=
  match s with
  | EmptyString => true
  | String c s' => f c && all f s'
  end.

(** A string does not start with a character of a class. *)
Definition stops (f : ascii -> bool) (s : string) : bool :=
  match s with
  | EmptyString => true
  | String c _ => negb (f c)
  end.

Lemma span_spec f s a b :
  span f s = (a, b) -> s = a +:+ b /\ all f a = true /\ stops f b = true.
Proof.
  revert a b. induction s as [|c s IH]; intros a b; simpl.
  - by intros [= <- <-].
  - destruct (f c) eqn:Hc.
    + destruct (span f s) as [a' b'] eqn:Hs. intros [= <- <-].
      destruct (IH _ _ eq_refl) as (-> & Ha & Hb).
      by rewrite sapp_cons; simpl; rewrite Hc.
    + intros [= <- <-]. simpl. by rewrite Hc.
Qed.

Lemma span_app f a b :
  all f a = true -> stops f b = true -> span f (a +:+ b) = (a, b).
Proof.
  induction a as [|c a IH]; simpl; intros Ha Hb.
  - rewrite sapp_nil_l. destruct b as [|c b]; [done|]. simpl in *.
    by destruct (f c).
  - apply andb_true_iff in Ha as [Hc Ha]. rewrite ?sapp_cons. simpl.
    by rewrite Hc, IH.
Qed.

Lemma all_app f a b : all f (a +:+ b) = all f a && all f b.
Proof.
  induction a as [|c a IH]; [done|]. rewrite sapp_cons. simpl.
  by rewrite IH, andb_assoc.
Qed.

(** A string that trims to nothing is made of white space. *)
Lemma trim_blank s : is_empty (trim s) = true -> all is_ws s = true.
Proof.
  unfold trim. induction s as [|c s IH]; [done|]. simpl.
  destruct (is_ws c) eqn:Hc; [done|]. simpl. by rewrite Hc.
Qed.

Section Find.
Context {A : Type} (m : string -> option (A * string)).

(** No match starts inside [pre], when [pre] is followed by [t]. *)
Fixpoint no_match_in (pre t : string) : Prop :=
  match pre with
  | EmptyString => True
  | String c pre' => m (String c pre' +:+ t) = None /\ no_match_in pre' t
  end.

Lemma find_first_Some s pre a rest :
  find_first m s = Some (pre, a, rest) ->
  exists t, s = pre +:+ t /\ m t = Some (a, rest) /\ no_match_in pre t.
Proof.
  revert pre. induction s as [|c s IH]; intros pre; simpl.
  - destruct (m EmptyString) as [[a' r']|] eqn:Hm; [|done].
    intros [= <- <- <-]. by exists EmptyString.
  - destruct (m (String c s)) as [[a' r']|] eqn:Hm.
    + intros [= <- <- <-]. by exists (String c s).
    + destruct (find_first m s) as [[[p' a'] r']|] eqn:Hf; [|done].
      intros [= <- <- <-]. destruct (IH _ eq_refl) as (t & -> & Ht & Hno).
      exists t. rewrite sapp_cons. simpl. by rewrite sapp_cons.
Qed.

Lemma find_first_None s :
  find_first m s = None -> forall pre t, s = pre +:+ t -> m t = None.
Proof.
  induction s as [|c s IH]; simpl.
  - destruct (m EmptyString) as [[a' r']|] eqn:Hm; [done|].
    intros _ [|c pre] t; [|done]. rewrite sapp_nil_l. by intros <-.
  - destruct (m (String c s)) as [[a' r']|] eqn:Hm; [done|].
    destruct (find_first m s) as [[[p' a'] r']|] eqn:Hf; [done|].
    intros _ [|c' pre] t.
    + rewrite sapp_nil_l. by intros <-.
    + rewrite sapp_cons. intros [= -> ->]. by eapply IH.
Qed.

Lemma find_first_intro pre : forall t a rest,
  m t = Some (a, rest) -> no_match_in pre t ->
  find_first m (pre +:+ t) = Some (pre, a, rest).
Proof.
  induction pre as [|c pre IH]; intros t a rest Ht Hno.
  - rewrite sapp_nil_l. destruct t; simpl; by rewrite Ht.
  - destruct Hno as [Hc Hno]. rewrite sapp_cons in *. simpl.
    by rewrite Hc, (IH _ _ _ Ht Hno).
Qed.

End Find.

End StringFacts.
(** ** FieldScanner *)

Module FieldExtractorSpec.
Import JsString FieldExtractor.

(** The instruction text that a run of siblings adds to an accumulation. *)
Definition accumulate (acc : string) (nodes : list node) : string :=
  fold_left String.append (flat_map instrTexts nodes) acc.

Definition noEndMarker (nodes : list node) : bool :=
  forallb (fun n => negb (hasEndMarker n)) nodes.

(** The test that guards [fields.push]. *)
Definition isRawField (fieldContent : string) : bool :=
  negb (is_empty fieldContent) && negb (is_empty (trim fieldContent)).

Definition ceilingWarning : logEntry :=
  LogWarn "Reached maximum iterations while extracting complex field content".

Lemma accumulate_cons acc n nodes :
  accumulate acc (n :: nodes) = accumulate (fold_left String.append (instrTexts n) acc) nodes.
Proof. unfold accumulate. simpl. by rewrite fold_left_app. Qed.

Lemma walk_iterations_bounded siblings : forall n acc log,
  n <= maxIterations ->
  (walkSiblings siblings n acc log).1.2 <= maxIterations.
Proof.
  induction siblings as [|s rest IH]; intros n acc log Hn; cbn [walkSiblings]; [done|].
  destruct (n <? maxIterations)%nat eqn:Hlt; [|done].
  apply Nat.ltb_lt in Hlt.
  destruct (hasEndMarker s); simpl; [lia|].
  apply IH. lia.
Qed.

Lemma walk_at_ceiling siblings acc log :
  walkSiblings siblings maxIterations acc log = (acc, maxIterations, log).
Proof. destruct siblings; [done|]. cbn [walkSiblings]. by rewrite Nat.ltb_irrefl. Qed.

Lemma walk_without_end pre : forall post n acc log,
  noEndMarker pre = true ->
  n + length pre <= maxIterations ->
  walkSiblings (pre ++ post) n acc log
  = walkSiblings post (n + length pre) (accumulate acc pre) log.
Proof.
  induction pre as [|s pre IH]; intros post n acc log Hend Hlen;
    cbn [walkSiblings app length noEndMarker forallb] in *.
  - by rewrite Nat.add_0_r.
  - apply andb_true_iff in Hend as [Hs Hpre].
    destruct (n <? maxIterations)%nat eqn:Hlt; [|apply Nat.ltb_ge in Hlt; lia].
    destruct (hasEndMarker s); [done|].
    rewrite IH; [|done|lia].
    rewrite accumulate_cons. f_equal. lia.
Qed.

Lemma extractFields_filter starts : forall fields log,
  (extractFields starts fields log).1
  = (fields ++ List.filter isRawField (map (fun s => (extractComplexFieldContent s).1) starts))%list.
Proof.
  induction starts as [|s rest IH]; intros fields log; simpl.
  - by rewrite app_nil_r.
  - destruct (extractComplexFieldContent s) as [c l] eqn:Hc. simpl.
    unfold isRawField at 1.
    destruct (negb (is_empty c) && negb (is_empty (trim c))); rewrite IH; [|done].
    by rewrite <- app_assoc.
Qed.

(** C5. The walk over the siblings of a begin marker makes at most 1000
    iterations; when the first 1000 siblings hold no end marker the
    function returns the trimmed instruction text of these 1000 siblings and
    logs the warning; the scan over the begin markers goes on after every
    marker, and keeps exactly the contents that are not empty once
    trimmed. *)
Theorem complex_field_walk_ceiling (siblings : list node) (starts : list fieldStart) :
  (walkSiblings siblings 0 EmptyString []).1.2 <= 1000
  /\ (maxIterations <= length siblings ->
      noEndMarker (take maxIterations siblings) = true ->
      extractComplexFieldContent (Some siblings)
      = (trim (accumulate EmptyString (take maxIterations siblings)), [ceilingWarning]))
  /\ (exists log,
      extractOfficeOpenXmlFields (Ok starts)
      = Ok (List.filter isRawField (map (fun s => (extractComplexFieldContent s).1) starts), log))
  /\ (forall s, is_empty (trim (extractComplexFieldContent s).1) = true ->
      isRawField (extractComplexFieldContent s).1 = false).
Proof.
  split; [|split; [|split]].
  - apply (walk_iterations_bounded siblings 0 EmptyString []). unfold maxIterations. lia.
  - intros Hlen Hend. unfold extractComplexFieldContent.
    rewrite <- (take_drop maxIterations siblings) at 1.
    rewrite walk_without_end; [|done|rewrite length_take; lia].
    rewrite length_take, Nat.min_l by done. simpl "+".
    rewrite walk_at_ceiling. rewrite Nat.leb_refl. reflexivity.
  - exists (extractFields starts [] []).2.
    pose proof (extractFields_filter starts [] []) as Hf.
    unfold extractOfficeOpenXmlFields. cbn [mbind result_bind].
    destruct (extractFields starts [] []) as [fs lg]. simpl in *. by rewrite Hf.
  - intros s Hs. unfold isRawField. rewrite Hs. by rewrite andb_false_r.
Qed.

Lemma complex_field_walk_ceiling_witness :
  let siblings := (replicate 1000 (Element false [" ab"; "c "]) ++ [Element true []; Element false ["z"]])%list in
  extractComplexFieldContent (Some siblings)
  = (trim (accumulate EmptyString (take maxIterations siblings)), [ceilingWarning]).
Proof.
  intros siblings.
  apply (proj1 (proj2 (complex_field_walk_ceiling siblings []))).
  - vm_compute. lia.
  - vm_compute. reflexivity.
Defined.

End FieldExtractorSpec.
(** ** CitationFieldParser *)

Module ParserSpec.
Import JsString Json Parser.

Section WithJsonParse.
Variable JSON_parse : string -> result json.

(** The payload of a field with a recognized prefix: what [JSON.parse]
    receives. *)
Definition payload (field : string) : option string :=
  match match_csl_prefix field with
  | Some rest => Some (strip_hash (trim rest))
  | None => None
  end.

(** The entries that a field contributes to the batch. *)
Definition entriesOf (index : nat) (field : string) : list json :=
  match parseField JSON_parse field index with
  | Ok citations => citations
  | Throw _ => []
  end.

(** A field that yields nothing: no recognized prefix, a payload that does
    not parse, or a parsed payload without a [citationItems] array. *)
Definition rejected (field : string) : Prop :=
  payload field = None
  \/ (exists text e, payload field = Some text /\ JSON_parse text = Throw e)
  \/ (exists text v, payload field = Some text /\ JSON_parse text = Ok v
                     /\ forall items, prop "citationItems" v <> Some (JArr items)).

Lemma parseField_total field fieldIndex :
  exists citations, parseField JSON_parse field fieldIndex = Ok citations.
Proof.
  unfold parseField, try_catch.
  destruct (parseField_try JSON_parse field fieldIndex); eauto.
Qed.

Lemma parseField_rejected field fieldIndex :
  rejected field -> parseField JSON_parse field fieldIndex = Ok [].
Proof.
  unfold rejected, payload, parseField, parseField_try.
  intros [Hp | [(text & e & Hp & He) | (text & v & Hp & Hv & Hitems)]];
    destruct (match_csl_prefix field) as [rest|]; try done;
    injection Hp as <-.
  - destruct (is_empty _); [done|]. by rewrite He.
  - destruct (is_empty _); [done|]. rewrite Hv. cbn [mbind result_bind].
    destruct (negb (truthy (Some v)) || negb (typeof_object v)); [done|].
    destruct (prop "citationItems" v) as [[| | | |items|]|] eqn:Hc; try done.
    by destruct (Hitems items).
Qed.

Lemma parseFields_app (before after : list string) :
  parseFields JSON_parse (before ++ after)
  = (parseFields JSON_parse before
     ++ concat (imap (fun i => entriesOf (length before + i)) after))%list.
Proof.
  unfold parseFields. rewrite imap_app, concat_app. done.
Qed.

End WithJsonParse.

(** C6. A field without a recognized prefix, or whose payload does not
    parse, or whose parsed payload has no [citationItems] array, yields no
    entry and no exception; the batch goes on: the fields before and after
    it contribute what they contribute on their own. *)
Theorem rejected_field_yields_nothing (JSON_parse : string -> result json)
  (field : string) (fieldIndex : nat) (before after : list string) :
  rejected JSON_parse field ->
  parseField JSON_parse field fieldIndex = Ok []
  /\ parseFields JSON_parse (before ++ field :: after)
     = (parseFields JSON_parse before
        ++ concat (imap (fun i => entriesOf JSON_parse (length before + S i)) after))%list.
Proof.
  intros Hrej. split; [by apply parseField_rejected|].
  rewrite parseFields_app. f_equal.
  rewrite imap_cons. cbn [concat].
  unfold entriesOf at 1. rewrite (parseField_rejected _ _ _ Hrej). cbn [app].
  reflexivity.
Qed.

(** A parser that accepts two texts only, to run the model. *)
Definition sampleParse (text : string) : result json :=
  if String.eqb text "{}" then Ok (JObj [])
  else if String.eqb text "[1]" then Ok (JArr [JNum 1])
  else Throw "SyntaxError".

Lemma rejected_field_yields_nothing_witness :
  parseField sampleParse "ADDIN EN.CITE <EndNote>" 1 = Ok []
  /\ parseField sampleParse "ADDIN ZOTERO_ITEM CSL_CITATION {oops" 1 = Ok []
  /\ parseField sampleParse "ZOTERO_ITEM CSL_CITATION {}" 1 = Ok [].
Proof.
  split; [|split].
  - apply (rejected_field_yields_nothing sampleParse _ 1 [] []). by left.
  - apply (rejected_field_yields_nothing sampleParse _ 1 [] []).
    right; left. by exists "{oops", "SyntaxError".
  - apply (rejected_field_yields_nothing sampleParse _ 1 [] []).
    right; right. exists "{}", (JObj []). by repeat split.
Defined.

End ParserSpec.
(** ** OutputFormatter *)

Module FormatterSpec.
Import JsString Json Formatter StringFacts.

(** *** cleanCitations *)

Lemma get_set_ne k k' v o : k <> k' -> get k (set k' v o) = get k o.
Proof.
  intros Hne. induction o as [|[k0 v0] o IH]; simpl.
  - destruct (String.eqb_spec k k'); [done|done].
  - destruct (String.eqb_spec k' k0) as [->|Hk0]; simpl.
    + destruct (String.eqb_spec k k0); [done|done].
    + by rewrite IH.
Qed.

Lemma get_delete_ne k k' o : k <> k' -> get k (delete k' o) = get k o.
Proof.
  intros Hne. induction o as [|[k0 v0] o IH]; simpl; [done|].
  destruct (String.eqb_spec k' k0) as [->|Hk0]; simpl.
  - destruct (String.eqb_spec k k0); [done|done].
  - by rewrite IH.
Qed.

(** The fields other than [note] are those of the record. *)
Lemma cleanCitation_other_fields (o : object) (k : string) :
  k <> "note" -> prop k (cleanCitation (JObj o)) = get k o.
Proof.
  intros Hk. unfold cleanCitation. simpl.
  destruct (get "note" o) as [[| | |note| |]|]; try done.
  destruct (is_empty note); [done|].
  destruct (is_empty (trim _)); simpl.
  - by apply get_delete_ne.
  - by apply get_set_ne.
Qed.

(** A count line that a line break follows is removed. *)
Lemma cleanCitation_removes_count_line :
  let note := "Times cited: 12" +:+ (nl +:+ "see p. 3") in
  cleanCitation (JObj [("title", JStr "X"); ("note", JStr note)])
  = JObj [("title", JStr "X"); ("note", JStr "see p. 3")].
Proof. reflexivity. Qed.

(** C7, at the input where the code departs from it.  A record without a
    note gets the note "Times cited: 2" from the deduplication; formatting
    it as [data] keeps that note: the pattern of [cleanCitations] asks for a
    line break after the count, and there is none. *)
Theorem cleanCitations_keeps_final_count_line :
  let record := [("title", JStr "X"); ("note", JStr "Times cited: 2")] in
  Dedup.annotate 2 [("title", JStr "X")] = record
  /\ cleanCitations [JObj record] = [JObj record]
  /\ formatFallback [JObj record] CSL_JSON = Ok (stringify "  " (JArr [JObj record])).
Proof. repeat split. Qed.

(** *** formatBibliographyWithCounts *)

Definition digits (s : string) : Prop := all is_digit s = true /\ s <> EmptyString.

(** Rows in descending order of count. *)
Definition desc (a b : N * string) : Prop := (b.1 <= a.1)%N.

Lemma marker_unfold count rest :
  marker count +:+ rest = String "[" (count +:+ " citations] " +:+ rest).
Proof. unfold marker. rewrite !sapp_assoc. reflexivity. Qed.

Lemma match_count_marker_Some s count rest :
  match_count_marker s = Some (count, rest) ->
  s = marker count +:+ rest /\ digits count.
Proof.
  unfold match_count_marker. destruct s as [|c s]; [done|].
  destruct (Ascii.eqb_spec c "[") as [->|Hc]; [|by destruct c as [[] [] [] [] [] [] [] []]].
  destruct (span is_digit s) as [ds s2] eqn:Hspan.
  destruct (span_spec _ _ _ _ Hspan) as (-> & Hds & _).
  destruct (is_empty ds) eqn:Hempty; [done|].
  destruct (strip_prefix " citations] " s2) as [r|] eqn:Hp; [|done].
  intros [= <- <-]. apply strip_prefix_Some in Hp as ->.
  rewrite marker_unfold. split; [done|]. split; [done|].
  intros ->. done.
Qed.

Lemma match_count_marker_intro count rest :
  digits count -> match_count_marker (marker count +:+ rest) = Some (count, rest).
Proof.
  intros [Hall Hne]. rewrite marker_unfold. unfold match_count_marker.
  rewrite span_app; [|done|done].
  destruct count; [done|]. cbn [is_empty]. by rewrite strip_prefix_app.
Qed.

Lemma no_marker_no_occurrence count pre : forall t,
  digits count ->
  no_match_in match_count_marker pre t ->
  no_match_in (fun s => option_map (fun r => (tt, r)) (strip_prefix (marker count) s)) pre t.
Proof.
  induction pre as [|c pre IH]; intros t Hd; [done|].
  intros [Hc Hno]. split; [|by apply IH].
  destruct (strip_prefix (marker count) (String c pre +:+ t)) as [r|] eqn:Hp; [|done].
  apply strip_prefix_Some in Hp. rewrite Hp in Hc.
  by rewrite match_count_marker_intro in Hc.
Qed.

Lemma remove_marker line pre count post :
  find_first match_count_marker line = Some (pre, count, post) ->
  line = pre +:+ marker count +:+ post
  /\ digits count
  /\ remove_first (marker count) line = pre +:+ post.
Proof.
  intros Hf. apply find_first_Some in Hf as (t & -> & Ht & Hno).
  apply match_count_marker_Some in Ht as [-> Hd].
  split; [done|]. split; [done|].
  unfold remove_first.
  rewrite (find_first_intro _ pre (marker count +:+ post) tt post); [done| |].
  - by rewrite strip_prefix_app.
  - by apply no_marker_no_occurrence.
Qed.

(** A line that carries a marker is not blank. *)
Lemma marked_line_not_blank pre count post :
  is_empty (trim (pre +:+ marker count +:+ post)) = false.
Proof.
  destruct (is_empty (trim _)) eqn:Hb; [|done].
  apply trim_blank in Hb. rewrite all_app, marker_unfold in Hb.
  apply andb_true_iff in Hb as [_ Hb]. by vm_compute in Hb.
Qed.

Lemma is_digit_not_tab c : is_digit c = true -> Ascii.eqb TAB c = false.
Proof.
  intros Hc. destruct (Ascii.eqb_spec TAB c) as [<-|]; [|done].
  by vm_compute in Hc.
Qed.

Lemma zeroRow_digits count rest :
  digits count -> zeroRow (count +:+ tab +:+ rest) = String.eqb count "0".
Proof.
  intros [Hall Hne]. destruct count as [|c count]; [done|].
  unfold zeroRow, startsWith.
  change ("0" +:+ tab) with (String "0" (String TAB EmptyString)).
  rewrite sapp_cons. cbn [strip_prefix String.eqb].
  destruct (Ascii.eqb_spec "0" c) as [<-|Hc].
  - rewrite Ascii.eqb_refl. destruct count as [|d count].
    + rewrite sapp_nil_l. unfold tab. rewrite sapp_cons.
      cbn [strip_prefix String.eqb]. by rewrite Ascii.eqb_refl.
    + rewrite sapp_cons. cbn [strip_prefix String.eqb].
      cbn [all] in Hall. apply andb_true_iff in Hall as [_ Hall].
      apply andb_true_iff in Hall as [Hd _].
      by rewrite (is_digit_not_tab _ Hd).
  - destruct (Ascii.eqb_spec c "0") as [->|]; done.
Qed.

Lemma insert_desc_perm x l : insert_desc x l ≡ₚ x :: l.
Proof.
  induction l as [|y l IH]; simpl; [done|].
  destruct (y.1 <=? x.1)%N; [done|].
  rewrite IH. apply Permutation_swap.
Qed.

Lemma insert_desc_HdRel a x l :
  desc a x -> HdRel desc a l -> HdRel desc a (insert_desc x l).
Proof.
  intros Hax Hl. destruct l as [|y l]; simpl; [by constructor|].
  destruct (y.1 <=? x.1)%N; constructor; [done|].
  by inversion Hl.
Qed.

Lemma insert_desc_sorted x l : Sorted desc l -> Sorted desc (insert_desc x l).
Proof.
  induction 1 as [|y l Hl IH Hhd]; simpl.
  - by repeat constructor.
  - destruct (N.leb_spec y.1 x.1) as [Hle|Hlt].
    + constructor; [by constructor|]. by constructor.
    + constructor; [done|]. apply insert_desc_HdRel; [|done].
      unfold desc. lia.
Qed.

Lemma sort_desc_sorted l : Sorted desc (sort_desc l).
Proof.
  induction l as [|x l IH]; simpl; [constructor|]. by apply insert_desc_sorted.
Qed.

Lemma sort_desc_perm l : sort_desc l ≡ₚ l.
Proof.
  induction l as [|x l IH]; simpl; [done|]. by rewrite insert_desc_perm, IH.
Qed.

(** C8, as the code has it.  A line that carries a marker becomes the digits
    of the marker, a tab and the line without the marker, and counts for
    the number the digits denote; a line without a marker becomes "0", a tab
    and the line, and counts for 0; the rows are in descending order of
    count; the table is the header followed by the rows that do not start
    with "0" and a tab: the rows of the lines without a marker go, and the
    row of a line with a marker goes exactly when the digits are "0". *)
Theorem counts_table_rows (bibliography line pre count post : string) :
  find_first match_count_marker line = Some (pre, count, post) ->
  line = pre +:+ marker count +:+ post
  /\ formatLine line = Some (parseInt count, count +:+ tab +:+ pre +:+ post)
  /\ zeroRow (count +:+ tab +:+ pre +:+ post) = String.eqb count "0"
  /\ (forall other,
        is_empty (trim other) = false ->
        find_first match_count_marker other = None ->
        formatLine other = Some (0%N, "0" +:+ tab +:+ other)
        /\ zeroRow ("0" +:+ tab +:+ other) = true)
  /\ Sorted desc (formattedLines bibliography)
  /\ formattedLines bibliography ≡ₚ omap formatLine (split_lines bibliography)
  /\ countsTable bibliography
     = "cite_count" +:+ tab +:+ "reference" +:+ nl
       +:+ join nl (List.filter (fun row => negb (zeroRow row))
                                (map snd (formattedLines bibliography))).
Proof.
  intros Hfind.
  destruct (remove_marker _ _ _ _ Hfind) as (Hline & Hd & Hrm).
  split; [done|]. split; [|split; [|split; [|split; [|split]]]].
  - unfold formatLine. rewrite Hfind, Hrm.
    by rewrite Hline at 1; rewrite marked_line_not_blank.
  - by apply zeroRow_digits.
  - intros other Hb Hnone. unfold formatLine. by rewrite Hb, Hnone.
  - apply sort_desc_sorted.
  - apply sort_desc_perm.
  - unfold countsTable, header. by rewrite !sapp_assoc.
Qed.

Lemma counts_table_rows_witness :
  formatLine "[3 citations] A, A. (2020)."
  = Some (3%N, "3" +:+ tab +:+ EmptyString +:+ "A, A. (2020).").
Proof.
  apply (counts_table_rows EmptyString "[3 citations] A, A. (2020)." EmptyString "3" "A, A. (2020).").
  reflexivity.
Defined.

(** The claim that every line of count 0 leaves the table fails on a
    marker whose digits are "00": the line counts for 0 and its row
    stays. *)
Lemma counts_table_keeps_zero_count_row :
  formatLine "[00 citations] B, B. (2021)."
  = Some (0%N, "00" +:+ tab +:+ "B, B. (2021).")
  /\ countsTable "[00 citations] B, B. (2021)."
     = header +:+ "00" +:+ tab +:+ "B, B. (2021).".
Proof. split; reflexivity. Qed.

(** Scenario E of the specification. *)
Example counts_table_scenario :
  countsTable ("[3 citations] A, A. (2020)." +:+ nl +:+ "[0 citations] B, B. (2021).")
  = header +:+ "3" +:+ tab +:+ "A, A. (2020).".
Proof. reflexivity. Qed.

(** *** formatFallback and format *)

(** A value that converts to a string; [None] is [undefined]. *)
Definition converts (v : option json) : bool :=
  match v with
  | Some x => printable x
  | None => true
  end.

(** An author of whom a name can be written: not null, with a family name
    and a given name that convert to strings. *)
Definition namedAuthor (a : json) : Prop :=
  a <> JNull /\ converts (prop "family" a) = true /\ converts (prop "given" a) = true.

(** A record on which the listing can be built: it is not null, its title
    converts to a string, and its author, when there is one, is an array
    of authors that can be named. *)
Definition wellFormed (citation : json) : Prop :=
  citation <> JNull
  /\ converts (prop "title" citation) = true
  /\ (truthy (prop "author" citation) = true ->
      exists l, prop "author" citation = Some (JArr l) /\ Forall namedAuthor l).

Definition titleText (citation : json) : string :=
  if truthy (prop "title" citation) then interpolate (prop "title" citation)
  else "Unknown Title".

Definition authorText (citation : json) : string :=
  match prop "author" citation with
  | Some (JArr l) =>
      join ", " (map (fun a => interpolate (prop "family" a) +:+ ", "
                               +:+ interpolate (prop "given" a)) l)
  | _ => "Unknown Author"
  end.

(** The numbered listing: line [i] is "{i}. {Author}. {Title}.". *)
Definition numbered (i : nat) (citation : json) : string :=
  dec (i + 1) +:+ ". " +:+ authorText citation +:+ ". " +:+ titleText citation +:+ ".".

Definition listing (citations : list json) : string :=
  join nl (imap numbered citations).

(** The renderer is absent, or the attempt to use it throws. *)
Definition rendererFails (Cite : option renderer) (citations : list json)
  (fmt : string) (options : json) : Prop :=
  Cite = None \/ exists e, formatWithCitationJs Cite citations fmt options = Throw e.

Lemma formatWithCitationJs_fails Cite citations fmt options :
  rendererFails Cite citations fmt options ->
  exists e, formatWithCitationJs Cite citations fmt options = Throw e.
Proof. intros [->|H]; [|done]. by eexists. Qed.

Lemma null_dec (v : json) : v = JNull \/ v <> JNull.
Proof. destruct v; (by left) || by right. Qed.

Lemma substitute_converts v :
  converts v = true -> substitute v = Ok (interpolate v).
Proof. destruct v as [x|]; [|done]. simpl. by intros ->. Qed.

Lemma substitute_throws v : converts v = false -> substitute v = Throw TypeError.
Proof. destruct v as [x|]; [|done]. simpl. by intros ->. Qed.

Lemma authorName_ok a :
  namedAuthor a ->
  authorName a = Ok (interpolate (prop "family" a) +:+ ", " +:+ interpolate (prop "given" a)).
Proof.
  intros (Hnull & Hf & Hg). unfold authorName.
  rewrite (substitute_converts _ Hf), (substitute_converts _ Hg). by destruct a.
Qed.

Lemma authorName_throws a : ~ namedAuthor a -> authorName a = Throw TypeError.
Proof.
  intros Hbad. unfold authorName. destruct (null_dec a) as [->|Hnull]; [done|].
  destruct (converts (prop "family" a)) eqn:Hf.
  - destruct (converts (prop "given" a)) eqn:Hg; [by destruct Hbad|].
    rewrite (substitute_converts _ Hf), (substitute_throws _ Hg). by destruct a.
  - rewrite (substitute_throws _ Hf). by destruct a.
Qed.

Lemma namedAuthor_dec a : namedAuthor a \/ ~ namedAuthor a.
Proof.
  unfold namedAuthor. destruct (null_dec a) as [->|Hnull]; [right; by intros [? _]|].
  destruct (converts (prop "family" a)); [|right; by intros (_ & ? & _)].
  destruct (converts (prop "given" a)); [by left|right; by intros (_ & _ & ?)].
Qed.

Lemma authorNames_ok l :
  Forall namedAuthor l ->
  rmapM authorName l
  = Ok (map (fun a => interpolate (prop "family" a) +:+ ", "
                      +:+ interpolate (prop "given" a)) l).
Proof.
  induction 1 as [|a l Ha _ IH]; [done|].
  cbn [rmapM map]. by rewrite IH, (authorName_ok _ Ha).
Qed.

Lemma authorNames_throw l : ~ Forall namedAuthor l -> rmapM authorName l = Throw TypeError.
Proof.
  induction l as [|a l IH]; intros Hbad; [by destruct Hbad|].
  cbn [rmapM]. destruct (namedAuthor_dec a) as [Ha|Ha].
  - rewrite (authorName_ok _ Ha). cbn [mbind result_bind].
    rewrite IH; [done|]. intros Hl. apply Hbad. by constructor.
  - by rewrite (authorName_throws _ Ha).
Qed.

Lemma Forall_namedAuthor_dec l : Forall namedAuthor l \/ ~ Forall namedAuthor l.
Proof.
  induction l as [|a l [IH|IH]].
  - by left.
  - destruct (namedAuthor_dec a) as [Ha|Ha]; [left; by constructor|].
    right. intros H. by inversion H.
  - right. intros H. by inversion H.
Qed.

Lemma wellFormed_dec citation : wellFormed citation \/ ~ wellFormed citation.
Proof.
  unfold wellFormed. destruct (null_dec citation) as [->|Hnull];
    [right; by intros [? _]|].
  destruct (converts (prop "title" citation)); [|right; by intros (_ & ? & _)].
  destruct (truthy (prop "author" citation)) eqn:Ht; [|by left].
  destruct (prop "author" citation) as [[| | | |l|]|] eqn:Ha;
    try (right; intros (_ & _ & H); by destruct (H eq_refl) as (l' & ? & _)).
  destruct (Forall_namedAuthor_dec l) as [Hl|Hl].
  - left. split; [done|]. split; [done|]. intros _. by exists l.
  - right. intros (_ & _ & H). destruct (H eq_refl) as (l' & [= <-] & Hl'). done.
Qed.

Lemma fallbackLine_ok i citation :
  wellFormed citation -> fallbackLine i citation = Ok (numbered i citation).
Proof.
  intros (Hnull & Htitle & Hauthor). unfold fallbackLine, numbered, authorText, titleText.
  assert (substitute (if truthy (prop "title" citation) then prop "title" citation
                      else Some (JStr "Unknown Title"))
          = Ok (if truthy (prop "title" citation) then interpolate (prop "title" citation)
                else "Unknown Title")) as Ht.
  { destruct (truthy (prop "title" citation)); [|done]. by apply substitute_converts. }
  rewrite Ht. destruct (truthy (prop "author" citation)) eqn:Ha.
  - destruct (Hauthor eq_refl) as (l & -> & Hl). rewrite (authorNames_ok _ Hl).
    by destruct citation.
  - destruct (prop "author" citation) as [[| | | | |]|]; by destruct citation.
Qed.

Lemma fallbackLine_throws i citation :
  ~ wellFormed citation -> fallbackLine i citation = Throw TypeError.
Proof.
  intros Hbad. unfold fallbackLine.
  destruct (null_dec citation) as [->|Hnull]; [done|].
  assert (forall r : result string,
            match citation with JNull => Throw TypeError | _ => r end = r) as Hmatch
    by (intros r; by destruct citation).
  rewrite Hmatch. destruct (truthy (prop "author" citation)) eqn:Ha.
  - destruct (prop "author" citation) as [[| | | |l|]|] eqn:Hauthor; try done.
    destruct (Forall_namedAuthor_dec l) as [Hl|Hl].
    + rewrite (authorNames_ok _ Hl). cbn [mbind result_bind].
      destruct (converts (prop "title" citation)) eqn:Htitle.
      * destruct Hbad. split; [done|]. split; [done|]. intros _. by exists l.
      * destruct (truthy (prop "title" citation)) eqn:Htruthy.
        -- by rewrite (substitute_throws _ Htitle).
        -- by destruct (prop "title" citation) as [[| | | | |]|].
    + by rewrite (authorNames_throw _ Hl).
  - cbn [mbind result_bind].
    destruct (converts (prop "title" citation)) eqn:Htitle.
    + destruct Hbad. split; [done|]. split; [done|]. by rewrite Ha.
    + destruct (truthy (prop "title" citation)) eqn:Htruthy.
      * by rewrite (substitute_throws _ Htitle).
      * by destruct (prop "title" citation) as [[| | | | |]|].
Qed.

Lemma fallbackLines_ok citations : forall i,
  Forall wellFormed citations ->
  fallbackLines i citations = Ok (imap (fun k => numbered (i + k)) citations).
Proof.
  induction citations as [|c cs IH]; intros i Hwf; [done|].
  inversion Hwf as [|? ? Hc Hcs]; subst.
  cbn [fallbackLines]. rewrite (fallbackLine_ok _ _ Hc), (IH _ Hcs).
  cbn [mbind result_bind]. rewrite imap_cons, Nat.add_0_r. do 2 f_equal.
  apply imap_ext. intros k x _. simpl. f_equal. lia.
Qed.

Lemma fallbackLines_throw citations : forall i,
  ~ Forall wellFormed citations -> fallbackLines i citations = Throw TypeError.
Proof.
  induction citations as [|c cs IH]; intros i Hbad; [by destruct Hbad|].
  cbn [fallbackLines]. destruct (wellFormed_dec c) as [Hc|Hc].
  - rewrite (fallbackLine_ok _ _ Hc). cbn [mbind result_bind].
    rewrite IH; [done|]. intros Hcs. apply Hbad. by constructor.
  - by rewrite (fallbackLine_throws _ _ Hc).
Qed.

(** C9, as the code has it.  When the renderer is absent or throws, a call
    of [format] that names a format, has citations and misses the cache
    returns what [formatFallback] returns.  For the format [bibliography]
    that is the numbered listing when every record is well formed, and a
    TypeError when one is not: a null record, a title or an author name
    that does not convert to a string, an author that is not an array or
    holds a null.  For every other format, [bibtex], [ris] and
    [bibliography-with-counts] included, it is the indented JSON text of
    the records (cleaned for [data]), which never throws. *)
Theorem fallback_when_renderer_fails (Cite : option renderer) (fmt : string)
  (citations : list json) (options : json) (st : formatterState) :
  fmt <> EmptyString ->
  citations <> [] ->
  cache_get (generateCacheKey citations fmt options) (formattingCache st) = None ->
  rendererFails Cite citations fmt options ->
  (format Cite fmt (Some citations) options st).1 = formatFallback citations fmt
  /\ (fmt = BIBLIOGRAPHY ->
      (Forall wellFormed citations -> formatFallback citations fmt = Ok (listing citations))
      /\ (~ Forall wellFormed citations -> formatFallback citations fmt = Throw TypeError))
  /\ (fmt <> BIBLIOGRAPHY ->
      formatFallback citations fmt
      = Ok (stringify "  " (JArr (if String.eqb fmt CSL_JSON
                                  then cleanCitations citations else citations)))).
Proof.
  intros Hfmt Hcs Hmiss Hfail. split; [|split].
  - unfold format. rewrite Hmiss.
    destruct fmt; [done|]. cbn [is_empty].
    destruct citations as [|c cs]; [done|].
    destruct (formatWithCitationJs_fails _ _ _ _ Hfail) as [e ->].
    cbn [try_catch]. by destruct (formatFallback _ _).
  - intros ->. unfold formatFallback.
    destruct citations as [|c cs] eqn:Hlist; [done|]. rewrite <- Hlist.
    cbn [String.eqb orb]. change (String.eqb BIBLIOGRAPHY CSL_JSON) with false.
    change (String.eqb BIBLIOGRAPHY CSL_JSON_WITH_COUNTS) with false.
    change (String.eqb BIBLIOGRAPHY BIBLIOGRAPHY) with true. cbn [orb].
    split; intros Hwf.
    + by rewrite (fallbackLines_ok _ 0 Hwf).
    + by rewrite (fallbackLines_throw _ 0 Hwf).
  - intros Hb. unfold formatFallback.
    destruct citations as [|c cs]; [done|].
    destruct (String.eqb_spec fmt CSL_JSON) as [->|Hd]; [done|].
    cbn [orb]. destruct (String.eqb fmt CSL_JSON_WITH_COUNTS); [done|].
    destruct (String.eqb_spec fmt BIBLIOGRAPHY); done.
Qed.

Definition emptyState : formatterState := mkFormatterState [] [].

Lemma fallback_when_renderer_fails_witness :
  (format None "bibliography"
     (Some [JObj [("title", JStr "T");
                  ("author", JArr [JObj [("family", JStr "Doe"); ("given", JStr "J.")]])]])
     (JObj []) emptyState).1
  = Ok "1. Doe, J.. T.".
Proof.
  refine (eq_trans
    (proj1 (fallback_when_renderer_fails None "bibliography" _ (JObj []) emptyState
              _ _ _ _)) _).
  - done.
  - done.
  - reflexivity.
  - by left.
  - reflexivity.
Defined.

(** The claim that every bibliography-style format falls back to the
    numbered listing, and that the fallback never throws, fails: [bibtex]
    falls back to the JSON text of the records, and a record whose author
    is a string, or whose title is an object with a [toString] of its own,
    makes the listing throw. *)
Lemma fallback_is_not_always_a_listing :
  (format None "bibtex" (Some [JObj [("title", JStr "T")]]) (JObj []) emptyState).1
  = Ok (stringify "  " (JArr [JObj [("title", JStr "T")]]))
  /\ stringify "  " (JArr [JObj [("title", JStr "T")]]) <> listing [JObj [("title", JStr "T")]]
  /\ listing [JObj [("title", JStr "T")]] = "1. Unknown Author. T."
  /\ (format None "bibliography" (Some [JObj [("author", JStr "Doe")]]) (JObj []) emptyState).1
     = Throw TypeError
  /\ (format None "bibliography" (Some [JObj [("title", JObj [("toString", JNum 1)])]])
             (JObj []) emptyState).1
     = Throw TypeError.
Proof.
  split; [reflexivity|]. split; [|split; [|split]; reflexivity].
  intros H. vm_compute in H. discriminate H.
Qed.

End FormatterSpec.
(** ** DeduplicationEngine *)

Module DedupSpec.
Import JsString Json Dedup.

(** *** Arrays and positions *)

Lemma positions_from_spec {A : Type} (f : A -> bool) (l : list A) : forall k p,
  p ∈ positions_from f k l <-> exists i x, p = k + i /\ l !! i = Some x /\ f x = true.
Proof.
  induction l as [|y l IH]; intros k p; simpl.
  - split; [by intros ?%elem_of_nil|]. by intros (i & x & _ & ? & _).
  - assert (p ∈ positions_from f (S k) l
            <-> exists i x, p = k + S i /\ l !! i = Some x /\ f x = true) as IH'.
    { rewrite IH. split; intros (i & x & -> & ? & ?); exists i, x; split; (lia || done). }
    destruct (f y) eqn:Hy.
    + rewrite elem_of_cons, IH'. split.
      * intros [->|(i & x & -> & ? & ?)].
        -- exists 0, y. split; [lia|done].
        -- by exists (S i), x.
      * intros ([|i] & x & -> & Hl & Hx); [left; lia|]. right. by exists i, x.
    + rewrite IH'. split.
      * intros (i & x & -> & ? & ?). by exists (S i), x.
      * intros ([|i] & x & -> & Hl & Hx).
        -- simpl in Hl. injection Hl as ->. congruence.
        -- by exists i, x.
Qed.

Lemma positions_spec {A : Type} (f : A -> bool) (l : list A) (p : nat) :
  p ∈ positions f l <-> exists x, l !! p = Some x /\ f x = true.
Proof.
  unfold positions. rewrite positions_from_spec. split.
  - intros (i & x & -> & ? & ?). by exists x.
  - intros (x & ? & ?). by exists p, x.
Qed.

Lemma includes_true u l : includes u l = true <-> u ∈ l.
Proof. unfold includes. apply bool_decide_eq_true. Qed.

Lemma includes_false u l : includes u l = false <-> u ∉ l.
Proof. unfold includes. apply bool_decide_eq_false. Qed.

Lemma set_uris_id e : set_uris e (uris e) = e.
Proof. by destruct e. Qed.

(** *** pushNewUris *)

Definition newUris (cur other : list string) : list string :=
  List.filter (fun matchUri => negb (includes matchUri cur)) other.

Lemma elem_of_newUris u cur other :
  u ∈ newUris cur other <-> u ∈ other /\ u ∉ cur.
Proof.
  unfold newUris. rewrite list_elem_of_In, filter_In, <- list_elem_of_In.
  by rewrite negb_true_iff, includes_false.
Qed.

Lemma newUris_self cur : newUris cur cur = [].
Proof.
  apply elem_of_nil_inv. intros u Hu. apply elem_of_newUris in Hu. tauto.
Qed.

Lemma pushNewUris_length i k arr : length (pushNewUris i k arr) = length arr.
Proof.
  unfold pushNewUris. destruct (arr !! i), (arr !! k); try done.
  by rewrite length_insert.
Qed.

Lemma pushNewUris_ne i k arr p : p <> i -> pushNewUris i k arr !! p = arr !! p.
Proof.
  intros Hp. unfold pushNewUris. destruct (arr !! i), (arr !! k); try done.
  by rewrite list_lookup_insert_ne.
Qed.

Lemma pushNewUris_eq i k arr e m :
  arr !! i = Some e -> arr !! k = Some m ->
  pushNewUris i k arr !! i = Some (set_uris e (uris e ++ newUris (uris e) (uris m))).
Proof.
  intros Hi Hk. unfold pushNewUris. rewrite Hi, Hk.
  apply list_lookup_insert_eq. by eapply lookup_lt_Some.
Qed.

Lemma pushNewUris_self i arr : pushNewUris i i arr = arr.
Proof.
  unfold pushNewUris. destruct (arr !! i) as [e|] eqn:Hi; [|done].
  fold (newUris (uris e) (uris e)). rewrite newUris_self, app_nil_r, set_uris_id.
  by apply list_insert_id.
Qed.

(** *** The loop on [j] ends within the fuel *)

(** The occurrences of uris in the array that the current item lacks. *)
Definition lacking (cur : list string) (arr : list dedupEntry) : nat :=
  sum_list (map (fun m => length (newUris cur (uris m))) arr).

Definition potential (i : nat) (arr : list dedupEntry) : nat :=
  match arr !! i with
  | Some e => length (uris e) + lacking (uris e) arr
  | None => 0
  end.

Lemma sum_list_pointwise {A : Type} (f g : A -> nat) (l : list A) :
  (forall x, x ∈ l -> g x <= f x) ->
  sum_list (map g l) <= sum_list (map f l).
Proof.
  induction l as [|x l IH]; intros H; simpl; [done|].
  pose proof (H x (list_elem_of_here _ _)).
  assert (sum_list (map g l) <= sum_list (map f l)).
  { apply IH. intros y Hy. apply H. by apply list_elem_of_further. }
  lia.
Qed.

Lemma sum_list_pointwise_at {A : Type} (f g : A -> nat) (l : list A) k x d :
  l !! k = Some x ->
  (forall y, y ∈ l -> g y <= f y) ->
  g x + d <= f x ->
  sum_list (map g l) + d <= sum_list (map f l).
Proof.
  revert k. induction l as [|y l IH]; intros k Hk H Hx; [done|].
  simpl. destruct k as [|k]; simpl in Hk.
  - injection Hk as ->.
    assert (sum_list (map g l) <= sum_list (map f l)).
    { apply sum_list_pointwise. intros z Hz. apply H. by apply list_elem_of_further. }
    lia.
  - pose proof (H y (list_elem_of_here _ _)).
    assert (sum_list (map g l) + d <= sum_list (map f l)).
    { apply (IH k); [done| |done]. intros z Hz. apply H. by apply list_elem_of_further. }
    lia.
Qed.

Lemma sum_list_insert {A : Type} (f : A -> nat) (l : list A) i x y :
  l !! i = Some x -> f x = f y ->
  sum_list (map f (<[i := y]> l)) = sum_list (map f l).
Proof.
  revert i. induction l as [|z l IH]; intros i Hi Hf; [done|].
  destruct i as [|i]; simpl in *.
  - injection Hi as ->. by rewrite Hf.
  - by rewrite (IH i).
Qed.

Lemma newUris_length cur other : length (newUris cur other) <= length other.
Proof. unfold newUris. apply filter_length_le. Qed.

Lemma newUris_mono cur extra other :
  length (newUris (cur ++ extra) other) <= length (newUris cur other).
Proof.
  unfold newUris. induction other as [|u other IH]; simpl; [done|].
  destruct (includes u cur) eqn:Hu; simpl.
  - apply includes_true in Hu.
    assert (includes u (cur ++ extra) = true) as ->; [|done].
    apply includes_true, elem_of_app. by left.
  - destruct (includes u (cur ++ extra)); simpl; lia.
Qed.

Lemma newUris_absorbed cur other : newUris (cur ++ newUris cur other) other = [].
Proof.
  apply elem_of_nil_inv. intros u Hu. apply elem_of_newUris in Hu as [Hin Hout].
  apply Hout, elem_of_app. destruct (decide (u ∈ cur)); [by left|right].
  by apply elem_of_newUris.
Qed.

Lemma newUris_subset cur other : other ⊆ cur -> newUris cur other = [].
Proof.
  intros Hsub. apply elem_of_nil_inv. intros u Hu.
  apply elem_of_newUris in Hu as [Hin Hout]. by apply Hout, Hsub.
Qed.

Lemma potential_pushNewUris i k arr :
  potential i (pushNewUris i k arr) <= potential i arr.
Proof.
  destruct (decide (k = i)) as [->|Hki]; [by rewrite pushNewUris_self|].
  destruct (arr !! i) as [e|] eqn:Hi;
    [|by unfold pushNewUris; rewrite Hi].
  unfold potential. rewrite Hi.
  destruct (arr !! k) as [m|] eqn:Hk.
  - rewrite (pushNewUris_eq _ _ _ _ _ Hi Hk).
    unfold pushNewUris. rewrite Hi, Hk. fold (newUris (uris e) (uris m)).
    set (new := newUris (uris e) (uris m)).
    cbn [uris set_uris]. unfold lacking.
    rewrite (sum_list_insert _ _ _ e); [|done|].
    + rewrite length_app.
      pose proof (sum_list_pointwise_at
        (fun x => length (newUris (uris e) (uris x)))
        (fun x => length (newUris (uris e ++ new) (uris x)))
        arr k m (length new) Hk) as Hsum.
      cut (sum_list (map (fun x => length (newUris (uris e ++ new) (uris x))) arr)
           + length new
           <= sum_list (map (fun x => length (newUris (uris e) (uris x))) arr)); [lia|].
      apply Hsum.
      * intros y _. apply newUris_mono.
      * unfold new. by rewrite newUris_absorbed.
    + cbn [uris set_uris]. rewrite newUris_self.
      rewrite newUris_subset; [done|]. intros u Hu. apply elem_of_app. by left.
  - unfold pushNewUris. rewrite Hi, Hk. rewrite Hi. lia.
Qed.

Lemma potential_foldl i ks : forall arr,
  potential i (foldl (fun a k => pushNewUris i k a) arr ks) <= potential i arr.
Proof.
  induction ks as [|k ks IH]; intros arr; simpl; [done|].
  etrans; [apply IH|]. apply potential_pushNewUris.
Qed.

Lemma potential_normalizeStep i uri arr :
  potential i (normalizeStep i uri arr) <= potential i arr.
Proof. apply potential_foldl. Qed.

Lemma potential_bounds_length i arr e :
  arr !! i = Some e -> length (uris e) <= potential i arr.
Proof. intros Hi. unfold potential. rewrite Hi. lia. Qed.

Lemma potential_le_totalUris i arr : potential i arr <= totalUris arr.
Proof.
  unfold potential, totalUris, lacking.
  destruct (arr !! i) as [e|] eqn:Hi; [|lia].
  rewrite Nat.add_comm.
  apply (sum_list_pointwise_at _ _ arr i e); [done| |].
  - intros y _. apply newUris_length.
  - by rewrite newUris_self.
Qed.

(** The fuel suffices: the loop on [j] returns. *)
Lemma normalizeItem_returns fuel : forall i j arr,
  potential i arr <= j + fuel ->
  exists arr', normalizeItem fuel i j arr = Some arr'.
Proof.
  induction fuel as [|fuel IH]; intros i j arr Hpot.
  - cbn [normalizeItem].
    destruct (arr !! i) as [e|] eqn:Hi; cbn [mbind option_bind]; [|by eexists].
    pose proof (potential_bounds_length _ _ _ Hi).
    rewrite lookup_ge_None_2; [by eexists|lia].
  - cbn [normalizeItem].
    destruct (arr !! i ≫= _) as [uri|]; [|by eexists].
    apply IH. pose proof (potential_normalizeStep i uri arr). lia.
Qed.

Lemma normalizeLoop_returns todo : forall arr,
  exists arr', normalizeLoop todo arr = Some arr'.
Proof.
  induction todo as [|i todo IH]; intros arr; cbn [normalizeLoop]; [by eexists|].
  destruct (normalizeItem_returns (totalUris arr) i 0 arr) as [arr1 ->].
  { pose proof (potential_le_totalUris i arr). lia. }
  cbn [mbind option_bind]. apply IH.
Qed.

(** *** What the normalization computes *)

(** The current item grows, the rest of the array stays. *)
Definition grows (i : nat) (arr arr' : list dedupEntry) : Prop :=
  length arr' = length arr
  /\ (forall p, p <> i -> arr' !! p = arr !! p)
  /\ (forall e, arr !! i = Some e ->
      exists extra, arr' !! i = Some (set_uris e (uris e ++ extra))).

Lemma grows_refl i arr : grows i arr arr.
Proof.
  split; [done|]. split; [done|]. intros e He. exists [].
  by rewrite app_nil_r, set_uris_id.
Qed.

Lemma grows_trans i a b c : grows i a b -> grows i b c -> grows i a c.
Proof.
  intros (Hl1 & Hne1 & Hi1) (Hl2 & Hne2 & Hi2). split; [congruence|]. split.
  - intros p Hp. by rewrite Hne2, Hne1.
  - intros e He. destruct (Hi1 e He) as [x1 Hb]. destruct (Hi2 _ Hb) as [x2 Hc].
    exists (x1 ++ x2). rewrite Hc. cbn [uris set_uris]. by rewrite app_assoc.
Qed.

Lemma grows_pushNewUris i k arr : grows i arr (pushNewUris i k arr).
Proof.
  split; [apply pushNewUris_length|]. split; [intros p Hp; by apply pushNewUris_ne|].
  intros e He. destruct (arr !! k) as [m|] eqn:Hk.
  - eexists. by apply pushNewUris_eq.
  - exists []. unfold pushNewUris. rewrite He, Hk.
    by rewrite app_nil_r, set_uris_id.
Qed.

Lemma grows_foldl i ks : forall arr,
  grows i arr (foldl (fun a k => pushNewUris i k a) arr ks).
Proof.
  induction ks as [|k ks IH]; intros arr; simpl; [apply grows_refl|].
  eapply grows_trans; [apply grows_pushNewUris|apply IH].
Qed.

Lemma grows_uris i arr arr' e e' :
  grows i arr arr' -> arr !! i = Some e -> arr' !! i = Some e' -> uris e ⊆ uris e'.
Proof.
  intros (_ & _ & Hi) He He'. destruct (Hi e He) as [extra Hx].
  rewrite Hx in He'. injection He' as <-. cbn [uris set_uris].
  intros u Hu. apply elem_of_app. by left.
Qed.

Lemma grows_lookup i arr arr' p m :
  grows i arr arr' -> arr !! p = Some m ->
  exists m', arr' !! p = Some m' /\ uris m ⊆ uris m'.
Proof.
  intros Hg Hm. destruct (decide (p = i)) as [->|Hp].
  - destruct Hg as (Hl & Hne & Hi). destruct (Hi m Hm) as [extra Hx].
    eexists. split; [done|]. cbn [uris set_uris]. intros u Hu. apply elem_of_app. by left.
  - destruct Hg as (_ & Hne & _). exists m. by rewrite Hne.
Qed.

(** After the push, the current item holds the uris of the matching item. *)
Lemma pushNewUris_absorbs i k arr m e' :
  arr !! k = Some m -> pushNewUris i k arr !! i = Some e' -> uris m ⊆ uris e'.
Proof.
  intros Hk He'. destruct (arr !! i) as [e|] eqn:Hi.
  - rewrite (pushNewUris_eq _ _ _ _ _ Hi Hk) in He'. injection He' as <-.
    cbn [uris set_uris]. intros u Hu. apply elem_of_app.
    destruct (decide (u ∈ uris e)); [by left|right]. by apply elem_of_newUris.
  - unfold pushNewUris in He'. rewrite Hi in He'. congruence.
Qed.

Lemma foldl_absorbs i ks : forall arr k m e',
  k ∈ ks -> arr !! k = Some m ->
  foldl (fun a k => pushNewUris i k a) arr ks !! i = Some e' ->
  uris m ⊆ uris e'.
Proof.
  induction ks as [|k0 ks IH]; intros arr k m e' Hk Hm He'; [by apply elem_of_nil in Hk|].
  simpl in He'. apply elem_of_cons in Hk as [->|Hk].
  - pose proof (grows_foldl i ks (pushNewUris i k0 arr)) as Hg.
    destruct (lookup_lt_is_Some_2 (pushNewUris i k0 arr) i) as [e1 He1].
    { destruct Hg as (Hl & _). rewrite <- Hl. by eapply lookup_lt_Some. }
    etrans; [by eapply pushNewUris_absorbs|]. by eapply grows_uris.
  - destruct (grows_lookup _ _ _ _ _ (grows_pushNewUris i k0 arr) Hm) as (m' & Hm' & Hsub).
    etrans; [exact Hsub|]. by eapply IH.
Qed.

Section Normalization.
Variable cs : list citation.

(** Two entries share an identifier; entries are connected when a chain of
    such entries links them. *)
Definition shares (a b : nat) : Prop :=
  exists ca cb u, cs !! a = Some ca /\ cs !! b = Some cb
                  /\ u ∈ c_uris ca /\ u ∈ c_uris cb.

Definition connected : relation nat := rtc shares.

#[local] Instance shares_sym : Symmetric shares.
Proof. intros a b (ca & cb & u & ? & ? & ? & ?). by exists cb, ca, u. Qed.

Lemma connected_sym a b : connected a b -> connected b a.
Proof. intros H. by symmetry. Qed.

(** An identifier of an entry connected to [k]. *)
Definition reachable (k : nat) (u : string) : Prop :=
  exists b cb, connected k b /\ cs !! b = Some cb /\ u ∈ c_uris cb.

Lemma reachable_connected a b u : connected a b -> reachable b u -> reachable a u.
Proof.
  intros Hab (c & cc & Hbc & Hc & Hu). exists c, cc. split; [|done].
  by etrans.
Qed.

Lemma reachable_meet a b u : reachable a u -> reachable b u -> connected a b.
Proof.
  intros (a' & ca & Ha & Hca & Hua) (b' & cb & Hb & Hcb & Hub).
  etrans; [exact Ha|]. etrans; [|by apply connected_sym].
  apply rtc_once. by exists ca, cb, u.
Qed.

(** An element of the array in the course of the normalization: the entry
    it was made from, with more uris, each one new to the entry and taken
    from a connected entry. *)
Definition entryInv (k : nat) (e : dedupEntry) : Prop :=
  exists c extra,
    cs !! k = Some c
    /\ e = mkDedupEntry (c_itemData c) (c_uris c ++ extra) 1 k None c
    /\ forall u, u ∈ extra -> (u ∉ c_uris c) /\ reachable k u.

Definition arrayInv (arr : list dedupEntry) : Prop :=
  length arr = length cs /\ forall k e, arr !! k = Some e -> entryInv k e.

Lemma entryInv_reachable k e u : entryInv k e -> u ∈ uris e -> reachable k u.
Proof.
  intros (c & extra & Hc & -> & Hextra). cbn [uris]. intros [Hu|Hu]%elem_of_app.
  - by exists k, c.
  - by apply Hextra.
Qed.

Lemma arrayInv_init : arrayInv (deduplicationArray_of cs).
Proof.
  unfold deduplicationArray_of. split; [apply length_imap|].
  intros k e. rewrite list_lookup_imap. destruct (cs !! k) as [c|] eqn:Hc; [|done].
  intros [= <-]. exists c, []. rewrite app_nil_r. split; [done|]. split; [done|].
  by intros u ?%elem_of_nil.
Qed.

Lemma arrayInv_pushNewUris i k arr :
  arrayInv arr ->
  (forall e m, arr !! i = Some e -> arr !! k = Some m ->
               exists u, u ∈ uris e /\ u ∈ uris m) ->
  arrayInv (pushNewUris i k arr).
Proof.
  intros [Hlen Hinv] Hshared. split; [by rewrite pushNewUris_length|].
  intros p e' He'. destruct (decide (p = i)) as [->|Hp];
    [|rewrite pushNewUris_ne in He' by done; by apply Hinv].
  destruct (arr !! i) as [e|] eqn:Hi;
    [|unfold pushNewUris in He'; rewrite Hi in He'; congruence].
  destruct (arr !! k) as [m|] eqn:Hk;
    [|unfold pushNewUris in He'; rewrite Hi, Hk in He'; apply Hinv; congruence].
  rewrite (pushNewUris_eq _ _ _ _ _ Hi Hk) in He'. injection He' as <-.
  destruct (Hshared e m eq_refl eq_refl) as (v & Hve & Hvm).
  pose proof (Hinv _ _ Hi) as Hei. pose proof (Hinv _ _ Hk) as Hek.
  assert (connected i k) as Hik.
  { eapply reachable_meet; by eapply entryInv_reachable. }
  destruct Hei as (c & extra & Hc & -> & Hextra). cbn [uris set_uris item count index indices originalCite].
  exists c, (extra ++ newUris (c_uris c ++ extra) (uris m)).
  split; [done|]. split; [by rewrite app_assoc|].
  intros u [Hu|Hu]%elem_of_app; [by apply Hextra|].
  apply elem_of_newUris in Hu as [Hum Hue]. split.
  - intros Hc'. apply Hue, elem_of_app. by left.
  - eapply reachable_connected; [exact Hik|]. by eapply entryInv_reachable.
Qed.

Lemma arrayInv_foldl i uri ks : forall arr,
  arrayInv arr ->
  (forall e, arr !! i = Some e -> uri ∈ uris e) ->
  (forall k m, k ∈ ks -> arr !! k = Some m -> uri ∈ uris m) ->
  arrayInv (foldl (fun a k => pushNewUris i k a) arr ks).
Proof.
  induction ks as [|k ks IH]; intros arr Hinv Hi Hks; simpl; [done|].
  pose proof (grows_pushNewUris i k arr) as Hg.
  apply IH.
  - apply arrayInv_pushNewUris; [done|]. intros e m He Hm. exists uri. split.
    + by apply Hi.
    + eapply Hks; [apply list_elem_of_here|done].
  - intros e1 He1. destruct (lookup_lt_is_Some_2 arr i) as [e He].
    { destruct Hg as (Hl & _). rewrite <- Hl. by eapply lookup_lt_Some. }
    eapply grows_uris; [exact Hg|exact He|exact He1|]. by apply Hi.
  - intros k' m' Hk' Hm'. destruct (decide (k' = i)) as [->|Hne].
    + destruct (lookup_lt_is_Some_2 arr i) as [e He].
      { destruct Hg as (Hl & _). rewrite <- Hl. by eapply lookup_lt_Some. }
      eapply grows_uris; [exact Hg|exact He|exact Hm'|]. by apply Hi.
    + destruct Hg as (_ & Hne' & _). rewrite Hne' in Hm' by done.
      eapply Hks; [by apply list_elem_of_further|done].
Qed.

(** One turn of the loop on [j]. *)
Lemma normalizeStep_spec i uri arr e :
  arrayInv arr -> arr !! i = Some e -> uri ∈ uris e ->
  arrayInv (normalizeStep i uri arr)
  /\ grows i arr (normalizeStep i uri arr)
  /\ forall k m e', arr !! k = Some m -> uri ∈ uris m ->
                    normalizeStep i uri arr !! i = Some e' -> uris m ⊆ uris e'.
Proof.
  intros Hinv Hi Huri. unfold normalizeStep. split; [|split].
  - apply (arrayInv_foldl i uri); [done| |].
    + intros e0 He0. congruence.
    + intros k m Hk Hm. apply positions_spec in Hk as (m' & Hm' & Hin).
      apply includes_true in Hin. congruence.
  - apply grows_foldl.
  - intros k m e' Hm Hum He'. eapply foldl_absorbs; [|exact Hm|exact He'].
    apply positions_spec. exists m. split; [done|]. by apply includes_true.
Qed.

(** The uris of the item at [i] up to position [j] have been followed. *)
Definition closedUpTo (arr : list dedupEntry) (i j : nat) : Prop :=
  forall e j' u, arr !! i = Some e -> j' < j -> uris e !! j' = Some u ->
  forall k m, arr !! k = Some m -> u ∈ uris m -> uris m ⊆ uris e.

Definition closedAt (arr : list dedupEntry) (i : nat) : Prop :=
  forall e u, arr !! i = Some e -> u ∈ uris e ->
  forall k m, arr !! k = Some m -> u ∈ uris m -> uris m ⊆ uris e.

Lemma closedUpTo_done arr i j :
  arr !! i ≫= (fun currentItem => uris currentItem !! j) = None ->
  closedUpTo arr i j -> closedAt arr i.
Proof.
  intros Hnone Hclosed e u He Hu. rewrite He in Hnone. cbn in Hnone.
  apply list_elem_of_lookup in Hu as [j' Hj'].
  apply (Hclosed e j' u); [done| |done].
  apply lookup_ge_None in Hnone. apply lookup_lt_Some in Hj'. lia.
Qed.

Lemma closedUpTo_step arr i j e uri :
  arrayInv arr -> arr !! i = Some e -> uris e !! j = Some uri ->
  closedUpTo arr i j -> closedUpTo (normalizeStep i uri arr) i (S j).
Proof.
  intros Hinv Hi Hj Hclosed.
  assert (uri ∈ uris e) as Huri by (by eapply list_elem_of_lookup_2).
  destruct (normalizeStep_spec i uri arr e Hinv Hi Huri) as (Hinv1 & Hg1 & Habs).
  intros e1 j' u He1 Hj' Hu k m Hm Hum.
  destruct Hg1 as (Hl1 & Hne1 & Hi1). destruct (Hi1 e Hi) as [extra Hx].
  assert (e1 = set_uris e (uris e ++ extra)) as -> by congruence.
  cbn [uris set_uris] in *.
  assert (uris e !! j' = Some u) as Hu0.
  { rewrite lookup_app_l in Hu; [done|]. apply lookup_lt_Some in Hj. lia. }
  destruct (decide (k = i)) as [->|Hk].
  { assert (m = set_uris e (uris e ++ extra)) as -> by congruence. done. }
  rewrite Hne1 in Hm by done.
  destruct (decide (j' = j)) as [->|Hjj].
  - assert (u = uri) as -> by congruence.
    apply (Habs k m _ Hm Hum He1).
  - etrans; [apply (Hclosed e j' u Hi ltac:(lia) Hu0 k m Hm Hum)|].
    intros x Hx'. apply elem_of_app. by left.
Qed.

Lemma normalizeItem_spec fuel i : forall j arr arr',
  normalizeItem fuel i j arr = Some arr' ->
  arrayInv arr -> closedUpTo arr i j ->
  arrayInv arr' /\ grows i arr arr' /\ closedAt arr' i.
Proof.
  induction fuel as [|fuel IH]; intros j arr arr' Hrun Hinv Hclosed;
    cbn [normalizeItem] in Hrun;
    destruct (arr !! i ≫= _) as [uri|] eqn:Hlook.
  - discriminate.
  - injection Hrun as <-. split; [done|]. split; [apply grows_refl|].
    by eapply closedUpTo_done.
  - apply bind_Some in Hlook as (e & Hi & Hj).
    assert (uri ∈ uris e) as Huri by (by eapply list_elem_of_lookup_2).
    destruct (normalizeStep_spec i uri arr e Hinv Hi Huri) as (Hinv1 & Hg1 & _).
    destruct (IH _ _ _ Hrun Hinv1) as (Hinv' & Hg' & Hcl').
    { by eapply closedUpTo_step. }
    split; [done|]. split; [by eapply grows_trans|done].
  - injection Hrun as <-. split; [done|]. split; [apply grows_refl|].
    by eapply closedUpTo_done.
Qed.

(** The uris of an item are closed under the entries of the input: an
    entry that holds one of them gives all of its own. *)
Definition closedOrig (e : dedupEntry) : Prop :=
  forall u b cb, u ∈ uris e -> cs !! b = Some cb -> u ∈ c_uris cb -> c_uris cb ⊆ uris e.

Lemma closedAt_closedOrig arr i e :
  arrayInv arr -> closedAt arr i -> arr !! i = Some e -> closedOrig e.
Proof.
  intros [Hlen Hinv] Hcl Hi u b cb Hu Hcb Hucb.
  destruct (lookup_lt_is_Some_2 arr b) as [m Hm].
  { rewrite Hlen. by eapply lookup_lt_Some. }
  destruct (Hinv _ _ Hm) as (c & extra & Hc & -> & _).
  assert (c = cb) as -> by congruence.
  etrans; [|apply (Hcl e u Hi Hu b _ Hm)].
  - intros x Hx. cbn [uris]. apply elem_of_app. by left.
  - cbn [uris]. apply elem_of_app. by left.
Qed.

Lemma normalizeLoop_spec todo : forall arr arr' (D : nat -> Prop),
  normalizeLoop todo arr = Some arr' ->
  arrayInv arr ->
  (forall k e, D k -> arr !! k = Some e -> closedOrig e) ->
  arrayInv arr'
  /\ forall k e, D k \/ k ∈ todo -> arr' !! k = Some e -> closedOrig e.
Proof.
  induction todo as [|i todo IH]; intros arr arr' D; cbn [normalizeLoop].
  - intros [= <-] Hinv HD. split; [done|].
    intros k e [Hk|Hk%elem_of_nil]; [by apply HD|done].
  - destruct (normalizeItem (totalUris arr) i 0 arr) as [arr1|] eqn:Hitem; [|done].
    cbn [mbind option_bind]. intros Hloop Hinv HD.
    destruct (normalizeItem_spec _ _ _ _ _ Hitem Hinv) as (Hinv1 & Hg1 & Hcl1).
    { intros e j' u _ Hj'. lia. }
    destruct (IH arr1 arr' (fun k => D k \/ k = i) Hloop Hinv1) as [Hinv' Hall].
    + intros k e [Hk| ->] He.
      * destruct (decide (k = i)) as [->|Hne]; [by eapply closedAt_closedOrig|].
        destruct Hg1 as (_ & Hne1 & _). rewrite Hne1 in He by done. by eapply HD.
      * by eapply closedAt_closedOrig.
    + split; [done|]. intros k e Hk. apply Hall.
      destruct Hk as [Hk|[->|Hk]%elem_of_cons]; auto.
Qed.

(** The normalization returns, and gives every item the uris of the entries
    connected to it, and no other. *)
Lemma normalizeUris_spec :
  exists arr,
    normalizeUris (deduplicationArray_of cs) = Some arr
    /\ arrayInv arr
    /\ forall k e, arr !! k = Some e -> closedOrig e.
Proof.
  unfold normalizeUris.
  destruct (normalizeLoop_returns (seq 0 (length (deduplicationArray_of cs)))
              (deduplicationArray_of cs)) as [arr Harr].
  exists arr. split; [done|].
  destruct (normalizeLoop_spec _ _ _ (fun _ => False) Harr arrayInv_init) as [Hinv Hall];
    [done|].
  split; [done|]. intros k e He. apply (Hall k e); [|done]. right.
  apply elem_of_seq. split; [lia|]. simpl.
  destruct Hinv as [Hlen _]. apply lookup_lt_Some in He.
  unfold deduplicationArray_of. rewrite length_imap. lia.
Qed.

Definition normalizedFrom (arr : list dedupEntry) : Prop :=
  arrayInv arr /\ forall k e, arr !! k = Some e -> closedOrig e.

(** Items that hold a common uri come from connected entries. *)
Lemma normalized_sound arr a b ea eb u :
  normalizedFrom arr -> arr !! a = Some ea -> arr !! b = Some eb ->
  u ∈ uris ea -> u ∈ uris eb -> connected a b.
Proof.
  intros [[_ Hinv] _] Ha Hb Hua Hub.
  eapply reachable_meet; eapply entryInv_reachable; eauto.
Qed.

(** Items made from connected entries hold the same uris. *)
Lemma normalized_complete arr a b ea eb :
  normalizedFrom arr -> connected a b ->
  arr !! a = Some ea -> arr !! b = Some eb -> uris ea ⊆ uris eb.
Proof.
  intros [[Hlen Hinv] Hclosed] Hab Ha Hb u Hu.
  destruct (entryInv_reachable _ _ _ (Hinv _ _ Ha) Hu) as (c & cc & Hac & Hcc & Hucc).
  assert (connected b c) as Hbc by (etrans; [by apply connected_sym|done]).
  cut (forall x y, connected x y ->
         (forall cx, cs !! x = Some cx -> c_uris cx ⊆ uris eb) ->
         forall cy, cs !! y = Some cy -> c_uris cy ⊆ uris eb).
  { intros Hpath. refine (Hpath b c Hbc _ cc Hcc u Hucc).
    intros cx Hcx. destruct (Hinv _ _ Hb) as (c0 & extra & Hc0 & -> & _).
    assert (c0 = cx) as -> by congruence. cbn [uris].
    intros x Hx. apply elem_of_app. by left. }
  intros x y Hxy. induction Hxy as [x|x y z (cx & cy & v & Hcx & Hcy & Hvx & Hvy) _ IH].
  - done.
  - intros Hx. apply IH. intros cy' Hcy'. assert (cy' = cy) as -> by congruence.
    apply (Hclosed b eb Hb v y cy); [|done|done].
    by apply (Hx cx Hcx).
Qed.

End Normalization.

(** *** performDeduplication *)

Lemma filter_none {A : Type} (f : A -> bool) (l : list A) :
  (forall x, x ∈ l -> f x = false) -> List.filter f l = [].
Proof.
  induction l as [|x l IH]; intros H; simpl; [done|].
  rewrite (H x (list_elem_of_here _ _)). apply IH.
  intros y Hy. apply H. by apply list_elem_of_further.
Qed.

Lemma filter_all {A : Type} (f : A -> bool) (l : list A) :
  (forall x, x ∈ l -> f x = true) -> List.filter f l = l.
Proof.
  induction l as [|x l IH]; intros H; simpl; [done|].
  rewrite (H x (list_elem_of_here _ _)). f_equal. apply IH.
  intros y Hy. apply H. by apply list_elem_of_further.
Qed.

Lemma filter_agree {A : Type} (f g : A -> bool) (l : list A) :
  (forall x, x ∈ l -> f x = g x) -> List.filter f l = List.filter g l.
Proof.
  intros H. apply filter_ext_in. intros x Hx. apply H. by apply list_elem_of_In.
Qed.

Lemma filter_split_length {A : Type} (p g : A -> bool) (l : list A) :
  length (List.filter (fun x => g x && p x) l)
  + length (List.filter (fun x => p x && negb (g x)) l)
  = length (List.filter p l).
Proof.
  induction l as [|x l IH]; simpl; [done|].
  destruct (p x), (g x); simpl; lia.
Qed.

Lemma elem_of_filter_bool {A : Type} (f : A -> bool) (l : list A) x :
  x ∈ List.filter f l <-> x ∈ l /\ f x = true.
Proof. by rewrite !list_elem_of_In, filter_In. Qed.

(** The marks that the step at [i] adds. *)
Definition mark (i : nat) (dup : gset nat) (matchingItems : list dedupEntry) : gset nat :=
  foldl (fun d matchingItem =>
           if (i <? index matchingItem)%nat then {[ index matchingItem ]} ∪ d else d)
        dup matchingItems.

Lemma elem_of_mark i matchingItems : forall dup k,
  k ∈ mark i dup matchingItems
  <-> k ∈ dup \/ exists m, m ∈ matchingItems /\ index m = k /\ i < k.
Proof.
  unfold mark. induction matchingItems as [|x l IH]; intros dup k; simpl.
  - split; [by left|]. intros [?|(m & Hm%elem_of_nil & _)]; done.
  - rewrite IH. destruct (Nat.ltb_spec i (index x)) as [Hlt|Hge].
    + rewrite elem_of_union, elem_of_singleton. split.
      * intros [[->|?]|(m & Hm & ? & ?)].
        -- right. exists x. split; [apply list_elem_of_here|done].
        -- by left.
        -- right. exists m. split; [by apply list_elem_of_further|done].
      * intros [?|(m & [->|Hm]%elem_of_cons & Hk & ?)].
        -- left. by right.
        -- left. by left.
        -- right. by exists m.
    + split.
      * intros [?|(m & Hm & ? & ?)]; [by left|].
        right. exists m. split; [by apply list_elem_of_further|done].
      * intros [?|(m & [->|Hm]%elem_of_cons & Hk & ?)]; [by left|lia|].
        right. by exists m.
Qed.

(** What [performDeduplication] does to the store when it meets the head
    of a cluster. *)
Definition annotateHead (h : store) (e : dedupEntry) : store :=
  match uris e, item e with
  | _ :: _, Some l => addCiteCountToItem l (count e) h
  | _, _ => h
  end.

Definition keptB (dup : gset nat) (e : dedupEntry) : bool :=
  negb (bool_decide (index e ∈ dup)).

Definition holdsB (uri : string) (e : dedupEntry) : bool := includes uri (uris e).

(** Two elements that differ in [count] and [indices] at most. *)
Definition sameShape (e e0 : dedupEntry) : Prop :=
  item e = item e0 /\ uris e = uris e0 /\ index e = index e0
  /\ originalCite e = originalCite e0.

Section Clustering.

(** The array that the loop receives: every element knows its position,
    elements that hold a common uri hold the same uris, and no element has
    been counted yet. *)
Variable F : list dedupEntry.
Variable h0 : store.
Hypothesis F_index : forall k e, F !! k = Some e -> index e = k.
Hypothesis F_normal : forall a b ea eb u,
  F !! a = Some ea -> F !! b = Some eb -> u ∈ uris ea -> u ∈ uris eb ->
  uris ea ⊆ uris eb.
Hypothesis F_fresh : forall k e, F !! k = Some e -> count e = 1 /\ indices e = None.

(** The elements that hold a uri. *)
Definition cluster (uri : string) : list dedupEntry := List.filter (holdsB uri) F.

Definition headOk (e : dedupEntry) : Prop :=
  match uris e with
  | [] => count e = 1 /\ indices e = None
  | uri :: _ =>
      count e = length (cluster uri) /\ indices e = Some (map index (cluster uri))
  end.

Record loopInv (i : nat) (st : dedupState) : Prop := mkLoopInv {
  li_shape : Forall2 sameShape (ds_array st) F;
  li_rest : drop i (ds_array st) = drop i F;
  li_dup : forall k, k ∈ duplicateIndices st ->
    exists m em ek u, m < i /\ m < k /\ (m ∉ duplicateIndices st)
      /\ F !! m = Some em /\ F !! k = Some ek /\ u ∈ uris em /\ u ∈ uris ek;
  li_marked : forall m k em ek u,
    m < i -> m ∉ duplicateIndices st -> m < k ->
    F !! m = Some em -> F !! k = Some ek -> u ∈ uris em -> u ∈ uris ek ->
    k ∈ duplicateIndices st;
  li_heads : forall e,
    e ∈ List.filter (keptB (duplicateIndices st)) (take i (ds_array st)) -> headOk e;
  li_store :
    ds_store st
    = foldl annotateHead h0
            (List.filter (keptB (duplicateIndices st)) (take i (ds_array st)));
  li_count :
    sum_list (map count (List.filter (keptB (duplicateIndices st)) (take i (ds_array st))))
    + length (List.filter (keptB (duplicateIndices st)) (drop i (ds_array st)))
    = length F
}.

Lemma loopInv_init : loopInv 0 (mkDedupState F ∅ h0).
Proof.
  split; cbn [ds_array duplicateIndices ds_store take drop].
  - apply Forall2_same_length_lookup_2; [done|]. intros k e e0 He He0.
    assert (e = e0) as -> by congruence. done.
  - done.
  - intros k Hk. by apply not_elem_of_empty in Hk.
  - intros; lia.
  - intros e He. by apply elem_of_nil in He.
  - done.
  - simpl. by rewrite filter_all.
Qed.

(** The head of the list and the rest, at position [i]. *)
Lemma drop_lookup {A : Type} (l : list A) i x :
  l !! i = Some x -> drop i l = x :: drop (S i) l.
Proof. intros H. by rewrite (drop_S _ _ _ H). Qed.

Lemma elem_of_drop_lookup {A : Type} (l : list A) i x :
  x ∈ drop i l <-> exists p, i <= p /\ l !! p = Some x.
Proof.
  rewrite list_elem_of_lookup. setoid_rewrite lookup_drop. split.
  - intros [j Hj]. exists (i + j). split; [lia|done].
  - intros (p & Hp & Hx). exists (p - i). by replace (i + (p - i)) with p by lia.
Qed.

Section Step.
Variables (i : nat) (arr : list dedupEntry) (dup : gset nat) (h : store).
Variable cur : dedupEntry.
Hypothesis Hinv : loopInv i (mkDedupState arr dup h).
Hypothesis Hcur : F !! i = Some cur.

Lemma step_arr_cur : arr !! i = Some cur.
Proof.
  pose proof (li_rest _ _ Hinv) as Hrest. cbn in Hrest.
  pose proof (f_equal (fun l => l !! 0) Hrest) as H0. cbn beta in H0.
  rewrite !lookup_drop, Nat.add_0_r in H0. congruence.
Qed.

Lemma step_index_cur : index cur = i.
Proof. by apply F_index. Qed.

Lemma step_rest_S : drop (S i) arr = drop (S i) F.
Proof.
  pose proof (li_rest _ _ Hinv) as Hrest. cbn in Hrest.
  rewrite (drop_lookup _ _ _ step_arr_cur), (drop_lookup _ _ _ Hcur) in Hrest.
  congruence.
Qed.

Lemma step_take_index e : e ∈ take i arr -> index e < i.
Proof.
  intros (p & Hp & Hlt)%elem_of_take.
  destruct (Forall2_lookup_l _ _ _ _ _ (li_shape _ _ Hinv) Hp) as (e0 & He0 & Hs).
  destruct Hs as (_ & _ & -> & _). by rewrite (F_index _ _ He0).
Qed.

Lemma step_take_S : take (S i) arr = take i arr ++ [cur].
Proof. apply take_S_r, step_arr_cur. Qed.

Lemma step_drop : drop i arr = cur :: drop (S i) F.
Proof. by rewrite (drop_lookup _ _ _ step_arr_cur), step_rest_S. Qed.

(** The position [i] is marked: the step does nothing. *)
Lemma step_marked : i ∈ dup -> loopInv (S i) (mkDedupState arr dup h).
Proof.
  intros Hi. destruct Hinv as [Hshape Hrest Hdup Hmarked Hheads Hstore Hcount].
  cbn [ds_array duplicateIndices ds_store] in *.
  assert (keptB dup cur = false) as Hk.
  { unfold keptB. rewrite step_index_cur. by rewrite bool_decide_eq_true_2. }
  assert (List.filter (keptB dup) (take (S i) arr)
          = List.filter (keptB dup) (take i arr)) as Htake.
  { rewrite step_take_S, List.filter_app. simpl. by rewrite Hk, app_nil_r. }
  split; cbn [ds_array duplicateIndices ds_store].
  - done.
  - apply step_rest_S.
  - intros k Hk'. destruct (Hdup k Hk') as (m & em & ek & u & ? & ?).
    exists m, em, ek, u. split; [lia|done].
  - intros m k em ek u Hm Hmd. apply Hmarked; [|done].
    destruct (decide (m = i)) as [->|]; [done|lia].
  - by rewrite Htake.
  - by rewrite Htake.
  - rewrite Htake. rewrite step_drop in Hcount. simpl in Hcount.
    rewrite Hk in Hcount. by rewrite step_rest_S.
Qed.

(** The element at [i] has no uri: the step does nothing. *)
Lemma step_no_uri : i ∉ dup -> uris cur = [] -> loopInv (S i) (mkDedupState arr dup h).
Proof.
  intros Hi Hnil. destruct Hinv as [Hshape Hrest Hdup Hmarked Hheads Hstore Hcount].
  cbn [ds_array duplicateIndices ds_store] in *.
  assert (keptB dup cur = true) as Hk.
  { unfold keptB. rewrite step_index_cur. by rewrite bool_decide_eq_false_2. }
  assert (List.filter (keptB dup) (take (S i) arr)
          = List.filter (keptB dup) (take i arr) ++ [cur]) as Htake.
  { rewrite step_take_S, List.filter_app. simpl. by rewrite Hk. }
  destruct (F_fresh _ _ Hcur) as [Hc1 Hix].
  split; cbn [ds_array duplicateIndices ds_store].
  - done.
  - apply step_rest_S.
  - intros k Hk'. destruct (Hdup k Hk') as (m & em & ek & u & ? & ?).
    exists m, em, ek, u. split; [lia|done].
  - intros m k em ek u Hm Hmd Hmk Hem Hek Hu. destruct (decide (m = i)) as [->|].
    + assert (em = cur) as -> by congruence. rewrite Hnil in Hu.
      by apply elem_of_nil in Hu.
    + apply (Hmarked m k em ek u); (lia || done).
  - rewrite Htake. intros e [He| ->%list_elem_of_singleton]%elem_of_app; [by apply Hheads|].
    unfold headOk. by rewrite Hnil.
  - rewrite Htake, foldl_app. simpl. unfold annotateHead at 1. by rewrite Hnil.
  - rewrite Htake, map_app, sum_list_with_app. simpl.
    rewrite step_drop in Hcount. simpl in Hcount. rewrite Hk in Hcount. simpl in Hcount.
    rewrite step_rest_S. lia.
Qed.

(** The element at [i] is the head of a cluster. *)
Section Head.
Variables (uri : string) (tl : list string).
Hypothesis Hi : i ∉ dup.
Hypothesis Huris : uris cur = uri :: tl.

Lemma head_holds : uri ∈ uris cur.
Proof. rewrite Huris. apply list_elem_of_here. Qed.

(** Whatever holds the uri is unmarked and not before [i]. *)
Lemma holder_late p ep : F !! p = Some ep -> uri ∈ uris ep -> (p ∉ dup) /\ i <= p.
Proof.
  intros Hp Hu.
  assert (p ∉ dup) as Hpd.
  { intros Hpd.
    destruct (li_dup _ _ Hinv p Hpd)
      as (m & em & ek & v & Hm & Hmp & Hmd & Hem & Hek & Hvm & Hvk).
    cbn [duplicateIndices] in *. assert (ek = ep) as -> by congruence.
    apply Hi.
    refine (li_marked _ _ Hinv m i em cur uri Hm Hmd Hm Hem Hcur _ head_holds).
    by apply (F_normal p m ep em v Hp Hem Hvk Hvm). }
  split; [done|]. destruct (decide (i <= p)); [done|]. exfalso.
  assert (p < i) as Hlt by lia.
  apply Hi. exact (li_marked _ _ Hinv p i ep cur uri Hlt Hpd Hlt Hp Hcur Hu head_holds).
Qed.

Lemma elem_of_cluster m :
  m ∈ cluster uri <-> exists p, F !! p = Some m /\ uri ∈ uris m.
Proof.
  unfold cluster. rewrite elem_of_filter_bool, list_elem_of_lookup.
  unfold holdsB. rewrite includes_true. split.
  - intros [[p Hp] Hu]. by exists p.
  - intros (p & Hp & Hu). split; [by exists p|done].
Qed.

Lemma matching_eq :
  List.filter (fun it => includes uri (uris it)
                         && negb (bool_decide (index it ∈ dup))) arr
  = cluster uri.
Proof.
  rewrite <- (take_drop i arr) at 1. rewrite List.filter_app.
  rewrite filter_none.
  - pose proof (li_rest _ _ Hinv) as Hrest. cbn [ds_array] in Hrest. rewrite Hrest.
    transitivity (List.filter (holdsB uri) (take i F ++ drop i F));
      [|by rewrite take_drop].
    rewrite List.filter_app, (filter_none _ (take i F)).
    + simpl. apply filter_agree. intros e (p & Hp & He)%elem_of_drop_lookup.
      unfold holdsB. destruct (includes uri (uris e)) eqn:Hh; [|done].
      apply includes_true in Hh. destruct (holder_late p e He Hh) as [Hpd _].
      rewrite (F_index _ _ He). by rewrite bool_decide_eq_false_2.
    + intros e (p & Hp & Hlt)%elem_of_take. unfold holdsB.
      destruct (includes uri (uris e)) eqn:Hh; [|done].
      apply includes_true in Hh. destruct (holder_late p e Hp Hh). lia.
  - intros e (p & Hp & Hlt)%elem_of_take.
    destruct (Forall2_lookup_l _ _ _ _ _ (li_shape _ _ Hinv) Hp) as (e0 & He0 & Hs).
    destruct Hs as (_ & Hu & _). rewrite Hu.
    destruct (includes uri (uris e0)) eqn:Hh; [|done].
    apply includes_true in Hh. destruct (holder_late p e0 He0 Hh). lia.
Qed.

Definition cur' : dedupEntry :=
  set_count_indices cur (length (cluster uri)) (map index (cluster uri)).

Definition dup' : gset nat := mark i dup (cluster uri).

Definition h' : store :=
  match item cur with
  | Some l => addCiteCountToItem l (length (cluster uri)) h
  | None => h
  end.

Lemma elem_of_dup' k :
  k ∈ dup' <-> k ∈ dup \/ (i < k /\ exists ek, F !! k = Some ek /\ uri ∈ uris ek).
Proof.
  unfold dup'. rewrite elem_of_mark. split; (intros [?|H]; [by left|right]).
  - destruct H as (m & (p & Hp & Hu)%elem_of_cluster & Hk & Hlt).
    rewrite (F_index _ _ Hp) in Hk. subst p. split; [done|]. by exists m.
  - destruct H as (Hlt & ek & Hek & Hu). exists ek. split.
    + apply elem_of_cluster. by exists k.
    + split; [by apply F_index|done].
Qed.

Lemma dup'_below k : k <= i -> k ∈ dup' <-> k ∈ dup.
Proof. intros Hk. rewrite elem_of_dup'. split; [intros [?|[? _]]; [done|lia]|by left]. Qed.

Lemma step_cluster : loopInv (S i) (mkDedupState (<[i := cur']> arr) dup' h').
Proof.
  pose proof step_arr_cur as Harr. pose proof step_index_cur as Hidx.
  destruct Hinv as [Hshape Hrest Hdup Hmarked Hheads Hstore Hcount].
  cbn [ds_array duplicateIndices ds_store] in *.
  assert (i < length arr) as Hlen by (by eapply lookup_lt_Some).
  assert (i ∉ dup') as Hi' by (by rewrite dup'_below).
  assert (keptB dup' cur' = true) as Hk'.
  { unfold keptB, cur'. cbn [index set_count_indices]. rewrite Hidx.
    by rewrite bool_decide_eq_false_2. }
  assert (keptB dup cur = true) as Hk.
  { unfold keptB. rewrite Hidx. by rewrite bool_decide_eq_false_2. }
  assert (List.filter (keptB dup') (take (S i) (<[i := cur']> arr))
          = List.filter (keptB dup) (take i arr) ++ [cur']) as Htake.
  { rewrite (take_S_r _ _ cur') by (by apply list_lookup_insert_eq).
    rewrite take_insert_ge by done. rewrite List.filter_app. simpl. rewrite Hk'.
    f_equal. apply filter_agree. intros e He. unfold keptB. f_equal.
    apply bool_decide_ext, dup'_below. pose proof (step_take_index e He). lia. }
  split; cbn [ds_array duplicateIndices ds_store].
  - rewrite <- (list_insert_id F i cur Hcur). apply Forall2_insert; [done|].
    by unfold sameShape, cur'.
  - rewrite drop_insert_lt by lia. apply step_rest_S.
  - intros k [Hk0|[Hlt (ek & Hek & Hu)]]%elem_of_dup'.
    + destruct (Hdup k Hk0) as (m & em & ek & u & ? & ? & ? & ?).
      exists m, em, ek, u. split; [lia|]. split; [done|]. split; [|done].
      rewrite dup'_below; [done|lia].
    + exists i, cur, ek, uri. repeat split; try done; [lia|]. apply head_holds.
  - intros m k em ek u Hm Hmd Hmk Hem Hek Hum Huk. apply elem_of_dup'.
    assert (m ∉ dup) as Hmd0 by (rewrite <- dup'_below; [done|lia]).
    destruct (decide (m = i)) as [->|Hne].
    + right. split; [done|]. exists ek. split; [done|].
      assert (em = cur) as -> by congruence.
      apply (F_normal i k cur ek u); try done. apply head_holds.
    + left. apply (Hmarked m k em ek u); (lia || done).
  - rewrite Htake. intros e [He| ->%list_elem_of_singleton]%elem_of_app; [by apply Hheads|].
    unfold headOk, cur'. cbn [uris count indices set_count_indices]. by rewrite Huris.
  - rewrite Htake, foldl_app. simpl. rewrite <- Hstore.
    unfold annotateHead, cur', h'. cbn [uris count item set_count_indices].
    by rewrite Huris.
  - rewrite Htake, map_app, sum_list_with_app. simpl.
    rewrite drop_insert_lt by lia. rewrite step_rest_S.
    rewrite step_drop in Hcount. simpl in Hcount. rewrite Hk in Hcount. simpl in Hcount.
    assert (length (cluster uri)
            = S (length (List.filter (holdsB uri) (drop (S i) F)))) as Hcl.
    { unfold cluster.
      transitivity (length (List.filter (holdsB uri) (take i F ++ drop i F)));
        [by rewrite take_drop|].
      rewrite List.filter_app, (filter_none _ (take i F)).
      - rewrite (drop_lookup _ _ _ Hcur). simpl. unfold holdsB at 1.
        by rewrite (proj2 (includes_true _ _) head_holds).
      - intros e (p & Hp & Hlt)%elem_of_take. unfold holdsB.
        destruct (includes uri (uris e)) eqn:Hh; [|done].
        apply includes_true in Hh. destruct (holder_late p e Hp Hh). lia. }
    assert (List.filter (keptB dup') (drop (S i) F)
            = List.filter (fun e => keptB dup e && negb (holdsB uri e)) (drop (S i) F))
      as Hk1.
    { apply filter_agree. intros e (p & Hp & He)%elem_of_drop_lookup.
      unfold keptB, holdsB. rewrite (F_index _ _ He).
      destruct (includes uri (uris e)) eqn:Hh.
      - apply includes_true in Hh. rewrite andb_false_r.
        rewrite bool_decide_eq_true_2; [done|]. apply elem_of_dup'. right.
        split; [lia|]. by exists e.
      - apply includes_false in Hh. rewrite andb_true_r. f_equal.
        apply bool_decide_ext. rewrite elem_of_dup'. split; [|by left].
        intros [?|[_ (ek & Hek & Hu)]]; [done|]. congruence. }
    assert (List.filter (holdsB uri) (drop (S i) F)
            = List.filter (fun e => holdsB uri e && keptB dup e) (drop (S i) F)) as Hk2.
    { apply filter_agree. intros e (p & Hp & He)%elem_of_drop_lookup.
      unfold keptB, holdsB. rewrite (F_index _ _ He).
      destruct (includes uri (uris e)) eqn:Hh; [|done].
      apply includes_true in Hh. destruct (holder_late p e He Hh) as [Hpd _].
      by rewrite bool_decide_eq_false_2. }
    pose proof (filter_split_length (keptB dup) (holdsB uri) (drop (S i) F)) as Hsplit.
    unfold cur'. cbn [count set_count_indices].
    rewrite Hcl, Hk1, Hk2. lia.
Qed.

End Head.

End Step.

Lemma dedupStep_inv i st :
  loopInv i st -> i < length F -> loopInv (S i) (dedupStep st i).
Proof.
  intros Hinv Hi. destruct st as [arr dup h].
  destruct (lookup_lt_is_Some_2 F i Hi) as [cur Hcur].
  pose proof (step_arr_cur i arr dup h cur Hinv Hcur) as Harr.
  pose proof (step_index_cur i cur Hcur) as Hidx.
  unfold dedupStep. cbn [ds_array duplicateIndices ds_store]. rewrite Harr, Hidx.
  case_bool_decide as Hd.
  - by eapply step_marked.
  - destruct (uris cur) as [|uri tl] eqn:Huris.
    + by eapply step_no_uri.
    + rewrite (matching_eq i arr dup h cur Hinv Hcur uri tl Hd Huris).
      exact (step_cluster i arr dup h cur Hinv Hcur uri tl Hd Huris).
Qed.

Lemma dedupLoop_prefix k :
  k <= length F ->
  loopInv k (foldl dedupStep (mkDedupState F ∅ h0) (seq 0 k)).
Proof.
  induction k as [|k IH]; intros Hk; [apply loopInv_init|].
  rewrite seq_S, foldl_app. simpl. apply dedupStep_inv; [|lia]. apply IH. lia.
Qed.

Lemma dedupLoop_inv : loopInv (length F) (dedupLoop F h0).
Proof. by apply dedupLoop_prefix. Qed.

(** An unmarked element comes before every element that shares a uri with
    it. *)
Lemma kept_is_first st m q em eq u :
  loopInv (length F) st ->
  m ∉ duplicateIndices st ->
  F !! m = Some em -> F !! q = Some eq -> u ∈ uris em -> u ∈ uris eq -> m <= q.
Proof.
  intros Hinv Hm Hem Heq Hum Huq. destruct (decide (m <= q)); [done|]. exfalso.
  assert (q < m) as Hlt by lia.
  pose proof (lookup_lt_Some _ _ _ Hem) as Hmn.
  destruct (decide (q ∈ duplicateIndices st)) as [Hq|Hq].
  - destruct (li_dup _ _ Hinv q Hq)
      as (m' & em' & ek & v & Hm' & Hm'q & Hm'd & Hem' & Hek & Hvm & Hvk).
    assert (ek = eq) as -> by congruence.
    apply Hm. refine (li_marked _ _ Hinv m' m em' em u Hm' Hm'd _ Hem' Hem _ Hum); [lia|].
    by apply (F_normal q m' eq em' v Heq Hem' Hvk Hvm).
  - apply Hm. refine (li_marked _ _ Hinv q m eq em u _ Hq Hlt Heq Hem Huq Hum). lia.
Qed.

Lemma elem_of_members_cluster uri q :
  q ∈ map index (cluster uri) <-> exists eq, F !! q = Some eq /\ uri ∈ uris eq.
Proof.
  rewrite list_elem_of_In, in_map_iff. setoid_rewrite <- list_elem_of_In.
  unfold cluster. setoid_rewrite elem_of_filter_bool. unfold holdsB.
  setoid_rewrite includes_true. setoid_rewrite list_elem_of_lookup. split.
  - intros (e & <- & [p Hp] & Hu). exists e. by rewrite (F_index _ _ Hp).
  - intros (e & He & Hu). exists e. split; [by apply F_index|]. split; [by exists q|done].
Qed.

(** What the clusters are. *)
Record clustering (out : list dedupEntry) (hf : store) : Prop := mkClustering {
  cl_sum : sum_list (map count out) = length F;
  cl_store : hf = foldl annotateHead h0 out;
  cl_head : forall c, c ∈ out ->
    exists e0, F !! index c = Some e0 /\ sameShape c e0 /\ headOk c
               /\ index c ∈ members c
               /\ forall q, q ∈ members c -> index c <= q;
  cl_cover : forall p ep, F !! p = Some ep ->
    exists c, c ∈ out /\ p ∈ members c
              /\ forall q eq, F !! q = Some eq -> uris ep <> [] ->
                              uris ep ⊆ uris eq -> q ∈ members c
}.

Lemma members_head c e0 :
  sameShape c e0 -> F !! index c = Some e0 -> headOk c ->
  members c = match uris e0 with
              | [] => [index c]
              | uri :: _ => map index (cluster uri)
              end.
Proof.
  intros (_ & Hu & _) He0 Hh. unfold headOk in Hh. rewrite Hu in Hh. unfold members.
  destruct (uris e0); by destruct Hh as [_ ->].
Qed.

Lemma performDeduplication_spec :
  clustering (performDeduplication F h0).1 (performDeduplication F h0).2.
Proof.
  pose proof dedupLoop_inv as Hinv. unfold performDeduplication.
  set (st := dedupLoop F h0) in *. cbn [fst snd].
  pose proof (Forall2_length _ _ _ (li_shape _ _ Hinv)) as Hlen.
  assert (take (length F) (ds_array st) = ds_array st) as Htake
    by (apply take_ge; lia).
  assert (drop (length F) (ds_array st) = []) as Hdrop by (apply drop_ge; lia).
  assert (forall c, c ∈ List.filter (keptB (duplicateIndices st)) (ds_array st) ->
            exists e0, F !! index c = Some e0 /\ sameShape c e0 /\ headOk c
                       /\ (index c ∉ duplicateIndices st)) as Hout.
  { intros c Hc. pose proof Hc as [[p Hp]%list_elem_of_lookup Hk]%elem_of_filter_bool.
    destruct (Forall2_lookup_l _ _ _ _ _ (li_shape _ _ Hinv) Hp) as (e0 & He0 & Hs).
    exists e0. pose proof Hs as (_ & _ & Hidx & _).
    rewrite Hidx, (F_index _ _ He0). split; [done|]. split; [done|]. split.
    - apply (li_heads _ _ Hinv). by rewrite Htake.
    - unfold keptB in Hk. apply negb_true_iff, bool_decide_eq_false in Hk.
      by rewrite Hidx, (F_index _ _ He0) in Hk. }
  split.
  - pose proof (li_count _ _ Hinv) as Hc. rewrite Htake, Hdrop in Hc. simpl in Hc.
    by rewrite Nat.add_0_r in Hc.
  - pose proof (li_store _ _ Hinv) as Hs. by rewrite Htake in Hs.
  - intros c Hc. destruct (Hout c Hc) as (e0 & He0 & Hs & Hh & Hkept).
    exists e0. split; [done|]. split; [done|]. split; [done|].
    rewrite (members_head c e0 Hs He0 Hh).
    destruct (uris e0) as [|uri tl] eqn:Hu.
    + split; [apply list_elem_of_here|]. by intros q ->%list_elem_of_singleton.
    + split.
      * apply elem_of_members_cluster. exists e0. split; [done|].
        rewrite Hu. apply list_elem_of_here.
      * intros q (eq & Heq & Huq)%elem_of_members_cluster.
        apply (kept_is_first st (index c) q e0 eq uri); try done.
        rewrite Hu. apply list_elem_of_here.
  - intros p ep Hep.
    assert (exists m em, F !! m = Some em /\ (m ∉ duplicateIndices st)
              /\ (m = p \/ exists u, u ∈ uris em /\ u ∈ uris ep)) as (m & em & Hem & Hmd & Hrel).
    { destruct (decide (p ∈ duplicateIndices st)) as [Hp|Hp].
      - destruct (li_dup _ _ Hinv p Hp)
          as (m & em & ek & v & _ & _ & Hmd & Hem & Hek & Hvm & Hvk).
        assert (ek = ep) as -> by congruence.
        exists m, em. split; [done|]. split; [done|]. right. by exists v.
      - exists p, ep. split; [done|]. split; [done|]. by left. }
    destruct (lookup_lt_is_Some_2 (ds_array st) m) as [c Hc].
    { rewrite Hlen. by eapply lookup_lt_Some. }
    destruct (Forall2_lookup_l _ _ _ _ _ (li_shape _ _ Hinv) Hc) as (e0 & He0 & Hs).
    assert (e0 = em) as -> by congruence.
    pose proof Hs as (_ & _ & Hidx & _). rewrite (F_index _ _ Hem) in Hidx.
    assert (c ∈ List.filter (keptB (duplicateIndices st)) (ds_array st)) as Hcout.
    { apply elem_of_filter_bool. split; [by eapply list_elem_of_lookup_2|].
      unfold keptB. rewrite Hidx. by rewrite bool_decide_eq_false_2. }
    destruct (Hout c Hcout) as (e0 & He0' & _ & Hh & _).
    rewrite Hidx in He0'. assert (e0 = em) as -> by congruence.
    exists c. split; [done|].
    rewrite (members_head c em Hs ltac:(by rewrite Hidx) Hh), Hidx.
    destruct (uris em) as [|uri tl] eqn:Hu.
    + destruct Hrel as [->|(u & Hum & _)]; [|by apply elem_of_nil in Hum].
      assert (ep = em) as -> by congruence.
      split; [apply list_elem_of_here|]. intros q eq _ Hne. by rewrite Hu in Hne.
    + assert (uri ∈ uris em) as Huri by (rewrite Hu; apply list_elem_of_here).
      assert (uri ∈ uris ep) as Hup.
      { destruct Hrel as [->|(u & Hum & Hup)]; [congruence|].
        refine (F_normal m p em ep u Hem Hep _ Hup uri Huri). by rewrite Hu. }
      split.
      * apply elem_of_members_cluster. by exists ep.
      * intros q eq Heq _ Hsub. apply elem_of_members_cluster. exists eq.
        split; [done|]. by apply Hsub.
Qed.

End Clustering.

(** *** The clusters of a list of citation entries *)

Lemma normalized_index cs arr k e :
  normalizedFrom cs arr -> arr !! k = Some e ->
  exists c, cs !! k = Some c /\ item e = c_itemData c /\ index e = k
            /\ count e = 1 /\ indices e = None /\ c_uris c ⊆ uris e
            /\ (c_uris c = [] -> uris e = []).
Proof.
  intros [[_ Hinv] _] He. destruct (Hinv _ _ He) as (c & extra & Hc & -> & Hextra).
  exists c. cbn. repeat split; try done.
  - intros u Hu. apply elem_of_app. by left.
  - intros Hnil. rewrite Hnil. simpl. apply elem_of_nil_inv. intros u Hu.
    destruct (Hextra u Hu) as [_ (b & cb & Hkb & Hcb & Hub)].
    assert (k = b) as <-.
    { destruct (rtc_inv _ _ Hkb) as [|(y & (ck & _ & v & Hck & _ & Hv & _) & _)]; [done|].
      assert (ck = c) as -> by congruence. rewrite Hnil in Hv.
      by apply elem_of_nil in Hv. }
    assert (cb = c) as -> by congruence. rewrite Hnil in Hub.
    by apply elem_of_nil in Hub.
Qed.

Lemma normalized_clustering cs arr h :
  normalizedFrom cs arr ->
  clustering arr h (performDeduplication arr h).1 (performDeduplication arr h).2.
Proof.
  intros Hn. apply performDeduplication_spec.
  - intros k e He. by destruct (normalized_index _ _ _ _ Hn He) as (c & _ & _ & ? & _).
  - intros a b ea eb u Ha Hb Hua Hub.
    eapply normalized_complete; [exact Hn| |exact Ha|exact Hb].
    by eapply normalized_sound.
  - intros k e He. by destruct (normalized_index _ _ _ _ Hn He) as (c & _ & _ & _ & ? & ? & _).
Qed.

Lemma normalized_length cs arr : normalizedFrom cs arr -> length arr = length cs.
Proof. by intros [[Hlen _] _]. Qed.

(** The result of [deduplicateCitations], from the array of clusters. *)
Definition toResult (e : dedupEntry) : dedupResult :=
  mkDedupResult (item e) (uris e) (count e) (members e).

Definition results (out : list dedupEntry) : list dedupResult :=
  map toResult (List.filter (fun e => negb (is_null (item e))) out).

Lemma deduplicateCitations_unfold cs h arr :
  normalizeUris (deduplicationArray_of cs) = Some arr ->
  normalizedFrom cs arr ->
  deduplicateCitations cs h
  = Some (results (performDeduplication arr h).1, (performDeduplication arr h).2).
Proof.
  intros Hnorm Hn. unfold deduplicateCitations. destruct cs as [|c cs].
  - pose proof (normalized_length _ _ Hn) as Hlen. destruct arr; [|done].
    by vm_compute.
  - rewrite Hnorm. cbn [mbind option_bind].
    by destruct (performDeduplication arr h).
Qed.

Lemma sum_count_split (out : list dedupEntry) :
  sum_list (map _count (results out))
  + sum_list (map count (List.filter (fun e => is_null (item e)) out))
  = sum_list (map count out).
Proof.
  unfold results. induction out as [|e out IH]; simpl; [done|].
  destruct (is_null (item e)); simpl; lia.
Qed.

(** C1, as the code has it.  The counts of the clusters that
    [performDeduplication] returns for the normalized array add up to the
    number of entries.  A cluster whose record is null stays in that array;
    [deduplicateCitations] itself drops it, before any metadata projection,
    so the counts of its result fall short by the counts of these
    clusters. *)
Theorem cluster_counts_sum (cs : list citation) (h : store) :
  exists arr res hf,
    normalizeUris (deduplicationArray_of cs) = Some arr
    /\ sum_list (map count (performDeduplication arr h).1) = length cs
    /\ deduplicateCitations cs h = Some (res, hf)
    /\ res = results (performDeduplication arr h).1
    /\ sum_list (map _count res)
       + sum_list (map count (List.filter (fun e => is_null (item e))
                                          (performDeduplication arr h).1))
       = length cs.
Proof.
  destruct (normalizeUris_spec cs) as (arr & Hnorm & Hn).
  pose proof (normalized_clustering cs arr h Hn) as Hcl.
  pose proof (cl_sum _ _ _ _ Hcl) as Hsum. rewrite (normalized_length _ _ Hn) in Hsum.
  exists arr, (results (performDeduplication arr h).1), (performDeduplication arr h).2.
  split; [done|]. split; [done|]. split; [by apply deduplicateCitations_unfold|].
  split; [done|]. by rewrite sum_count_split.
Qed.

(** A cluster of two entries whose first entry has no record: the
    deduplication returns nothing, and the counts of its result add up to 0,
    not to 2. *)
Lemma dedup_output_drops_null_clusters :
  let cs := [mkCitation ["u1"] None 0 0; mkCitation ["u1"] None 1 0] in
  deduplicateCitations cs ∅ = Some ([], ∅)
  /\ sum_list (map _count []) <> length cs.
Proof. split; [by vm_compute|]. simpl. lia. Qed.

(** C3, as the code has it.  The record of a cluster is the [itemData] of
    its earliest member, null when that member has none, whatever the later
    members have. *)
Theorem cluster_record_is_first_member (cs : list citation) (h : store) :
  exists arr,
    normalizeUris (deduplicationArray_of cs) = Some arr
    /\ forall c, c ∈ (performDeduplication arr h).1 ->
       exists first,
         cs !! index c = Some first
         /\ item c = c_itemData first
         /\ index c ∈ members c
         /\ forall q, q ∈ members c -> index c <= q.
Proof.
  destruct (normalizeUris_spec cs) as (arr & Hnorm & Hn).
  pose proof (normalized_clustering cs arr h Hn) as Hcl.
  exists arr. split; [done|]. intros c Hc.
  destruct (cl_head _ _ _ _ Hcl c Hc) as (e0 & He0 & (Hitem & _) & _ & Hin & Hmin).
  destruct (normalized_index _ _ _ _ Hn He0) as (first & Hfirst & Hi & _).
  exists first. split; [done|]. split; [congruence|done].
Qed.

(** Two entries with the same identifier; the first has no record, the
    second has one: the record of their cluster is null. *)
Lemma cluster_record_ignores_later_members :
  let cs := [mkCitation ["u1"] None 0 0; mkCitation ["u1"] (Some 7) 1 0] in
  let h : store := {[ 7 := [("title", JStr "X")] ]} in
  exists arr c,
    normalizeUris (deduplicationArray_of cs) = Some arr
    /\ (performDeduplication arr h).1 = [c]
    /\ members c = [0; 1]
    /\ item c = None
    /\ (cs !! 1 ≫= c_itemData) = Some 7.
Proof.
  intros cs h. eexists _, _. split; [by vm_compute|]. split; [by vm_compute|].
  by vm_compute.
Qed.

Lemma connected_without_uris cs a b ca :
  cs !! a = Some ca -> c_uris ca = [] -> connected cs a b -> a = b.
Proof.
  intros Ha Hnil Hab.
  destruct (rtc_inv _ _ Hab) as [|(y & (ck & _ & v & Hck & _ & Hv & _) & _)]; [done|].
  assert (ck = ca) as -> by congruence. rewrite Hnil in Hv. by apply elem_of_nil in Hv.
Qed.

Lemma connected_in_cluster cs arr h a b :
  normalizedFrom cs arr -> a < length cs -> b < length cs -> connected cs a b ->
  exists c, c ∈ (performDeduplication arr h).1 /\ a ∈ members c /\ b ∈ members c.
Proof.
  intros Hn Ha Hb Hab. pose proof (normalized_clustering cs arr h Hn) as Hcl.
  rewrite <- (normalized_length _ _ Hn) in Ha, Hb.
  destruct (lookup_lt_is_Some_2 _ _ Ha) as [ea Hea].
  destruct (lookup_lt_is_Some_2 _ _ Hb) as [eb Heb].
  destruct (cl_cover _ _ _ _ Hcl a ea Hea) as (c & Hc & Hac & Hall).
  exists c. split; [done|]. split; [done|].
  destruct (normalized_index _ _ _ _ Hn Hea) as (ca & Hca & _ & _ & _ & _ & Hsub & Hnil).
  destruct (decide (uris ea = [])) as [Hempty|Hne].
  - assert (c_uris ca = []) as Hca0.
    { apply elem_of_nil_inv. intros u Hu. apply Hsub in Hu. rewrite Hempty in Hu.
      by apply elem_of_nil in Hu. }
    by rewrite <- (connected_without_uris cs a b ca Hca Hca0 Hab).
  - apply (Hall b eb Heb Hne). by eapply normalized_complete.
Qed.

Lemma sum_count_positive (out : list dedupEntry) :
  (forall c, c ∈ out -> 0 < count c) -> length out <= sum_list (map count out).
Proof.
  induction out as [|c out IH]; intros H; simpl; [done|].
  pose proof (H c (list_elem_of_here _ _)).
  assert (length out <= sum_list (map count out)).
  { apply IH. intros x Hx. apply H. by apply list_elem_of_further. }
  lia.
Qed.

Lemma cluster_count_members arr h c :
  clustering arr h (performDeduplication arr h).1 (performDeduplication arr h).2 ->
  c ∈ (performDeduplication arr h).1 -> count c = length (members c).
Proof.
  intros Hcl Hc. destruct (cl_head _ _ _ _ Hcl c Hc) as (e0 & _ & _ & Hh & _).
  unfold headOk in Hh. unfold members. destruct (uris c).
  - by destruct Hh as [-> ->].
  - destruct Hh as [-> ->]. by rewrite length_map.
Qed.

(** The members of a cluster are positions of the input, each listed
    once. *)
Lemma members_NoDup arr h c :
  (forall k e, arr !! k = Some e -> index e = k) ->
  clustering arr h (performDeduplication arr h).1 (performDeduplication arr h).2 ->
  c ∈ (performDeduplication arr h).1 ->
  NoDup (members c) /\ forall q, q ∈ members c -> q < length arr.
Proof.
  intros Hidx Hcl Hc. destruct (cl_head _ _ _ _ Hcl c Hc) as (e0 & He0 & _ & Hh & _).
  unfold headOk in Hh. unfold members. destruct (uris c) as [|uri tl].
  - destruct Hh as [_ ->]. cbv beta iota. split; [apply NoDup_singleton|].
    intros q ->%list_elem_of_singleton. by eapply lookup_lt_Some.
  - destruct Hh as [_ ->]. cbv beta iota. split.
    + unfold cluster.
      assert (forall l k, (forall j e, l !! j = Some e -> index e = k + j) ->
                NoDup (map index (List.filter (holdsB uri) l))) as Hgen.
      { induction l as [|x l IH]; intros k Hl; simpl; [constructor|].
        assert (NoDup (map index (List.filter (holdsB uri) l))) as Hrec.
        { apply (IH (S k)). intros j e Hj. rewrite (Hl (S j) e Hj). lia. }
        destruct (holdsB uri x); [|done]. simpl. constructor; [|done].
        intros (y & Hy & [Hyl _]%elem_of_filter_bool)%list_elem_of_fmap.
        apply list_elem_of_lookup in Hyl as [j Hj].
        pose proof (Hl 0 x eq_refl). pose proof (Hl (S j) y Hj). lia. }
      apply (Hgen arr 0). intros j e Hj. by rewrite (Hidx _ _ Hj).
    + intros q (e & -> & He)%list_elem_of_fmap.
      apply elem_of_filter_bool in He as [[p Hp]%list_elem_of_lookup _].
      rewrite (Hidx _ _ Hp). by eapply lookup_lt_Some.
Qed.

(** C2.  Entries whose identifiers are connected, directly or through
    other entries, are members of one cluster; three entries of which the
    first two share an identifier and the last two share another form a
    single cluster of size 3. *)
Theorem connected_entries_share_cluster (cs : list citation) (h : store) (a b : nat) :
  a < length cs -> b < length cs -> connected cs a b ->
  (exists arr c,
     normalizeUris (deduplicationArray_of cs) = Some arr
     /\ c ∈ (performDeduplication arr h).1
     /\ a ∈ members c /\ b ∈ members c)
  /\ (forall A B C u1 u2,
        u1 ∈ c_uris A -> u1 ∈ c_uris B -> u2 ∈ c_uris B -> u2 ∈ c_uris C ->
        exists arr c,
          normalizeUris (deduplicationArray_of [A; B; C]) = Some arr
          /\ (performDeduplication arr h).1 = [c]
          /\ count c = 3
          /\ members c ≡ₚ [0; 1; 2]).
Proof.
  intros Ha Hb Hab. split.
  - destruct (normalizeUris_spec cs) as (arr & Hnorm & Hn).
    destruct (connected_in_cluster cs arr h a b Hn Ha Hb Hab) as (c & Hc & Hac & Hbc).
    by exists arr, c.
  - intros A B C u1 u2 HA HB1 HB2 HC. set (abc := [A; B; C]).
    destruct (normalizeUris_spec abc) as (arr & Hnorm & Hn).
    pose proof (normalized_clustering abc arr h Hn) as Hcl.
    assert (shares abc 0 1) as H01 by (by exists A, B, u1).
    assert (shares abc 1 2) as H12 by (by exists B, C, u2).
    assert (forall k e, arr !! k = Some e -> index e = k) as Hidx.
    { intros k e He. by destruct (normalized_index _ _ _ _ Hn He) as (? & _ & _ & ? & _). }
    pose proof (normalized_length _ _ Hn) as Hlen. simpl in Hlen.
    destruct (lookup_lt_is_Some_2 arr 0) as [e0 He0]; [rewrite Hlen; lia|].
    destruct (lookup_lt_is_Some_2 arr 1) as [e1 He1]; [rewrite Hlen; lia|].
    destruct (lookup_lt_is_Some_2 arr 2) as [e2 He2]; [rewrite Hlen; lia|].
    destruct (cl_cover _ _ _ _ Hcl 0 e0 He0) as (c & Hc & Hc0 & Hall).
    assert (uris e0 <> []) as Hne.
    { destruct (normalized_index _ _ _ _ Hn He0) as (c0 & Hc0' & _ & _ & _ & _ & Hsub & _).
      injection Hc0' as <-. intros Hnil. apply Hsub in HA. rewrite Hnil in HA.
      by apply elem_of_nil in HA. }
    assert (1 ∈ members c) as Hc1.
    { apply (Hall 1 e1 He1 Hne). eapply normalized_complete; [exact Hn| |done|done].
      by apply rtc_once. }
    assert (2 ∈ members c) as Hc2.
    { apply (Hall 2 e2 He2 Hne). eapply normalized_complete; [exact Hn| |done|done].
      eapply rtc_l; [exact H01|by apply rtc_once]. }
    destruct (members_NoDup arr h c Hidx Hcl Hc) as [Hnd Hlt].
    assert (members c ≡ₚ [0; 1; 2]) as Hperm.
    { apply NoDup_Permutation; [done| |].
      - by apply (bool_decide_unpack _).
      - intros q. split.
        + intros Hq. specialize (Hlt q Hq). rewrite Hlen in Hlt.
          destruct q as [|[|[|q]]]; [by apply (bool_decide_unpack _)..|lia].
        + intros Hq. repeat (apply elem_of_cons in Hq as [->|Hq]; [done|]).
          by apply elem_of_nil in Hq. }
    assert (count c = 3) as Hcount.
    { rewrite (cluster_count_members arr h c Hcl Hc). by rewrite Hperm. }
    exists arr, c. split; [done|]. split; [|done].
    pose proof (cl_sum _ _ _ _ Hcl) as Hsum. rewrite Hlen in Hsum.
    assert (forall x, x ∈ (performDeduplication arr h).1 -> 0 < count x) as Hpos.
    { intros x Hx. rewrite (cluster_count_members arr h x Hcl Hx).
      destruct (cl_head _ _ _ _ Hcl x Hx) as (_ & _ & _ & _ & Hin & _).
      destruct (members x); [by apply elem_of_nil in Hin|simpl; lia]. }
    apply list_elem_of_split in Hc as (l1 & l2 & Hout).
    rewrite Hout in Hsum, Hpos |- *.
    rewrite map_app, sum_list_with_app in Hsum. simpl in Hsum.
    assert (length l1 = 0) as Hl1.
    { cut (length l1 <= sum_list (map count l1)); [lia|]. apply sum_count_positive.
      intros x Hx. apply Hpos, elem_of_app. by left. }
    assert (length l2 = 0) as Hl2.
    { cut (length l2 <= sum_list (map count l2)); [lia|]. apply sum_count_positive.
      intros x Hx. apply Hpos, elem_of_app. right. by apply list_elem_of_further. }
    destruct l1; [|done]. destruct l2; [|done]. done.
Qed.

Lemma connected_entries_share_cluster_witness :
  let cs := [mkCitation ["u1"] (Some 0) 0 0;
             mkCitation ["u1"; "u2"] None 0 1;
             mkCitation ["u2"] None 1 0] in
  exists arr c,
    normalizeUris (deduplicationArray_of cs) = Some arr
    /\ c ∈ (performDeduplication arr ∅).1
    /\ 0 ∈ members c /\ 2 ∈ members c.
Proof.
  intros cs.
  refine (proj1 (connected_entries_share_cluster cs ∅ 0 2 _ _ _)).
  - simpl. lia.
  - simpl. lia.
  - apply (rtc_l _ 0 1 2).
    + exists (mkCitation ["u1"] (Some 0) 0 0), (mkCitation ["u1"; "u2"] None 0 1), "u1".
      repeat split; by apply (bool_decide_unpack _).
    + apply rtc_once.
      exists (mkCitation ["u1"; "u2"] None 0 1), (mkCitation ["u2"] None 1 0), "u2".
      repeat split; by apply (bool_decide_unpack _).
Defined.

(** *** A second run *)

Definition disjointUris (cs : list citation) : Prop :=
  forall a b ca cb u,
    cs !! a = Some ca -> cs !! b = Some cb -> u ∈ c_uris ca -> u ∈ c_uris cb -> a = b.

(** What the run does to the record of an entry that is alone in its
    cluster. *)
Definition reannotate (h : store) (c : citation) : store :=
  match c_uris c, c_itemData c with
  | _ :: _, Some l => addCiteCountToItem l 1 h
  | _, _ => h
  end.

Definition ownResult (k : nat) (c : citation) : dedupResult :=
  mkDedupResult (c_itemData c) (c_uris c) 1 [k].

Definition ownEntry (k : nat) (c : citation) : dedupEntry :=
  mkDedupEntry (c_itemData c) (c_uris c) 1 k
               (match c_uris c with [] => None | _ :: _ => Some [k] end) c.

Lemma disjoint_connected cs a b : disjointUris cs -> connected cs a b -> a = b.
Proof.
  intros Hd Hab. induction Hab as [|x y z (cx & cy & u & Hx & Hy & Hux & Huy) _ IH]; [done|].
  by rewrite (Hd x y cx cy u Hx Hy Hux Huy).
Qed.

Lemma disjoint_normalized cs arr :
  disjointUris cs -> normalizedFrom cs arr -> arr = deduplicationArray_of cs.
Proof.
  intros Hd [[Hlen Hinv] _]. apply (list_eq_same_length _ _ (length cs)).
  - unfold deduplicationArray_of. by rewrite length_imap.
  - done.
  - intros k e e' _ He He'. unfold deduplicationArray_of in He'.
    apply list_lookup_imap_Some in He' as (c & Hc & ->).
    destruct (Hinv _ _ He) as (c' & extra & Hc' & -> & Hextra).
    assert (c' = c) as -> by congruence.
    assert (extra = []) as ->; [|by rewrite app_nil_r].
    apply elem_of_nil_inv. intros u Hu.
    destruct (Hextra u Hu) as [Hnot (b & cb & Hkb & Hcb & Hub)].
    rewrite <- (disjoint_connected cs k b Hd Hkb) in Hcb.
    assert (cb = c) as -> by congruence. done.
Qed.

Lemma foldl_imap_indep {A B C : Type} (f : A -> B -> A) (f' : A -> C -> A)
  (l : list C) : forall (g : nat -> C -> B) (a : A),
  (forall k c a, f a (g k c) = f' a c) ->
  foldl f a (imap g l) = foldl f' a l.
Proof.
  induction l as [|c l IH]; intros g a H; simpl; [done|].
  rewrite H. apply IH. intros k c' a'. apply H.
Qed.

Lemma annotate_again (n : nat) (o : object) (s : string) :
  get "note" o = Some (JStr s) -> is_empty s = false ->
  annotate n o = set "note" (JStr (countInfo n +:+ nl +:+ s)) o.
Proof.
  intros Hnote Hs. unfold annotate, hasOwnProperty. rewrite Hnote.
  cbv zeta. rewrite Hnote. cbn [truthy interpolate to_string]. by rewrite Hs.
Qed.

Lemma filter_single {A : Type} (f : A -> bool) (l : list A) k x :
  l !! k = Some x -> f x = true ->
  (forall p y, l !! p = Some y -> f y = true -> p = k) ->
  List.filter f l = [x].
Proof.
  intros Hk Hx Huniq. rewrite <- (take_drop_middle l k x Hk).
  rewrite List.filter_app. cbn [List.filter]. rewrite Hx.
  rewrite !filter_none; [done| |].
  - intros y (p & Hp & Hy)%elem_of_drop_lookup.
    destruct (f y) eqn:Hfy; [|done]. pose proof (Huniq p y Hy Hfy). lia.
  - intros y (p & Hy & Hp)%elem_of_take.
    destruct (f y) eqn:Hfy; [|done]. pose proof (Huniq p y Hy Hfy). lia.
Qed.

Lemma disjoint_clusters (cs : list citation) (h : store) :
  disjointUris cs ->
  performDeduplication (deduplicationArray_of cs) h
  = (imap ownEntry cs, foldl reannotate h cs).
Proof.
  intros Hd. set (F := deduplicationArray_of cs).
  assert (forall k e, F !! k = Some e ->
            exists c, cs !! k = Some c
                      /\ e = mkDedupEntry (c_itemData c) (c_uris c) 1 k None c) as HF.
  { intros k e He. apply list_lookup_imap_Some in He as (c & Hc & ->). by exists c. }
  assert (forall a b ea eb u, F !! a = Some ea -> F !! b = Some eb ->
            u ∈ uris ea -> u ∈ uris eb -> a = b) as HdF.
  { intros a b ea eb u Ha Hb Hua Hub.
    destruct (HF _ _ Ha) as (ca & Hca & ->). destruct (HF _ _ Hb) as (cb & Hcb & ->).
    by apply (Hd a b ca cb u). }
  assert (loopInv F h (length F) (dedupLoop F h)) as Hinv.
  { apply dedupLoop_inv.
    - intros k e He. by destruct (HF _ _ He) as (c & _ & ->).
    - intros a b ea eb u Ha Hb Hua Hub.
      rewrite (HdF a b ea eb u Ha Hb Hua Hub) in Ha. congruence.
    - intros k e He. by destruct (HF _ _ He) as (c & _ & ->). }
  unfold performDeduplication. set (st := dedupLoop F h) in *.
  pose proof (Forall2_length _ _ _ (li_shape _ _ _ _ Hinv)) as Hlen.
  assert (length F = length cs) as HlenF by apply length_imap.
  assert (forall k, k ∉ duplicateIndices st) as Hnodup.
  { intros k Hk.
    destruct (li_dup _ _ _ _ Hinv k Hk) as (m & em & ek & u & _ & Hmk & _ & Hem & Hek & Hum & Huk).
    pose proof (HdF m k em ek u Hem Hek Hum Huk). lia. }
  assert (List.filter (keptB (duplicateIndices st)) (ds_array st) = ds_array st) as Hall.
  { apply filter_all. intros x _. unfold keptB.
    rewrite bool_decide_eq_false_2; [done|apply Hnodup]. }
  assert (take (length F) (ds_array st) = ds_array st) as Htake by (apply take_ge; lia).
  assert (ds_array st = imap ownEntry cs) as Harr.
  { apply (list_eq_same_length _ _ (length cs)); [by rewrite length_imap|lia|].
    intros k e e' _ He He'. apply list_lookup_imap_Some in He' as (c & Hc & ->).
    destruct (Forall2_lookup_l _ _ _ _ _ (li_shape _ _ _ _ Hinv) He) as (e0 & He0 & Hs).
    destruct (HF _ _ He0) as (c' & Hc' & ->). assert (c' = c) as -> by congruence.
    assert (headOk F e) as Hh.
    { apply (li_heads _ _ _ _ Hinv). rewrite Htake, Hall.
      by eapply list_elem_of_lookup_2. }
    destruct Hs as (Hitem & Huris & Hindex & Horig). cbn in Hitem, Huris, Hindex, Horig.
    unfold headOk in Hh. rewrite Huris in Hh. unfold ownEntry.
    destruct (c_uris c) as [|uri tl] eqn:Hcu.
    - destruct Hh as [Hcount Hix]. destruct e; cbn in *. congruence.
    - assert (cluster F uri = [mkDedupEntry (c_itemData c) (c_uris c) 1 k None c]) as Hcl.
      { unfold cluster. rewrite Hcu. apply (filter_single _ _ k); [done| |].
        - unfold holdsB. cbn [uris]. apply includes_true.
          apply list_elem_of_here.
        - intros p y Hy Hin. unfold holdsB in Hin. apply includes_true in Hin.
          symmetry. apply (HdF k p _ y uri He0 Hy); [|done].
          cbn [uris]. apply list_elem_of_here. }
      rewrite Hcl in Hh. destruct Hh as [Hcount Hix]. destruct e; cbn in *. congruence. }
  f_equal.
  - etrans; [exact Hall|exact Harr].
  - rewrite (li_store _ _ _ _ Hinv), Htake, Hall, Harr.
    apply foldl_imap_indep. intros k c a. unfold annotateHead, reannotate, ownEntry.
    cbn [uris item count]. by destruct (c_uris c).
Qed.

(** C4, as the code has it.  On a list whose identifier sets are pairwise
    disjoint and whose entries all have a record, the deduplication returns
    the records in the same order, each with its identifiers, count 1 and
    its own position as only member.  The records do not stay as they were:
    every record with a non-empty identifier set gets one more "Times
    cited: 1" line in front of its note. *)
Theorem rerun_on_deduplicated_list (cs : list citation) (h : store) :
  disjointUris cs ->
  (forall c, c ∈ cs -> is_null (c_itemData c) = false) ->
  deduplicateCitations cs h = Some (imap ownResult cs, foldl reannotate h cs)
  /\ forall o s, get "note" o = Some (JStr s) -> is_empty s = false ->
       annotate 1 o = set "note" (JStr ("Times cited: 1" +:+ nl +:+ s)) o.
Proof.
  intros Hd Hitems. split; [|intros o s; apply annotate_again].
  destruct (normalizeUris_spec cs) as (arr & Hnorm & Hn).
  rewrite (deduplicateCitations_unfold cs h arr Hnorm Hn).
  rewrite (disjoint_normalized cs arr Hd Hn), (disjoint_clusters cs h Hd).
  cbn [fst snd]. f_equal. f_equal. unfold results.
  rewrite filter_all.
  - change (map toResult (imap ownEntry cs)) with (toResult <$> imap ownEntry cs).
    rewrite fmap_imap. apply imap_ext. intros k c _. unfold ownEntry, ownResult.
    cbn. unfold toResult, members. cbn. by destruct (c_uris c).
  - intros e (k & c & -> & Hc)%elem_of_lookup_imap_1. cbn.
    rewrite Hitems; [done|]. by eapply list_elem_of_lookup_2.
Qed.

Lemma rerun_on_deduplicated_list_witness :
  let cs := [mkCitation ["u1"] (Some 0) 0 0; mkCitation [] (Some 1) 1 0] in
  let h : store := {[ 0 := [("note", JStr "Times cited: 1")]; 1 := [("title", JStr "Y")] ]} in
  deduplicateCitations cs h = Some (imap ownResult cs, foldl reannotate h cs).
Proof.
  intros cs h. refine (proj1 (rerun_on_deduplicated_list cs h _ _)).
  - intros a b ca cb u Ha Hb Hua Hub.
    destruct a as [|[|a]], b as [|[|b]]; simpl in Ha, Hb; try done;
      injection Ha as <-; injection Hb as <-; simpl in *;
      by (apply elem_of_nil in Hua || apply elem_of_nil in Hub).
  - intros c Hc. repeat (apply elem_of_cons in Hc as [->|Hc]; [done|]).
    by apply elem_of_nil in Hc.
Defined.

(** A record that a first run has annotated with count 1 comes back from
    a second run with two count lines: it is not unchanged. *)
Lemma rerun_changes_the_note :
  let cs := [mkCitation ["u1"] (Some 0) 0 0] in
  let h : store := {[ 0 := [("title", JStr "X"); ("note", JStr "Times cited: 1")] ]} in
  exists res hf,
    deduplicateCitations cs h = Some (res, hf)
    /\ hf !! 0 = Some [("title", JStr "X");
                       ("note", JStr ("Times cited: 1" +:+ nl +:+ "Times cited: 1"))]
    /\ hf !! 0 <> h !! 0.
Proof.
  intros cs h. eexists _, _. split; [by vm_compute|]. split; [by vm_compute|].
  by vm_compute.
Qed.

(** *** The store after the deduplication *)























(** A field whose payload holds one citation, and a parser that knows its
    text, to run the model. *)
Definition samplePayload : json :=
  JObj [("citationItems",
         JArr [JObj [("uris", JArr [JStr "u1"]);
                     ("itemData", JObj [("title", JStr "X")])]])].

Definition sampleField : string :=
  "ADDIN ZOTERO_ITEM CSL_CITATION " +:+ stringify EmptyString samplePayload.

Definition sampleJsonParse (text : string) : result json :=
  if String.eqb text (stringify EmptyString samplePayload) then Ok samplePayload
  else Throw "SyntaxError".


(** The same run, in full: the entry that [processFields] returns as raw
    citation refers to location 0, where the note now is. *)
Example processFields_sample :
  exists res hf,
    Processor.processFields sampleJsonParse [sampleField] = Some (res, hf)
    /\ Processor.rawCitations res = Some [mkCitation ["u1"] (Some 0) 0 0]
    /\ Processor.citations res = [0]
    /\ hf !! 0 = Some [("title", JStr "X"); ("note", JStr "Times cited: 1")].
Proof. eexists _, _. split; [by vm_compute|]. split; by vm_compute. Qed.

End DedupSpec.
(** * Further properties of the code *)

(** ** More on the output formatter *)

Module FormatterFacts.
Import JsString Json Formatter StringFacts FormatterSpec.

(** *** The cache of [format] *)

Lemma cache_get_snoc key r cache :
  cache_get key cache = None -> cache_get key (cache ++ [(key, r)]) = Some r.
Proof.
  induction cache as [|[k v] cache IH]; simpl.
  - by rewrite String.eqb_refl.
  - destruct (String.eqb key k); [done|]. apply IH.
Qed.

Lemma cache_get_set key r cache :
  cache_get key cache = None -> cache_get key (cache_set key r cache) = Some r.
Proof.
  intros Hmiss. unfold cache_set.
  destruct (100 <? length (cache ++ [(key, r)])) eqn:Hfull; [|by apply cache_get_snoc].
  destruct cache as [|[k v] cache].
  - apply Nat.ltb_lt in Hfull. simpl in Hfull. lia.
  - simpl in *. destruct (String.eqb key k); [done|]. by apply cache_get_snoc.
Qed.

Lemma cache_set_length key r cache :
  length cache <= 100 -> length (cache_set key r cache) <= 100.
Proof.
  intros Hlen. unfold cache_set.
  destruct (Nat.ltb_spec 100 (length (cache ++ [(key, r)]))) as [Hfull|Hfits]; [|done].
  rewrite length_app in Hfull. simpl in Hfull.
  destruct cache; simpl in *; [lia|]. rewrite length_app. simpl. lia.
Qed.

Definition citationsToFormat (citations : option (list json)) (st : formatterState)
  : list json :=
  match citations with
  | Some cs => cs
  | None => currentCitations st
  end.

(** What [format] does when the cache has nothing for the call. *)
Lemma format_miss Cite fmt citations options st :
  cache_get (generateCacheKey (citationsToFormat citations st) fmt options)
            (formattingCache st) = None ->
  format Cite fmt citations options st
  = if is_empty fmt then (Throw "Format must be a non-empty string", st)
    else
      match citationsToFormat citations st with
      | [] => (Ok EmptyString, st)
      | _ :: _ =>
          match try_catch (formatWithCitationJs Cite (citationsToFormat citations st) fmt options)
                          (fun _ => formatFallback (citationsToFormat citations st) fmt) with
          | Ok result =>
              (Ok result,
               mkFormatterState (currentCitations st)
                 (cache_set (generateCacheKey (citationsToFormat citations st) fmt options)
                            result (formattingCache st)))
          | Throw e => (Throw e, st)
          end
      end.
Proof.
  intros Hmiss. unfold format. fold (citationsToFormat citations st). rewrite Hmiss.
  destruct (is_empty fmt); [done|]. by destruct (citationsToFormat citations st).
Qed.

Lemma format_hit Cite fmt citations options st r :
  cache_get (generateCacheKey (citationsToFormat citations st) fmt options)
            (formattingCache st) = Some r ->
  format Cite fmt citations options st = (Ok r, st).
Proof.
  intros Hhit. unfold format. fold (citationsToFormat citations st). by rewrite Hhit.
Qed.

(** What a call that returns leaves behind: the same call finds its result
    in the cache, or the list was empty and nothing was stored. *)
Lemma format_ok_cached Cite fmt citations options st r st' :
  format Cite fmt citations options st = (Ok r, st') ->
  currentCitations st' = currentCitations st
  /\ (cache_get (generateCacheKey (citationsToFormat citations st) fmt options)
                (formattingCache st') = Some r
      \/ (st' = st /\ r = EmptyString /\ is_empty fmt = false
          /\ citationsToFormat citations st = []
          /\ cache_get (generateCacheKey (citationsToFormat citations st) fmt options)
                       (formattingCache st) = None)).
Proof.
  destruct (cache_get (generateCacheKey (citationsToFormat citations st) fmt options)
                      (formattingCache st)) as [cached|] eqn:Hget.
  - rewrite (format_hit _ _ _ _ _ _ Hget). intros [= <- <-]. split; [done|]. by left.
  - rewrite (format_miss _ _ _ _ _ Hget).
    destruct (is_empty fmt) eqn:Hfmt; [done|].
    destruct (citationsToFormat citations st) as [|c cs] eqn:Hcs.
    + intros [= <- <-]. split; [done|]. by right.
    + destruct (try_catch _ _) as [result|e]; [|done].
      intros [= <- <-]. split; [done|]. left. cbn [formattingCache].
      by apply cache_get_set.
Qed.

(** X1. [format] memoizes: once a call has returned, the same call returns
    the same text again and changes nothing, whatever the renderer would do
    now. *)
Theorem format_memoizes (Cite Cite' : option renderer) (fmt : string)
  (citations : option (list json)) (options : json) (st st' : formatterState) (r : string) :
  format Cite fmt citations options st = (Ok r, st') ->
  format Cite' fmt citations options st' = (Ok r, st').
Proof.
  intros Hfirst.
  destruct (format_ok_cached _ _ _ _ _ _ _ Hfirst) as [Hcur [Hhit|(-> & -> & Hfmt & Hcs & Hmiss)]].
  - apply format_hit.
    replace (citationsToFormat citations st') with (citationsToFormat citations st); [done|].
    unfold citationsToFormat. by destruct citations.
  - rewrite (format_miss _ _ _ _ _ Hmiss). by rewrite Hfmt, Hcs.
Qed.

Lemma format_memoizes_witness :
  let cs := Some [JObj [("title", JStr "T")]] in
  exists st',
    format None "bibtex" cs (JObj []) emptyState
    = (Ok (stringify "  " (JArr [JObj [("title", JStr "T")]])), st')
    /\ format (Some (fun _ _ _ => Ok "@article{}")) "bibtex" cs (JObj []) st'
       = (Ok (stringify "  " (JArr [JObj [("title", JStr "T")]])), st').
Proof.
  intros cs. eexists. split; [by vm_compute|].
  apply (format_memoizes None _ "bibtex" cs (JObj []) emptyState). by vm_compute.
Defined.

(** X2. The cache key reads the first 100 characters of the JSON text of the
    list only: after a call has returned for a non-empty list, a call with
    the same format and options for any list whose JSON text starts with
    the same 100 characters returns the text of the first call, from the
    cache. *)
Theorem format_cache_collision (Cite Cite' : option renderer) (fmt : string)
  (cs1 cs2 : list json) (options : json) (st st' : formatterState) (r : string) :
  cs1 <> [] ->
  slice100 (stringify EmptyString (JArr cs1)) = slice100 (stringify EmptyString (JArr cs2)) ->
  format Cite fmt (Some cs1) options st = (Ok r, st') ->
  format Cite' fmt (Some cs2) options st' = (Ok r, st').
Proof.
  intros Hne Hslice Hfirst.
  destruct (format_ok_cached _ _ _ _ _ _ _ Hfirst) as [_ [Hhit|(_ & _ & _ & Hcs & _)]];
    [|done].
  apply format_hit. cbn [citationsToFormat] in *.
  unfold generateCacheKey in *. by rewrite <- Hslice.
Qed.

(** Two lists that differ after the first 100 characters of their JSON
    text. *)
Definition longTitle : string :=
  "Deduplication of citation payloads embedded in word processor documents: a survey of field formats".

Definition firstList : list json :=
  [JObj [("title", JStr longTitle); ("note", JStr "Times cited: 1")]].

Definition secondList : list json :=
  [JObj [("title", JStr longTitle); ("note", JStr "Times cited: 7")];
   JObj [("title", JStr "Another record")]].

Lemma format_cache_collision_witness :
  exists st',
    format None "data-with-counts" (Some firstList) (JObj []) emptyState
    = (Ok (stringify "  " (JArr firstList)), st')
    /\ format None "data-with-counts" (Some secondList) (JObj []) st'
       = (Ok (stringify "  " (JArr firstList)), st')
    /\ firstList <> secondList.
Proof.
  eexists. split; [by vm_compute|]. split; [|done].
  apply (format_cache_collision None None "data-with-counts" firstList secondList
           (JObj []) emptyState).
  - done.
  - by vm_compute.
  - by vm_compute.
Defined.

(** X3. The cache never holds more than 100 results, and [format] never
    changes the list set by [setCitations]. *)
Theorem format_cache_bounded (Cite : option renderer) (fmt : string)
  (citations : option (list json)) (options : json) (st : formatterState) :
  length (formattingCache st) <= 100 ->
  length (formattingCache (format Cite fmt citations options st).2) <= 100
  /\ currentCitations (format Cite fmt citations options st).2 = currentCitations st.
Proof.
  intros Hlen.
  destruct (cache_get (generateCacheKey (citationsToFormat citations st) fmt options)
                      (formattingCache st)) as [cached|] eqn:Hget.
  - by rewrite (format_hit _ _ _ _ _ _ Hget).
  - rewrite (format_miss _ _ _ _ _ Hget).
    destruct (is_empty fmt); [done|].
    destruct (citationsToFormat citations st) as [|c cs]; [done|].
    destruct (try_catch _ _) as [result|e]; [|done].
    cbn [snd formattingCache currentCitations]. split; [|done].
    by apply cache_set_length.
Qed.

Lemma format_cache_bounded_witness :
  length (formattingCache
            (format None "ris" (Some [JObj [("title", JStr "T")]]) (JObj []) emptyState).2)
  <= 100.
Proof.
  apply (format_cache_bounded None "ris" (Some [JObj [("title", JStr "T")]]) (JObj [])
           emptyState).
  simpl. lia.
Defined.

(** Called with a string and with an array or no list, [formatAny] is
    [format]. *)
Lemma formatAny_typed (Cite : option renderer) (fmt : string)
  (citations : option (list json)) (options : json) (st : formatterState) :
  formatAny Cite (Some (JStr fmt)) (option_map JArr citations) options st
  = format Cite fmt citations options st.
Proof.
  unfold formatAny, format, generateCacheKeyOf, generateCacheKey.
  assert (citationsOrCurrent (option_map JArr citations) st
          = JArr (citationsToFormat citations st)) as -> by (by destruct citations).
  fold (citationsToFormat citations st). cbn [substitute printable interpolate to_string
    mbind result_bind].
  destruct (cache_get _ (formattingCache st)); [done|].
  destruct (is_empty fmt); [done|].
  by destruct (citationsToFormat citations st).
Qed.

(** X4. Whatever it is called with, [format] throws in three cases only:
    the format is not a non-empty string; the list to format is not an
    array; or the format is [bibliography], the renderer is absent or has
    thrown, and a record is not fit for the listing.  A call that throws
    leaves the cache and the citations as they were. *)
Theorem format_throws_only (Cite : option renderer) (fmt citations : option json)
  (options : json) (st st' : formatterState) (e : string) :
  formatAny Cite fmt citations options st = (Throw e, st') ->
  st' = st
  /\ ((forall name, fmt = Some (JStr name) -> name = EmptyString)
      \/ (forall list, citationsOrCurrent citations st <> JArr list)
      \/ (fmt = Some (JStr BIBLIOGRAPHY)
          /\ exists list,
               citationsOrCurrent citations st = JArr list
               /\ (exists e', formatWithCitationJs Cite list BIBLIOGRAPHY options = Throw e')
               /\ ~ Forall wellFormed list)).
Proof.
  unfold formatAny, generateCacheKeyOf.
  destruct (substitute fmt) as [name|e0] eqn:Hname; cbn [mbind result_bind].
  2:{ intros [= <- <-]. split; [done|]. left. intros name' ->. done. }
  destruct (cache_get _ (formattingCache st)) as [cached|]; [done|].
  destruct fmt as [[| | |f| |]|];
    try (intros [= <- <-]; split; [done|]; left; by intros name' [=]).
  destruct f as [|a f].
  { intros [= <- <-]. split; [done|]. left. by intros name' [= <-]. }
  cbn [is_empty].
  destruct (citationsOrCurrent citations st) as [| | | |list|] eqn:Hlist;
    try (intros [= <- <-]; split; [done|]; right; left; by intros list').
  destruct list as [|c cs]; [done|].
  destruct (formatWithCitationJs Cite (c :: cs) (String a f) options) as [out|e'] eqn:Hjs;
    cbn [try_catch]; [done|].
  destruct (formatFallback (c :: cs) (String a f)) as [out|e''] eqn:Hfb; [done|].
  intros [= <- <-]. split; [done|]. right. right.
  unfold formatFallback in Hfb.
  destruct (String.eqb (String a f) CSL_JSON || String.eqb (String a f) CSL_JSON_WITH_COUNTS);
    [done|].
  destruct (String.eqb_spec (String a f) BIBLIOGRAPHY) as [Hb|Hb]; [|done].
  rewrite Hb in *. split; [done|]. exists (c :: cs). split; [done|].
  split; [by exists e'|].
  intros Hwf. by rewrite (fallbackLines_ok _ 0 Hwf) in Hfb.
Qed.

Lemma format_throws_only_witness :
  let unreadable := JArr [JObj [("title", JObj [("toString", JNum 1)])]] in
  formatAny None (Some (JStr "bibliography")) (Some unreadable) (JObj []) emptyState
  = (Throw TypeError, emptyState)
  /\ formatAny None (Some (JNum 5)) (Some unreadable) (JObj []) emptyState
     = (Throw "Format must be a non-empty string", emptyState)
  /\ formatAny None (Some (JStr "data")) (Some (JNum 5)) (JObj []) emptyState
     = (Throw "Citations must be an array", emptyState)
  /\ ~ Forall wellFormed [JObj [("title", JObj [("toString", JNum 1)])]].
Proof.
  intros unreadable. split; [by vm_compute|]. split; [by vm_compute|].
  split; [by vm_compute|].
  destruct (format_throws_only None (Some (JStr "bibliography")) (Some unreadable) (JObj [])
              emptyState emptyState TypeError)
    as [_ [Hfmt|[Hlist|(_ & list & Hl & _ & Hwf)]]].
  - by vm_compute.
  - by specialize (Hfmt "bibliography" eq_refl).
  - by destruct (Hlist [JObj [("title", JObj [("toString", JNum 1)])]]).
  - by injection Hl as <-.
Defined.

(** *** [cleanCitations] *)

Lemma get_set_same k v o : get k (set k v o) = Some v.
Proof.
  induction o as [|[k0 v0] o IH]; simpl.
  - by rewrite String.eqb_refl.
  - destruct (String.eqb_spec k k0) as [->|Hne]; simpl.
    + by rewrite String.eqb_refl.
    + destruct (String.eqb_spec k k0); [done|]. apply IH.
Qed.

Lemma set_set k v w o : set k w (set k v o) = set k w o.
Proof.
  induction o as [|[k0 v0] o IH]; simpl.
  - by rewrite String.eqb_refl.
  - destruct (String.eqb_spec k k0) as [->|Hne]; simpl.
    + by rewrite String.eqb_refl.
    + destruct (String.eqb_spec k k0); [done|]. by rewrite IH.
Qed.

Lemma set_get k v o : get k o = Some v -> set k v o = o.
Proof.
  induction o as [|[k0 v0] o IH]; simpl; [done|].
  destruct (String.eqb_spec k k0) as [->|Hne].
  - by intros [= ->].
  - intros H. by rewrite IH.
Qed.

(** X5. [cleanCitations] returns as many records as it gets, in the same
    order.  In a record that is an object it changes the note at most:
    every other field keeps its value, and a record whose note is absent,
    empty or not a string is returned as it is.  A value that is null or
    not an object is returned as it is. *)
Theorem cleanCitations_touches_note_only (citations : list json) :
  length (cleanCitations citations) = length citations
  /\ forall i c, citations !! i = Some c ->
       cleanCitations citations !! i = Some (cleanCitation c)
       /\ (forall o k, c = JObj o -> k <> "note" -> prop k (cleanCitation c) = get k o)
       /\ (forall o, c = JObj o ->
             (forall s, get "note" o = Some (JStr s) -> s = EmptyString) ->
             cleanCitation c = c)
       /\ (typeof_object c = false \/ c = JNull -> cleanCitation c = c).
Proof.
  split; [apply length_map|]. intros i c Hc. split; [|split; [|split]].
  - unfold cleanCitations.
    change (map cleanCitation citations) with (cleanCitation <$> citations).
    by rewrite list_lookup_fmap, Hc.
  - intros o k -> Hk. by apply cleanCitation_other_fields.
  - intros o -> Hnote. unfold cleanCitation. simpl.
    destruct (get "note" o) as [[| | |s| |]|]; try done.
    by rewrite (Hnote s eq_refl).
  - intros [Ht| ->]; [|done]. unfold cleanCitation. by rewrite Ht, orb_true_r.
Qed.

(** *** The count line, written and read back *)

Lemma string_of_uint_digits (d : Decimal.uint) :
  all is_digit (NilEmpty.string_of_uint d) = true.
Proof. induction d; simpl; by rewrite ?IHd. Qed.

Lemma dec_digits n : digits (dec n).
Proof.
  unfold dec, NilZero.string_of_uint, digits.
  destruct (Nat.to_uint n) eqn:Hd; try done;
    (split; [apply (string_of_uint_digits (_ u))|done]).
Qed.


(** The note that [annotate] writes. *)
Definition noteAfter (n : nat) (o : object) : string :=
  if truthy (get "note" o) then Dedup.countInfo n +:+ nl +:+ interpolate (get "note" o)
  else Dedup.countInfo n.

Lemma annotate_unfold n o :
  Dedup.annotate n o
  = set "note" (JStr (noteAfter n o))
        (if hasOwnProperty "note" o then o else set "note" (JStr EmptyString) o).
Proof.
  unfold Dedup.annotate, noteAfter, hasOwnProperty.
  destruct (get "note" o) as [v|] eqn:Hn; cbv zeta.
  - by rewrite Hn.
  - by rewrite get_set_same.
Qed.

Lemma annotate_get_note n o : get "note" (Dedup.annotate n o) = Some (JStr (noteAfter n o)).
Proof. rewrite annotate_unfold. apply get_set_same. Qed.


Lemma find_first_here {A : Type} (m : string -> option (A * string)) s a rest :
  m s = Some (a, rest) -> find_first m s = Some (EmptyString, a, rest).
Proof. intros Hm. destruct s; cbn [find_first]; by rewrite Hm. Qed.




(** The count line and its line break go. *)
Lemma remove_skip (t : string) : forall r,
  remove_count_lines_from (String.length t) (t +:+ r) = remove_count_lines_from 0 r.
Proof.
  induction t as [|c t IH]; intros r; simpl.
  - rewrite sapp_nil_l. by destruct r.
  - apply IH.
Qed.

Lemma length_sapp s t : String.length (s +:+ t) = String.length s + String.length t.
Proof. induction s as [|c s IH]; simpl; [done|]. by rewrite IH. Qed.

Lemma match_count_line_countInfo n rest :
  match_count_line (Dedup.countInfo n +:+ nl +:+ rest)
  = Some (String.length (Dedup.countInfo n +:+ nl)).
Proof.
  unfold match_count_line, Dedup.countInfo. rewrite sapp_assoc, strip_prefix_app.
  destruct (dec_digits n) as [Hall Hne].
  rewrite (span_app is_digit (dec n) (nl +:+ rest) Hall eq_refl).
  destruct (dec n) as [|d ds] eqn:Hd; [done|].
  change (nl +:+ rest) with (String LF rest). cbv beta iota.
  rewrite Ascii.eqb_refl. f_equal. rewrite !length_sapp. simpl. lia.
Qed.

Lemma remove_count_lines_countInfo n rest :
  remove_count_lines (Dedup.countInfo n +:+ nl +:+ rest) = remove_count_lines rest.
Proof.
  unfold remove_count_lines.
  pose proof (match_count_line_countInfo n rest) as Hm.
  rewrite <- sapp_assoc in Hm |- *.
  destruct (Dedup.countInfo n +:+ nl) as [|c line] eqn:Hline; [by destruct (Dedup.countInfo n)|].
  rewrite sapp_cons in Hm |- *. cbn [remove_count_lines_from]. rewrite Hm.
  cbn [String.length]. apply remove_skip.
Qed.

(** X7. For a record that had a note before, [cleanCitations] undoes what
    [addCiteCountToItem] did: when the note is a string that is not blank
    and holds no count line of its own, cleaning the annotated record gives
    the record back, field for field. *)
Theorem cleanCitation_undoes_annotation (n : nat) (o : object) (note : string) :
  get "note" o = Some (JStr note) ->
  is_empty (trim note) = false ->
  remove_count_lines note = note ->
  cleanCitation (JObj (Dedup.annotate n o)) = JObj o.
Proof.
  intros Hnote Hblank Hplain.
  assert (is_empty note = false) as Hne by (by destruct note).
  assert (noteAfter n o = Dedup.countInfo n +:+ nl +:+ note) as Hafter.
  { unfold noteAfter. rewrite Hnote. cbn [truthy interpolate to_string]. by rewrite Hne. }
  unfold cleanCitation. cbn [truthy typeof_object negb orb spread].
  rewrite annotate_get_note, Hafter.
  destruct (Dedup.countInfo n +:+ nl +:+ note) as [|c s] eqn:Hs; [by destruct (Dedup.countInfo n)|].
  cbn [is_empty]. rewrite <- Hs, remove_count_lines_countInfo, Hplain, Hblank.
  rewrite annotate_unfold. unfold hasOwnProperty. rewrite Hnote, set_set.
  by rewrite (set_get _ _ _ Hnote).
Qed.

Lemma cleanCitation_undoes_annotation_witness :
  cleanCitation (JObj (Dedup.annotate 12 [("title", JStr "X"); ("note", JStr "see p. 3")]))
  = JObj [("title", JStr "X"); ("note", JStr "see p. 3")].
Proof.
  apply (cleanCitation_undoes_annotation 12 _ "see p. 3"); reflexivity.
Defined.

End FormatterFacts.
(** ** More on the field parser *)

Module ParserFacts.
Import JsString Json Parser Config StringFacts ParserSpec.

(** *** The prefix patterns *)

Lemma strip_prefix_sapp a b : forall s,
  strip_prefix (a +:+ b) s = strip_prefix a s ≫= strip_prefix b.
Proof.
  induction a as [|c a IH]; intros s; [done|]. rewrite sapp_cons.
  destruct s as [|d s]; [done|]. cbn [strip_prefix].
  destruct (Ascii.eqb c d); [apply IH|done].
Qed.

(** X8. The general prefix pattern accepts a field exactly when one of the
    three patterns kept for Mendeley, Zotero in Word and Zotero in
    LibreOffice accepts it, or when the field starts with the bare
    CSL_CITATION. *)
Theorem csl_general_accepts (field : string) :
  CSL_GENERAL field
  = MENDELEY field || ZOTERO_WORD field || ZOTERO_ODT field
    || startsWith "CSL_CITATION" field.
Proof.
  unfold CSL_GENERAL, MENDELEY, ZOTERO_WORD, ZOTERO_ODT, startsWith, match_csl_prefix.
  change "ADDIN ZOTERO_ITEM CSL_CITATION"
    with ("ADDIN " +:+ "ZOTERO_ITEM " +:+ "CSL_CITATION").
  change "ADDIN CSL_CITATION" with ("ADDIN " +:+ "CSL_CITATION").
  change "ZOTERO_ITEM CSL_CITATION" with ("ZOTERO_ITEM " +:+ "CSL_CITATION").
  rewrite !strip_prefix_sapp.
  destruct (strip_prefix "ADDIN " field) as [s1|] eqn:H1; cbn [mbind option_bind].
  - apply strip_prefix_Some in H1 as ->.
    change (strip_prefix "ZOTERO_ITEM " ("ADDIN " +:+ s1)) with (@None string).
    change (strip_prefix "CSL_CITATION" ("ADDIN " +:+ s1)) with (@None string).
    cbn [mbind option_bind]. rewrite !orb_false_r, strip_prefix_sapp.
    destruct (strip_prefix "ZOTERO_ITEM " s1) as [s2|] eqn:H2; cbn [mbind option_bind].
    + apply strip_prefix_Some in H2 as ->.
      change (strip_prefix "CSL_CITATION" ("ZOTERO_ITEM " +:+ s2)) with (@None string).
      done.
    + by rewrite orb_false_r.
  - destruct (strip_prefix "ZOTERO_ITEM " field) as [s2|] eqn:H2; cbn [mbind option_bind].
    + apply strip_prefix_Some in H2 as ->.
      change (strip_prefix "CSL_CITATION" ("ZOTERO_ITEM " +:+ s2)) with (@None string).
      by rewrite orb_false_r.
    + done.
Qed.

(** *** The hash after the payload *)

Lemma rev_app_acc s : forall acc,
  String.rev_app s acc = String.rev_app s EmptyString +:+ acc.
Proof.
  induction s as [|c s IH]; intros acc; [done|]. cbn [String.rev_app].
  rewrite (IH (String c acc)), (IH (String c EmptyString)). by rewrite sapp_assoc.
Qed.

Lemma rev_cons c s : String.rev (String c s) = String.rev s +:+ String c EmptyString.
Proof. unfold String.rev. cbn [String.rev_app]. apply rev_app_acc. Qed.

Lemma rev_sapp a b : String.rev (a +:+ b) = String.rev b +:+ String.rev a.
Proof.
  induction a as [|c a IH].
  - by rewrite sapp_nil_l, sapp_nil_r.
  - by rewrite sapp_cons, !rev_cons, IH, sapp_assoc.
Qed.

Lemma rev_rev s : String.rev (String.rev s) = s.
Proof.
  induction s as [|c s IH]; [done|]. by rewrite rev_cons, rev_sapp, IH.
Qed.

Lemma all_rev f s : all f (String.rev s) = all f s.
Proof.
  induction s as [|c s IH]; [done|]. rewrite rev_cons, all_app, IH. simpl.
  rewrite andb_true_r. apply andb_comm.
Qed.

Lemma rev_empty s : String.rev s = EmptyString -> s = EmptyString.
Proof. intros H. by rewrite <- (rev_rev s), H. Qed.

(** The span of a class goes through a prefix that is in the class. *)
Lemma span_through f a b :
  all f a = true -> span f (a +:+ b) = ((a +:+ (span f b).1), (span f b).2).
Proof.
  induction a as [|c a IH]; intros Ha.
  - rewrite !sapp_nil_l. by destruct (span f b).
  - simpl in Ha. apply andb_true_iff in Ha as [Hc Ha]. rewrite sapp_cons. simpl.
    rewrite Hc, (IH Ha). done.
Qed.

Lemma existsb_sapp f a b :
  existsb f (list_ascii_of_string (a +:+ b))
  = existsb f (list_ascii_of_string a) || existsb f (list_ascii_of_string b).
Proof.
  induction a as [|c a IH]; [done|]. rewrite sapp_cons. simpl.
  by rewrite IH, orb_assoc.
Qed.

Definition no_line_terminator (c : ascii) : bool := negb (is_line_terminator c).

(** X9. A payload in braces that is followed by a space and an alphanumeric
    hash is cut back to the payload: whatever precedes the opening brace,
    when the text between the braces is not empty and has no line break,
    [parseField] gives [JSON.parse] the text up to the closing brace.  A
    text that ends with a closing brace is left as it is. *)
Theorem strip_hash_removes_hash (pre body hash : string) :
  body <> EmptyString -> all no_line_terminator body = true ->
  hash <> EmptyString -> all is_alnum hash = true ->
  strip_hash (pre +:+ "{" +:+ body +:+ "} " +:+ hash) = pre +:+ "{" +:+ body +:+ "}"
  /\ strip_hash (pre +:+ "}") = pre +:+ "}".
Proof.
  intros Hbody Hline Hhash Halnum. split.
  - assert (String.rev (pre +:+ "{" +:+ body +:+ "} " +:+ hash)
            = String.rev hash
              +:+ String " " (String "}" ((String.rev body +:+ "{") +:+ String.rev pre)))
      as Hrev.
    { rewrite !rev_sapp. change (String.rev "} ") with (String " " (String "}" EmptyString)).
      change (String.rev "{") with "{". by rewrite !sapp_assoc. }
    unfold strip_hash. rewrite Hrev.
    rewrite (span_app is_alnum (String.rev hash)); [|by rewrite all_rev|done].
    destruct (String.rev hash) as [|h hs] eqn:Hh; [by apply rev_empty in Hh|].
    fold no_line_terminator.
    rewrite (span_through no_line_terminator (String.rev body +:+ "{"));
      [|by rewrite all_app, all_rev, Hline].
    destruct (String.rev body) as [|b bs] eqn:Hb; [by apply rev_empty in Hb|].
    rewrite !sapp_cons. cbn [fst].
    rewrite !existsb_sapp.
    change (existsb (Ascii.eqb "{") (list_ascii_of_string "{")) with true.
    rewrite orb_true_r. cbn [orb].
    rewrite <- !sapp_cons, <- Hb.
    change (String "}" ((String.rev body +:+ "{") +:+ String.rev pre))
      with ("}" +:+ (String.rev body +:+ "{") +:+ String.rev pre).
    rewrite !rev_sapp, !rev_rev. change (String.rev "{") with "{".
    by rewrite rev_cons, rev_rev.
  - unfold strip_hash. rewrite rev_sapp. done.
Qed.

Lemma strip_hash_removes_hash_witness :
  strip_hash "{[1]} Ab3dE" = "{[1]}".
Proof.
  apply (strip_hash_removes_hash EmptyString "[1]" "Ab3dE"); done.
Defined.

(** *** Where an entry comes from *)

Section WithJsonParse.
Variable JSON_parse : string -> result json.

Lemma citeEntry_Some field fieldIndex citeIndex cite e :
  citeEntry field fieldIndex citeIndex cite = Some e ->
  e = JObj (set "_originalField" (JStr field)
             (set "_citeIndex" (JNum (Z.of_nat citeIndex))
               (set "_fieldIndex" (JNum (Z.of_nat fieldIndex)) (spread cite)))).
Proof.
  unfold citeEntry. destruct (truthy (Some cite) && typeof_object cite); [|done].
  by intros [= <-].
Qed.

Lemma parseField_entries field fieldIndex citations e :
  parseField JSON_parse field fieldIndex = Ok citations ->
  e ∈ citations ->
  exists text fieldObject citationItems citeIndex cite,
    payload field = Some text
    /\ JSON_parse text = Ok fieldObject
    /\ prop "citationItems" fieldObject = Some (JArr citationItems)
    /\ citationItems !! citeIndex = Some cite
    /\ citeEntry field fieldIndex citeIndex cite = Some e.
Proof.
  unfold parseField, parseField_try, payload.
  destruct (match_csl_prefix field) as [rest|]; cbn [try_catch].
  2:{ intros [= <-] He. by apply elem_of_nil in He. }
  destruct (is_empty (strip_hash (trim rest))).
  { intros [= <-] He. by apply elem_of_nil in He. }
  destruct (JSON_parse (strip_hash (trim rest))) as [fieldObject|err] eqn:Hparse;
    cbn [mbind result_bind try_catch].
  2:{ intros [= <-] He. by apply elem_of_nil in He. }
  destruct (negb (truthy (Some fieldObject)) || negb (typeof_object fieldObject));
    cbn [try_catch].
  { intros [= <-] He. by apply elem_of_nil in He. }
  destruct (prop "citationItems" fieldObject) as [[| | | |citationItems|]|] eqn:Hitems;
    cbn [try_catch]; try (intros [= <-] He; by apply elem_of_nil in He).
  intros [= <-] He.
  apply list_elem_of_omap in He as (x & Hx & Hid). simpl in Hid. subst x.
  apply elem_of_lookup_imap in Hx as (citeIndex & cite & Hce & Hcite).
  by exists (strip_hash (trim rest)), fieldObject, citationItems, citeIndex, cite.
Qed.

End WithJsonParse.

(** X10. Every entry that [parseFields] returns is an item of the
    [citationItems] array of the payload of one of the fields, copied, with
    the position of the field, the position of the item in the array and
    the text of the field written into [_fieldIndex], [_citeIndex] and
    [_originalField]; every other property is the item's. *)
Theorem parsed_entries_carry_provenance (JSON_parse : string -> result json)
  (fields : list string) (e : json) :
  e ∈ parseFields JSON_parse fields ->
  exists fieldIndex field text fieldObject citationItems citeIndex cite,
    fields !! fieldIndex = Some field
    /\ payload field = Some text
    /\ JSON_parse text = Ok fieldObject
    /\ prop "citationItems" fieldObject = Some (JArr citationItems)
    /\ citationItems !! citeIndex = Some cite
    /\ prop "_fieldIndex" e = Some (JNum (Z.of_nat fieldIndex))
    /\ prop "_citeIndex" e = Some (JNum (Z.of_nat citeIndex))
    /\ prop "_originalField" e = Some (JStr field)
    /\ forall k, k <> "_fieldIndex" -> k <> "_citeIndex" -> k <> "_originalField" ->
                 prop k e = get k (spread cite).
Proof.
  unfold parseFields. intros He.
  apply list_elem_of_In, in_concat in He as (l & Hl & He).
  apply list_elem_of_In, elem_of_lookup_imap in Hl as (fieldIndex & field & -> & Hfield).
  apply list_elem_of_In in He.
  destruct (parseField JSON_parse field fieldIndex) as [citations|err] eqn:Hp;
    [|by apply elem_of_nil in He].
  destruct (parseField_entries _ _ _ _ _ Hp He)
    as (text & fieldObject & citationItems & citeIndex & cite & Ht & Hparse & Hitems & Hcite & Hce).
  exists fieldIndex, field, text, fieldObject, citationItems, citeIndex, cite.
  apply citeEntry_Some in Hce as ->. cbn [prop].
  repeat (split; [done|]). split; [|split; [|split]].
  - rewrite !FormatterSpec.get_set_ne by done. apply FormatterFacts.get_set_same.
  - rewrite FormatterSpec.get_set_ne by done. apply FormatterFacts.get_set_same.
  - apply FormatterFacts.get_set_same.
  - intros k H1 H2 H3. by rewrite !FormatterSpec.get_set_ne.
Qed.

(** A field that ends with a hash, and a parser that knows its payload. *)
Definition demoPayload : json :=
  JObj [("citationItems", JArr [JObj [("id", JNum 7)]])].

Definition demoField : string :=
  "ADDIN ZOTERO_ITEM CSL_CITATION " +:+ stringify EmptyString demoPayload +:+ " Ab3dE".

Definition demoParse (text : string) : result json :=
  if String.eqb text (stringify EmptyString demoPayload) then Ok demoPayload
  else Throw "SyntaxError".

Lemma parsed_entries_carry_provenance_witness :
  exists e,
    parseFields demoParse ["ADDIN EN.CITE"; demoField] = [e]
    /\ prop "_fieldIndex" e = Some (JNum 1)
    /\ prop "_citeIndex" e = Some (JNum 0)
    /\ prop "_originalField" e = Some (JStr demoField)
    /\ prop "id" e = Some (JNum 7).
Proof.
  eexists. split; [by vm_compute|].
  destruct (parsed_entries_carry_provenance demoParse ["ADDIN EN.CITE"; demoField]
              (JObj [("id", JNum 7); ("_fieldIndex", JNum 1); ("_citeIndex", JNum 0);
                     ("_originalField", JStr demoField)]))
    as (i & f & t & o & items & ci & c & _); [|by vm_compute].
  vm_compute. apply list_elem_of_here.
Defined.

End ParserFacts.
(** ** More on the field extractor *)

Module ExtractorFacts.
Import JsString Json FieldExtractor Config FieldExtractorApi StringFacts FieldExtractorSpec.

(** *** Trimming *)

Lemma trimEnd_trimEnd s : trimEnd (trimEnd s) = trimEnd s.
Proof.
  induction s as [|c s IH]; [done|]. cbn [trimEnd].
  destruct (is_ws c && is_empty (trimEnd s)) eqn:Hc; [done|].
  cbn [trimEnd]. by rewrite IH, Hc.
Qed.

Lemma trimStart_stops s : stops is_ws (trimStart s) = true.
Proof.
  induction s as [|c s IH]; [done|]. cbn [trimStart].
  destruct (is_ws c) eqn:Hc; [done|]. simpl. by rewrite Hc.
Qed.

Lemma trimStart_trimEnd s : stops is_ws s = true -> trimStart (trimEnd s) = trimEnd s.
Proof.
  destruct s as [|c s]; [done|]. simpl. intros Hc%negb_true_iff.
  rewrite Hc. simpl. by rewrite Hc.
Qed.

Lemma trim_trim s : trim (trim s) = trim s.
Proof.
  unfold trim. rewrite (trimStart_trimEnd _ (trimStart_stops s)). apply trimEnd_trimEnd.
Qed.

(** *** unescapeXmlEntities *)

(** The escaping that the preferences of an OpenDocument file went through:
    each of the five characters is written as its entity. *)
Definition escapeChar (c : ascii) : string :=
  if Ascii.eqb c DQUOTE then "&quot;"
  else if Ascii.eqb c "<" then "&lt;"
  else if Ascii.eqb c ">" then "&gt;"
  else if Ascii.eqb c "&" then "&amp;"
  else if Ascii.eqb c "'" then "&apos;"
  else String c EmptyString.

Fixpoint escapeXml (s : string) : string :=
  match s with
  | EmptyString => EmptyString
  | String c s' => escapeChar c +:+ escapeXml s'
  end.

Lemma unescape_skip (t : string) : forall r,
  unescape_from (String.length t) (t +:+ r) = unescape_from 0 r.
Proof.
  induction t as [|c t IH]; intros r; simpl.
  - rewrite sapp_nil_l. by destruct r.
  - apply IH.
Qed.

Lemma unescape_plain c r :
  Ascii.eqb c "&" = false ->
  unescape_from 0 (String c r) = String c (unescape_from 0 r).
Proof.
  intros Hc. cbn [unescape_from]. unfold match_entity, startsWith. cbn [strip_prefix].
  rewrite Ascii.eqb_sym in Hc. by rewrite Hc.
Qed.

(** X11. [unescapeXmlEntities] replaces each of the five entities by its
    character in a single pass over the text: applied to a text in which
    the five characters were written as entities, it gives the text back;
    in particular an escaped ampersand followed by "lt;" gives "&lt;", not
    "<". *)
Theorem unescape_undoes_escape (s : string) :
  unescapeXmlEntities (escapeXml s) = s.
Proof.
  unfold unescapeXmlEntities. induction s as [|c s IH]; [done|].
  cbn [escapeXml]. unfold escapeChar.
  destruct (Ascii.eqb_spec c DQUOTE) as [->|H1].
  { change (unescape_from 0 ("&quot;" +:+ escapeXml s))
      with (String DQUOTE (unescape_from (String.length "quot;") ("quot;" +:+ escapeXml s))).
    by rewrite unescape_skip, IH. }
  destruct (Ascii.eqb_spec c "<") as [->|H2].
  { change (unescape_from 0 ("&lt;" +:+ escapeXml s))
      with (String "<" (unescape_from (String.length "lt;") ("lt;" +:+ escapeXml s))).
    by rewrite unescape_skip, IH. }
  destruct (Ascii.eqb_spec c ">") as [->|H3].
  { change (unescape_from 0 ("&gt;" +:+ escapeXml s))
      with (String ">" (unescape_from (String.length "gt;") ("gt;" +:+ escapeXml s))).
    by rewrite unescape_skip, IH. }
  destruct (Ascii.eqb_spec c "&") as [->|H4].
  { change (unescape_from 0 ("&amp;" +:+ escapeXml s))
      with (String "&" (unescape_from (String.length "amp;") ("amp;" +:+ escapeXml s))).
    by rewrite unescape_skip, IH. }
  destruct (Ascii.eqb_spec c "'") as [->|H5].
  { change (unescape_from 0 ("&apos;" +:+ escapeXml s))
      with (String "'" (unescape_from (String.length "apos;") ("apos;" +:+ escapeXml s))).
    by rewrite unescape_skip, IH. }
  rewrite sapp_cons, sapp_nil_l, unescape_plain, IH; [done|].
  by destruct (Ascii.eqb_spec c "&").
Qed.

(** *** The public extractFields *)

(** What a content file contributes. *)
Definition fieldsOf (documentType : string) (content : contentFile) : list string :=
  match (if String.eqb documentType OFFICE_OPEN_XML
         then extractOfficeOpenXml else extractOpenDocumentFields) content with
  | Ok fields => fields
  | Throw _ => []
  end.

Lemma extractFields_concat contentFiles documentType :
  extractFields contentFiles documentType
  = concat (map (fieldsOf documentType) contentFiles).
Proof.
  unfold extractFields.
  assert (forall acc,
            foldl (fun allFields content =>
                     match (if String.eqb documentType OFFICE_OPEN_XML
                            then extractOfficeOpenXml else extractOpenDocumentFields) content with
                     | Ok fields => allFields ++ fields
                     | Throw _ => allFields
                     end) acc contentFiles
            = acc ++ concat (map (fieldsOf documentType) contentFiles)) as H.
  { induction contentFiles as [|c cs IH]; intros acc; simpl.
    - by rewrite app_nil_r.
    - rewrite IH. unfold fieldsOf at 2.
      destruct (if String.eqb documentType OFFICE_OPEN_XML
                then extractOfficeOpenXml else extractOpenDocumentFields) as [fs|e]; simpl.
      + by rewrite app_assoc.
      + done. }
  apply (H []).
Qed.

Lemma complexField_trimmed start :
  trim (extractComplexFieldContent start).1 = (extractComplexFieldContent start).1.
Proof.
  unfold extractComplexFieldContent. destruct start as [siblings|]; [|done].
  destruct (walkSiblings siblings 0 EmptyString []) as [[text n] log]. simpl.
  apply trim_trim.
Qed.

Lemma fieldsOf_trimmed documentType content f :
  f ∈ fieldsOf documentType content -> trim f = f /\ f <> EmptyString.
Proof.
  unfold fieldsOf. destruct (String.eqb documentType OFFICE_OPEN_XML).
  - unfold extractOfficeOpenXml, extractOfficeOpenXmlFields.
    destruct content as [dom|e]; cbn [mbind result_bind]; [|by intros ?%elem_of_nil].
    rewrite extractFields_filter. cbn [app].
    intros [(start & -> & _)%list_elem_of_fmap Hraw]%DedupSpec.elem_of_filter_bool.
    split; [apply complexField_trimmed|].
    unfold isRawField in Hraw. by destruct (extractComplexFieldContent start).1.
  - unfold extractOpenDocumentFields.
    destruct content as [dom|e]; cbn [mbind result_bind]; [|by intros ?%elem_of_nil].
    intros (nameAttribute & _ & Hf)%list_elem_of_omap.
    unfold referenceMarkField in Hf. destruct nameAttribute as [name|]; [|done].
    destruct (negb (is_empty name)); [|done]. cbn [andb] in Hf.
    destruct (is_empty (trim name)) eqn:Hblank; [done|]. cbn [negb] in Hf.
    injection Hf as <-. split; [apply trim_trim|]. by destruct (trim name).
Qed.

(** X12. The public [extractFields] returns the fields of the content files
    one file after the other; a file whose markup does not parse
    contributes nothing and does not stop the others; and every field it
    returns is a trimmed, non-empty text.  Any document type other than
    OfficeOpenXML is read as OpenDocument. *)
Theorem extractFields_file_by_file (before after : list contentFile) (e : string)
  (documentType : string) :
  extractFields (before ++ after) documentType
  = extractFields before documentType ++ extractFields after documentType
  /\ extractFields (before ++ Throw e :: after) documentType
     = extractFields before documentType ++ extractFields after documentType
  /\ (forall f, f ∈ extractFields (before ++ after) documentType ->
        trim f = f /\ f <> EmptyString)
  /\ (documentType <> OFFICE_OPEN_XML ->
      extractFields (before ++ after) documentType
      = extractFields (before ++ after) OPEN_DOCUMENT).
Proof.
  rewrite !extractFields_concat, !map_app, !concat_app. split; [done|].
  assert (fieldsOf documentType (Throw e) = []) as Hbad
    by (unfold fieldsOf; by destruct (String.eqb documentType OFFICE_OPEN_XML)).
  split; [cbn [map concat]; by rewrite Hbad|].
  split.
  - rewrite <- concat_app, <- map_app. intros f Hf.
    apply list_elem_of_In, in_concat in Hf as (l & Hl & Hf).
    apply in_map_iff in Hl as (content & <- & _).
    apply list_elem_of_In in Hf. by eapply fieldsOf_trimmed.
  - intros Hne. rewrite <- !concat_app, <- !map_app. f_equal. apply map_ext.
    intros content. unfold fieldsOf.
    destruct (String.eqb_spec documentType OFFICE_OPEN_XML); done.
Qed.

(** *** validateFields *)

Lemma forEach_from_app {A St : Type} (f : St -> nat -> A -> St) (l1 l2 : list A) : forall i s,
  forEach_from f i (l1 ++ l2) s = forEach_from f (i + length l1) l2 (forEach_from f i l1 s).
Proof.
  induction l1 as [|x l1 IH]; intros i s; simpl.
  - by rewrite Nat.add_0_r.
  - rewrite IH. f_equal. lia.
Qed.

Definition isString (v : json) : bool :=
  match v with JStr _ => true | _ => false end.

(** The trimmed fields with a recognized prefix. *)
Definition recognized (fields : list json) : list string :=
  omap (fun v => match v with
                 | JStr s => if CSL_GENERAL (trim s) then Some (trim s) else None
                 | _ => None
                 end) fields.

Lemma CSL_GENERAL_empty : CSL_GENERAL EmptyString = false.
Proof. reflexivity. Qed.

Lemma recognized_cons s fields :
  recognized (JStr s :: fields)
  = if CSL_GENERAL (trim s) then trim s :: recognized fields else recognized fields.
Proof. unfold recognized. simpl. by destruct (CSL_GENERAL (trim s)). Qed.

Lemma validateFields_loop fields : forall i validFields warnings errors,
  exists warnings' errors',
    forEach_from validateField i fields (validFields, warnings, errors)
    = (validFields ++ recognized fields, warnings ++ warnings', errors ++ errors')
    /\ length (recognized fields) + length warnings' + length errors' = length fields
    /\ length errors' = length (List.filter (fun v => negb (isString v)) fields).
Proof.
  induction fields as [|v fields IH]; intros i validFields warnings errors.
  - exists [], []. by rewrite !app_nil_r.
  - cbn [forEach_from]. unfold validateField at 2.
    assert (isString v = false ->
            exists warnings' errors',
              forEach_from validateField (S i) fields
                (validFields, warnings,
                 errors ++ ["Field " +:+ dec (i + 1) +:+ " is not a string"])
              = (validFields ++ recognized (v :: fields), warnings ++ warnings',
                 errors ++ errors')
              /\ length (recognized (v :: fields)) + length warnings' + length errors'
                 = length (v :: fields)
              /\ length errors'
                 = length (List.filter (fun v => negb (isString v)) (v :: fields))) as Hother.
    { intros Hv.
      destruct (IH (S i) validFields warnings
                  (errors ++ ["Field " +:+ dec (i + 1) +:+ " is not a string"]))
        as (w & e & -> & Hlen & Herr).
      exists w, (("Field " +:+ dec (i + 1) +:+ " is not a string") :: e).
      rewrite <- app_assoc. cbn [List.filter]. rewrite Hv. cbn [negb length app].
      assert (recognized (v :: fields) = recognized fields) as -> by (by destruct v).
      split; [done|]. split; simpl; lia. }
    destruct v as [|b|n|s|l|fs]; try (by apply Hother). clear Hother.
    rewrite recognized_cons. cbn [List.filter isString negb length].
    destruct (is_empty (trim s)) eqn:Hempty.
    + destruct (IH (S i) validFields
                  (warnings ++ ["Field " +:+ dec (i + 1) +:+ " is empty"]) errors)
        as (w & e & -> & Hlen & Herr).
      exists (("Field " +:+ dec (i + 1) +:+ " is empty") :: w), e.
      rewrite <- app_assoc. apply is_empty_true in Hempty.
      rewrite Hempty, CSL_GENERAL_empty. split; [done|]. split; simpl; lia.
    + destruct (CSL_GENERAL (trim s)) eqn:Hcsl.
      * destruct (IH (S i) (validFields ++ [trim s]) warnings errors)
          as (w & e & -> & Hlen & Herr).
        exists w, e. rewrite <- app_assoc. split; [done|]. split; simpl; lia.
      * destruct (IH (S i) validFields
                    (warnings ++ ["Field " +:+ dec (i + 1)
                                  +:+ " does not match CSL citation pattern"]) errors)
          as (w & e & -> & Hlen & Herr).
        exists (("Field " +:+ dec (i + 1) +:+ " does not match CSL citation pattern") :: w), e.
        rewrite <- app_assoc. split; [done|]. split; simpl; lia.
Qed.

Lemma recognized_trimmed strs :
  (forall s, s ∈ strs -> trim s = s) ->
  recognized (map JStr strs) = List.filter CSL_GENERAL strs.
Proof.
  induction strs as [|s strs IH]; intros H; [done|]. simpl.
  rewrite (H s); [|apply list_elem_of_here].
  rewrite <- IH; [|intros x Hx; apply H; by apply list_elem_of_further].
  by destruct (CSL_GENERAL s).
Qed.

(** X13. [validateFields] puts every field into one of three bins: the
    numbers of valid, invalid and suspicious fields add up to the total.
    The result is valid exactly when every field is a string.  The valid
    fields are the trimmed texts that the general prefix pattern accepts,
    in their order; on fields that are trimmed already, as the extractor
    returns them, they are the fields whose prefix [parseField]
    recognizes. *)
Theorem validateFields_bins (fields : list json) :
  fv_total (validateFields fields)
  = fv_valid (validateFields fields) + fv_invalid (validateFields fields)
    + fv_suspicious (validateFields fields)
  /\ (fv_isValid (validateFields fields) = true <-> Forall (fun v => isString v = true) fields)
  /\ fv_validFields (validateFields fields) = recognized fields
  /\ forall strs, fields = map JStr strs -> (forall s, s ∈ strs -> trim s = s) ->
       fv_validFields (validateFields fields)
       = List.filter (fun field => bool_decide (Parser.match_csl_prefix field <> None)) strs.
Proof.
  unfold validateFields, forEach.
  destruct (validateFields_loop fields 0 [] [] []) as (w & e & -> & Hlen & Herr).
  cbn [app fv_total fv_valid fv_invalid fv_suspicious fv_isValid fv_validFields].
  split; [lia|]. split; [|split; [done|]].
  - rewrite bool_decide_eq_true, Herr. clear. induction fields as [|v fields IH]; simpl.
    + split; [constructor|done].
    + destruct (isString v) eqn:Hv; simpl.
      * rewrite IH. split; [by constructor|by inversion 1].
      * split; [done|]. inversion 1; congruence.
  - intros strs -> Htrim. rewrite (recognized_trimmed _ Htrim).
    apply DedupSpec.filter_agree. intros s _. unfold CSL_GENERAL.
    by destruct (Parser.match_csl_prefix s).
Qed.

Lemma validateFields_bins_witness :
  fv_validFields (validateFields [JStr "ADDIN CSL_CITATION {}"; JStr "ADDIN EN.CITE"])
  = ["ADDIN CSL_CITATION {}"].
Proof.
  destruct (validateFields_bins [JStr "ADDIN CSL_CITATION {}"; JStr "ADDIN EN.CITE"])
    as (_ & _ & _ & H).
  rewrite (H ["ADDIN CSL_CITATION {}"; "ADDIN EN.CITE"]); [done|done|].
  intros s Hs. repeat (apply elem_of_cons in Hs as [->|Hs]; [done|]).
  by apply elem_of_nil in Hs.
Defined.

End ExtractorFacts.
(** ** More on the deduplication *)

Module ClusterFacts.
Import JsString Json Dedup DedupSpec.

Lemma length_concat_members (out : list dedupEntry) :
  (forall c, c ∈ out -> count c = length (members c)) ->
  length (concat (map members out)) = sum_list (map count out).
Proof.
  induction out as [|c out IH]; intros H; simpl; [done|].
  rewrite length_app, IH, (H c); [done|apply list_elem_of_here|].
  intros x Hx. apply H. by apply list_elem_of_further.
Qed.

Lemma elem_of_concat_members (out : list dedupEntry) c p :
  c ∈ out -> p ∈ members c -> p ∈ concat (map members out).
Proof.
  intros Hc Hp. induction out as [|x out IH]; [by apply elem_of_nil in Hc|].
  simpl. apply elem_of_app. apply elem_of_cons in Hc as [<-|Hc]; [by left|].
  right. by apply IH.
Qed.

(** X14. The clusters that [performDeduplication] returns for the normalized
    array split the positions of the input: listed one cluster after the
    other, their members are the positions 0, ..., n-1, each one once. *)
Theorem clusters_partition_positions (cs : list citation) (h : store) :
  exists arr,
    normalizeUris (deduplicationArray_of cs) = Some arr
    /\ concat (map members (performDeduplication arr h).1) ≡ₚ seq 0 (length cs).
Proof.
  destruct (normalizeUris_spec cs) as (arr & Hnorm & Hn).
  pose proof (normalized_clustering cs arr h Hn) as Hcl.
  pose proof (normalized_length _ _ Hn) as Hlen.
  exists arr. split; [done|]. symmetry.
  apply submseteq_length_Permutation.
  - apply NoDup_submseteq; [apply NoDup_seq|].
    intros p [_ Hp]%elem_of_seq. simpl in Hp. rewrite <- Hlen in Hp.
    destruct (lookup_lt_is_Some_2 _ _ Hp) as [ep Hep].
    destruct (cl_cover _ _ _ _ Hcl p ep Hep) as (c & Hc & Hpc & _).
    by eapply elem_of_concat_members.
  - rewrite length_concat_members.
    + rewrite (cl_sum _ _ _ _ Hcl), length_seq. lia.
    + intros c Hc. by apply (cluster_count_members arr h).
Qed.

(** X15. The identifiers of a deduplicated entry are those of the members of
    its cluster, and no other. *)
Theorem result_uris_are_member_uris (cs : list citation) (h : store) :
  exists res hf,
    deduplicateCitations cs h = Some (res, hf)
    /\ forall r, r ∈ res ->
       forall u, u ∈ r_uris r
                 <-> exists q cq, q ∈ _indices r /\ cs !! q = Some cq /\ u ∈ c_uris cq.
Proof.
  destruct (normalizeUris_spec cs) as (arr & Hnorm & Hn).
  pose proof (normalized_clustering cs arr h Hn) as Hcl.
  pose proof (normalized_length _ _ Hn) as Hlen.
  assert (forall k e, arr !! k = Some e -> index e = k) as Hidx.
  { intros k e He. by destruct (normalized_index _ _ _ _ Hn He) as (? & _ & _ & ? & _). }
  exists (results (performDeduplication arr h).1), (performDeduplication arr h).2.
  split; [by apply deduplicateCitations_unfold|].
  intros r (c & -> & [Hc _]%elem_of_filter_bool)%list_elem_of_fmap u.
  cbn [r_uris _indices toResult].
  destruct (cl_head _ _ _ _ Hcl c Hc) as (e0 & He0 & Hshape & Hh & _).
  pose proof (members_head arr c e0 Hshape He0 Hh) as Hmem.
  destruct Hshape as (_ & Huris & _).
  destruct (normalized_index _ _ _ _ Hn He0) as (first & Hfirst & _ & _ & _ & _ & Hsub & _).
  split.
  - intros Hu. rewrite Huris in Hu.
    destruct Hn as [[Hl Hinv] Hclosed].
    destruct (entryInv_reachable _ _ _ _ (Hinv _ _ He0) Hu) as (b & cb & Hkb & Hcb & Hub).
    exists b, cb. split; [|done]. rewrite Hmem.
    destruct (uris e0) as [|uri tl] eqn:Hu0; [by apply elem_of_nil in Hu|].
    apply (elem_of_members_cluster arr Hidx).
    assert (b < length arr) as Hb by (rewrite Hl; by eapply lookup_lt_Some).
    destruct (lookup_lt_is_Some_2 _ _ Hb) as [eb Heb].
    exists eb. split; [done|].
    apply (normalized_complete cs arr (index c) b e0 eb); try done.
    rewrite Hu0. apply list_elem_of_here.
  - intros (q & cq & Hq & Hcq & Hu). rewrite Huris. rewrite Hmem in Hq.
    destruct (uris e0) as [|uri tl] eqn:Hu0.
    + apply list_elem_of_singleton in Hq as ->.
      assert (cq = first) as -> by congruence. by apply Hsub in Hu.
    + apply (elem_of_members_cluster arr Hidx) in Hq as (eq & Heq & Huri).
      destruct (normalized_index _ _ _ _ Hn Heq) as (cq' & Hcq' & _ & _ & _ & _ & Hsubq & _).
      assert (cq' = cq) as -> by congruence.
      rewrite <- Hu0.
      apply (normalized_complete cs arr q (index c) eq e0); try done.
      * apply (normalized_sound cs arr q (index c) eq e0 uri); try done.
        rewrite Hu0. apply list_elem_of_here.
      * by apply Hsubq.
Qed.

(** *** Entries without identifiers *)

Lemma foldl_reannotate_none (cs : list citation) : forall h,
  (forall c, c ∈ cs -> c_uris c = []) -> foldl reannotate h cs = h.
Proof.
  induction cs as [|c cs IH]; intros h H; simpl; [done|].
  unfold reannotate at 2. rewrite (H c); [|apply list_elem_of_here].
  apply IH. intros x Hx. apply H. by apply list_elem_of_further.
Qed.

(** X16. When no entry has identifiers, nothing is merged and nothing is
    counted: the store stays as it is (no record gets a count line), and
    every deduplicated entry stands for one entry of the input, with count
    1. *)
Theorem entries_without_uris_stay_apart (cs : list citation) (h : store) :
  (forall c, c ∈ cs -> c_uris c = []) ->
  exists res,
    deduplicateCitations cs h = Some (res, h)
    /\ forall r, r ∈ res ->
       _count r = 1 /\ r_uris r = []
       /\ exists k c, _indices r = [k] /\ cs !! k = Some c /\ itemData r = c_itemData c.
Proof.
  intros Hnone.
  assert (disjointUris cs) as Hd.
  { intros a b ca cb u Ha Hb Hua _. rewrite (Hnone ca) in Hua.
    - by apply elem_of_nil in Hua.
    - by eapply list_elem_of_lookup_2. }
  destruct (normalizeUris_spec cs) as (arr & Hnorm & Hn).
  rewrite (deduplicateCitations_unfold cs h arr Hnorm Hn).
  rewrite (disjoint_normalized cs arr Hd Hn), (disjoint_clusters cs h Hd).
  cbn [fst snd]. rewrite (foldl_reannotate_none cs h Hnone).
  eexists. split; [done|].
  intros r (e & -> & [(k & c & -> & Hc)%elem_of_lookup_imap_1 _]%elem_of_filter_bool)%list_elem_of_fmap.
  assert (c_uris c = []) as Hu by (apply Hnone; by eapply list_elem_of_lookup_2).
  unfold toResult, ownEntry, members. cbn. rewrite Hu. cbn.
  split; [done|]. split; [done|]. by exists k, c.
Qed.

Lemma entries_without_uris_stay_apart_witness :
  let cs := [mkCitation [] (Some 0) 0 0; mkCitation [] None 0 1; mkCitation [] (Some 1) 1 0] in
  let h : store := {[ 0 := [("title", JStr "X")]; 1 := [("title", JStr "X")] ]} in
  exists res,
    deduplicateCitations cs h = Some (res, h)
    /\ forall r, r ∈ res ->
       _count r = 1 /\ r_uris r = []
       /\ exists k c, _indices r = [k] /\ cs !! k = Some c /\ itemData r = c_itemData c.
Proof.
  intros cs h. apply (entries_without_uris_stay_apart cs h).
  intros c Hc. repeat (apply elem_of_cons in Hc as [->|Hc]; [done|]).
  by apply elem_of_nil in Hc.
Defined.

End ClusterFacts.
(** ** The citation processor as a whole *)

Module PipelineFacts.
Import JsString Json Dedup Config CitationApi StringFacts DedupSpec.

(** *** The sizes that processFields reports *)

Lemma materialize_length cites : forall next h cs h',
  Processor.materialize cites next h = Some (cs, h') -> length cs = length cites.
Proof.
  induction cites as [|cite cites IH]; intros next h cs h'; simpl.
  - by intros [= <- _].
  - destruct cite as [| | | | |cite]; try done.
    destruct (Processor.uris_of cite) as [us|]; [|done]. cbn [mbind option_bind].
    destruct (get "itemData" cite) as [[| | | | |o]|]; try done.
    + destruct (Processor.materialize cites next h) as [[cs0 h0]|] eqn:Hm; [|done].
      cbn. intros [= <- _]. simpl. f_equal. by eapply IH.
    + destruct (Processor.materialize cites (S next) (<[next:=o]> h))
        as [[cs0 h0]|] eqn:Hm; [|done].
      cbn. intros [= <- _]. simpl. f_equal. by eapply IH.
    + destruct (Processor.materialize cites next h) as [[cs0 h0]|] eqn:Hm; [|done].
      cbn. intros [= <- _]. simpl. f_equal. by eapply IH.
Qed.

Lemma dedupStep_length st i : length (ds_array (dedupStep st i)) = length (ds_array st).
Proof.
  unfold dedupStep. destruct (ds_array st !! i) as [currentItem|]; [|done].
  destruct (bool_decide _); [done|]. destruct (uris currentItem); [done|].
  cbn [ds_array]. apply length_insert.
Qed.

Lemma dedupLoop_length arr h : length (ds_array (dedupLoop arr h)) = length arr.
Proof.
  unfold dedupLoop. generalize (seq 0 (length arr)). intros todo.
  change arr with (ds_array (mkDedupState arr ∅ h)) at 2.
  generalize (mkDedupState arr ∅ h). induction todo as [|i todo IH]; intros st; [done|].
  simpl. by rewrite IH, dedupStep_length.
Qed.

Lemma deduplicateCitations_length cs h res hf :
  deduplicateCitations cs h = Some (res, hf) -> length res <= length cs.
Proof.
  destruct (normalizeUris_spec cs) as (arr & Hnorm & Hn).
  rewrite (deduplicateCitations_unfold cs h arr Hnorm Hn). intros [= <- _].
  unfold results, performDeduplication. cbn [fst]. rewrite length_map.
  etrans; [apply List.filter_length_le|]. etrans; [apply List.filter_length_le|].
  by rewrite dedupLoop_length, (normalized_length _ _ Hn).
Qed.

Lemma omap_length_le {A B : Type} (f : A -> option B) (l : list A) :
  length (omap f l) <= length l.
Proof.
  induction l as [|x l IH]; [done|]. unfold omap in *. simpl.
  destruct (f x); simpl; lia.
Qed.

Lemma extractMetadata_length dd h : length (extractMetadata dd h) <= length dd.
Proof. apply omap_length_le. Qed.

(** X17. The sizes from which [processFields] computes its statistics never
    go up along the pipeline: there are as many raw citations as entries
    parsed from the fields, at most as many deduplicated entries, and at
    most as many records in the result; hence [duplicatesRemoved] and
    [citesWithoutMetadata] are never negative.  The result is flagged empty
    exactly when it holds no record, and the early return without raw
    citations happens exactly when no entry was parsed. *)
Theorem processFields_sizes (JSON_parse : string -> result json) (fields : list string)
  (res : Processor.processResult) (hf : store) :
  Processor.processFields JSON_parse fields = Some (res, hf) ->
  (Processor.isEmpty res = true <-> Processor.citations res = [])
  /\ match Processor.rawCitations res, Processor.deduplicatedCitations res with
     | Some raw, Some dd =>
         length raw = length (Parser.parseFields JSON_parse fields)
         /\ raw <> []
         /\ length (Processor.citations res) <= length dd
         /\ length dd <= length raw
     | None, None =>
         Parser.parseFields JSON_parse fields = [] /\ Processor.citations res = []
     | _, _ => False
     end.
Proof.
  unfold Processor.processFields.
  destruct (Processor.materialize _ 0 ∅) as [[parsedCitations h0]|] eqn:Hm; [|done].
  cbn [mbind option_bind]. pose proof (materialize_length _ _ _ _ _ Hm) as Hlen.
  destruct parsedCitations as [|c cs].
  - intros [= <- _]. cbn. split; [done|]. split; [|done].
    by destruct (Parser.parseFields JSON_parse fields).
  - destruct (deduplicateCitations (c :: cs) h0) as [[dd h1]|] eqn:Hd; [|done].
    cbn [mbind option_bind]. intros [= <- _].
    cbn [Processor.isEmpty Processor.citations Processor.rawCitations
         Processor.deduplicatedCitations].
    split.
    + rewrite bool_decide_eq_true. by destruct (extractMetadata dd h1).
    + split; [done|]. split; [done|]. split; [apply extractMetadata_length|].
      by eapply deduplicateCitations_length.
Qed.

(** Two citations of one item and a citation of another, and a parser that
    knows the payload. *)
Definition threeItems : json :=
  JObj [("citationItems",
         JArr [JObj [("uris", JArr [JStr "u1"]); ("itemData", JObj [("title", JStr "A")])];
               JObj [("uris", JArr [JStr "u1"]); ("itemData", JObj [("title", JStr "A")])];
               JObj [("uris", JArr [JStr "u2"]); ("itemData", JObj [("id", JNum 3)])]])].

Definition threeItemsField : string :=
  "ADDIN ZOTERO_ITEM CSL_CITATION " +:+ stringify EmptyString threeItems.

Definition threeItemsParse (text : string) : result json :=
  if String.eqb text (stringify EmptyString threeItems) then Ok threeItems
  else Throw "SyntaxError".

Lemma processFields_sizes_witness :
  exists res hf raw dd,
    Processor.processFields threeItemsParse [threeItemsField] = Some (res, hf)
    /\ Processor.rawCitations res = Some raw
    /\ Processor.deduplicatedCitations res = Some dd
    /\ length raw = 3 /\ length dd = 2 /\ length (Processor.citations res) = 1
    /\ length (Processor.citations res) <= length dd <= length raw.
Proof.
  eexists _, _, _, _. split; [by vm_compute|]. split; [by vm_compute|].
  split; [by vm_compute|]. split; [by vm_compute|]. split; [by vm_compute|].
  split; [by vm_compute|].
  match goal with
  | |- length (Processor.citations ?r) <= length ?d <= length ?w =>
      pose proof (processFields_sizes threeItemsParse [threeItemsField] r _ eq_refl) as [_ H]
  end.
  cbn [Processor.rawCitations Processor.deduplicatedCitations] in H. lia.
Defined.

(** *** validateCitations *)





(** *** getCitationStatistics *)







End PipelineFacts.
(** ** The error handler *)

Module ErrorHandlerFacts.
Import JsString ErrorHandler.

Open Scope Z_scope.

Lemma severity_of_code code :
  (getSeverityFromCode code = critical <-> 9000 <= code)
  /\ (getSeverityFromCode code = high <-> 5000 <= code < 9000).
Proof.
  unfold getSeverityFromCode.
  destruct (Z.leb_spec 9000 code); [split; split; (done || lia)|].
  destruct (Z.leb_spec 5000 code); [split; split; (done || lia)|].
  destruct (Z.leb_spec 3000 code); [split; split; (done || lia)|].
  destruct (Z.leb_spec 1000 code); split; split; (done || lia).
Qed.

Lemma category_of_code code :
  match getCategoryFromCode code with
  | file => 1000 <= code <= 1999
  | xml => 2000 <= code <= 2999
  | citation => 3000 <= code <= 3999
  | ui => 4000 <= code <= 4999
  | network => 5000 <= code <= 5999
  | unknown => code < 1000 \/ 6000 <= code
  end.
Proof.
  unfold getCategoryFromCode, ranges, categoryIn.
  repeat match goal with
         | |- context [(?a <=? ?b) && (?c <=? ?d)] =>
             destruct (Z.leb_spec a b); destruct (Z.leb_spec c d); cbn [andb]
         end; lia.
Qed.

(** X20. Whether the user is told about an error depends on its code alone:
    a notification goes out exactly for the codes from 5000 on.  Errors of
    the categories file, xml, citation and ui (codes 1000 to 4999) are
    never shown, network errors always are. *)
Theorem notification_threshold (RefExtractorUI : option uiHooks) (now code : Z)
  (message : string) :
  (is_Some (showUserNotification RefExtractorUI
              (createStandardErrorInternal now code message)) <-> 5000 <= code)
  /\ (getCategoryFromCode code = file \/ getCategoryFromCode code = xml
      \/ getCategoryFromCode code = citation \/ getCategoryFromCode code = ui ->
      showUserNotification RefExtractorUI (createStandardErrorInternal now code message)
      = None)
  /\ (getCategoryFromCode code = network ->
      is_Some (showUserNotification RefExtractorUI
                 (createStandardErrorInternal now code message))).
Proof.
  assert (is_Some (showUserNotification RefExtractorUI
                     (createStandardErrorInternal now code message)) <-> 5000 <= code) as Hiff.
  { unfold showUserNotification, createStandardErrorInternal. cbn [severity userMessage].
    unfold getSeverityFromCode.
    destruct (Z.leb_spec 9000 code).
    { split; [lia|intros _].
      destruct RefExtractorUI as [hooks|]; [destruct (showError hooks)|]; by eexists. }
    destruct (Z.leb_spec 5000 code).
    { split; [lia|intros _].
      destruct RefExtractorUI as [hooks|]; [destruct (showError hooks)|]; by eexists. }
    destruct (Z.leb_spec 3000 code); [split; [by intros [? ?]|lia]|].
    destruct (Z.leb_spec 1000 code); split; (by intros [? ?]) || lia. }
  split; [done|]. pose proof (category_of_code code) as Hcat. split.
  - intros Hlow.
    destruct (showUserNotification _ _) eqn:Hn; [|done].
    assert (5000 <= code) as Hcode by (apply Hiff; by eexists).
    destruct Hlow as [H|[H|[H|H]]]; rewrite H in Hcat; lia.
  - intros Hnet. apply Hiff. rewrite Hnet in Hcat. lia.
Qed.

(** X21. A recovery succeeds only through the interface object: the error
    must be recoverable and of category file or ui, and the method that the
    handler calls for that category (the reset of the page for file errors,
    the rebinding of the events for ui errors) must be there and return.
    Without the interface object no error is ever recovered; a corrupted
    archive (1004), an unsupported file type (1003) and an unknown error
    (9999) never are. *)
Theorem recovery_needs_interface (RefExtractorUI : option uiHooks) (now code : Z)
  (message : string) :
  (attemptRecovery RefExtractorUI (createStandardErrorInternal now code message) = true ->
   exists hooks,
     RefExtractorUI = Some hooks
     /\ code <> 1003 /\ code <> 1004 /\ code <> 9999
     /\ ((1000 <= code <= 1999 /\ resetToInitialState hooks = Some (Ok tt))
         \/ (4000 <= code <= 4999 /\ rebindEvents hooks = Some (Ok tt))))
  /\ attemptRecovery None (createStandardErrorInternal now code message) = false.
Proof.
  unfold attemptRecovery, createStandardErrorInternal. cbn [recoverable category].
  pose proof (category_of_code code) as Hcat. split.
  - destruct (isRecoverableError code) eqn:Hrec; [|done]. cbn [negb].
    assert (code <> 1003 /\ code <> 1004 /\ code <> 9999) as Hcodes.
    { unfold isRecoverableError, nonRecoverableCodes in Hrec. cbn [existsb] in Hrec.
      destruct (Z.eqb_spec code 1004); [done|]. destruct (Z.eqb_spec code 1003); [done|].
      destruct (Z.eqb_spec code 9999); done. }
    destruct (getCategoryFromCode code); try done.
    + unfold recoverFileError. destruct RefExtractorUI as [hooks|]; [|done].
      unfold callHook. destruct (resetToInitialState hooks) as [[[]|]|] eqn:Hhook; try done.
      intros _. exists hooks. split; [done|]. split; [tauto|]. split; [tauto|].
      split; [tauto|]. by left.
    + unfold recoverUiError. destruct RefExtractorUI as [hooks|]; [|done].
      unfold callHook. destruct (rebindEvents hooks) as [[[]|]|] eqn:Hhook; try done.
      intros _. exists hooks. split; [done|]. split; [tauto|]. split; [tauto|].
      split; [tauto|]. by right.
  - destruct (isRecoverableError code); [|done]. by destruct (getCategoryFromCode code).
Qed.

Lemma recovery_needs_interface_witness :
  attemptRecovery (Some (mkUiHooks (Some (Ok tt)) None true))
                  (createStandardErrorInternal 0 1001 "File read error") = true
  /\ attemptRecovery (Some (mkUiHooks (Some (Ok tt)) None true))
                     (createStandardErrorInternal 0 1004 "Corrupted archive") = false.
Proof.
  split; [done|].
  destruct (attemptRecovery (Some (mkUiHooks (Some (Ok tt)) None true))
              (createStandardErrorInternal 0 1004 "Corrupted archive")) eqn:Hr; [|done].
  destruct (proj1 (recovery_needs_interface (Some (mkUiHooks (Some (Ok tt)) None true))
                     0 1004 "Corrupted archive") Hr) as (hooks & _ & _ & Hne & _).
  done.
Defined.

Close Scope Z_scope.

(** *** The history *)

(** X22. [storeError] keeps the history within 50 entries, whatever its
    length was: the error just stored is the last entry, and what is
    dropped is dropped from the old end. *)
Theorem error_history_bounded (e : error) (errorHistory : list error) :
  length (storeError e errorHistory) <= 50
  /\ last (storeError e errorHistory) = Some e
  /\ storeError e errorHistory `suffix_of` errorHistory ++ [e]
  /\ (length errorHistory < 50 -> storeError e errorHistory = errorHistory ++ [e]).
Proof.
  unfold storeError, slice_last, MAX_ERROR_HISTORY. cbv zeta.
  destruct (Nat.ltb_spec 50 (length (errorHistory ++ [e]))) as [Hfull|Hfits].
  - split; [rewrite length_drop; lia|]. split.
    + rewrite length_app in *. cbn [length] in *.
      rewrite drop_app_le by lia. apply last_snoc.
    + split.
      * exists (take (length (errorHistory ++ [e]) - 50) (errorHistory ++ [e])).
        by rewrite take_drop.
      * rewrite length_app in Hfull. cbn [length] in Hfull. lia.
  - split; [done|]. split; [apply last_snoc|]. split; done.
Qed.

(** *** The statistics *)

Definition counted {K : Type} (m : list (K * nat)) : nat := sum_list (map snd m).

Lemma counted_bump {K : Type} (eqb : K -> K -> bool) k (m : list (K * nat)) :
  counted (bump eqb k m) = counted m + 1.
Proof.
  unfold counted. induction m as [|[k' n] m IH]; simpl; [done|].
  destruct (eqb k k'); simpl; [lia|]. rewrite IH. lia.
Qed.

(** X23. The counters of [getErrorStats] add up: the counts by category, the
    counts by severity, and the two counts by recoverability each add up to
    the number of errors in the history, and the number of recent errors
    does not exceed it. *)
Theorem error_stats_add_up (now : Z) (errorHistory : list error) :
  es_total (getErrorStats now errorHistory) = length errorHistory
  /\ counted (byCategory (getErrorStats now errorHistory)) = length errorHistory
  /\ counted (bySeverity (getErrorStats now errorHistory)) = length errorHistory
  /\ byRecoverable_true (getErrorStats now errorHistory)
     + byRecoverable_false (getErrorStats now errorHistory) = length errorHistory
  /\ recent (getErrorStats now errorHistory) <= length errorHistory.
Proof.
  unfold getErrorStats. generalize (now - 60 * 60 * 1000)%Z. intros oneHourAgo.
  assert (forall stats,
            let final := foldl (countError oneHourAgo) stats errorHistory in
            es_total final = es_total stats
            /\ counted (byCategory final) = counted (byCategory stats) + length errorHistory
            /\ counted (bySeverity final) = counted (bySeverity stats) + length errorHistory
            /\ byRecoverable_true final + byRecoverable_false final
               = byRecoverable_true stats + byRecoverable_false stats + length errorHistory
            /\ recent final <= recent stats + length errorHistory) as H.
  { induction errorHistory as [|e errorHistory IH]; intros stats; cbn [foldl length].
    - cbv zeta. lia.
    - destruct (IH (countError oneHourAgo stats e)) as (H1 & H2 & H3 & H4 & H5).
      cbv zeta. rewrite H1, H2, H3, H4. unfold countError at 1 2 3 4 5.
      cbn [es_total byCategory bySeverity byRecoverable_true byRecoverable_false].
      rewrite !counted_bump. split; [done|]. split; [lia|]. split; [lia|]. split.
      + destruct (recoverable e); lia.
      + etrans; [exact H5|]. unfold countError. cbn [recent].
        destruct (oneHourAgo <? timestamp e)%Z; lia. }
  destruct (H (mkErrorStats (length errorHistory) [] [] 0 0 0)) as (H1 & H2 & H3 & H4 & H5).
  cbv zeta in *. cbn in H1, H2, H3, H4, H5. done.
Qed.

End ErrorHandlerFacts.

(** ** The choice of the files of a document *)

Module DocumentParserFacts.
Import JsString Config DocumentParser.

Lemma includes_elem x l : includes x l = true <-> x ∈ l.
Proof. unfold includes. apply bool_decide_eq_true. Qed.

Lemma files_office_open_xml availableFiles :
  getFilesToExtract OFFICE_OPEN_XML availableFiles
  = mkFilesToExtract
      (List.filter (fun file => includes file OFFICE_OPEN_XML_CONTENT_FILES) availableFiles)
      OFFICE_OPEN_XML_STYLE_FILE (includes OFFICE_OPEN_XML_STYLE_FILE availableFiles).
Proof. reflexivity. Qed.

Lemma files_open_document availableFiles :
  getFilesToExtract OPEN_DOCUMENT availableFiles
  = mkFilesToExtract
      (List.filter (fun file => includes file OPEN_DOCUMENT_CONTENT_FILES) availableFiles)
      OPEN_DOCUMENT_STYLE_FILE (includes OPEN_DOCUMENT_STYLE_FILE availableFiles).
Proof. reflexivity. Qed.

(** X24. An archive that holds the indicator file of a document type always
    yields content files to read: the indicator file itself is one of them,
    so the error "No extractable content files found" is never thrown.
    The files chosen are files of the archive, in the order of the archive;
    an archive with both indicator files is read as OfficeOpenXML. *)
Theorem content_files_found (filesInZip : list string) :
  chooseFiles filesInZip <> Throw "No extractable content files found"
  /\ ("word/document.xml" ∈ filesInZip ->
      exists files,
        chooseFiles filesInZip = Ok files
        /\ "word/document.xml" ∈ contentFiles files
        /\ contentFiles files
           = List.filter (fun file => includes file OFFICE_OPEN_XML_CONTENT_FILES) filesInZip
        /\ styleFile files = "docProps/custom.xml")
  /\ ("word/document.xml" ∉ filesInZip -> "content.xml" ∈ filesInZip ->
      exists files,
        chooseFiles filesInZip = Ok files
        /\ contentFiles files = List.filter (String.eqb "content.xml") filesInZip
        /\ styleFile files = "meta.xml")
  /\ ("word/document.xml" ∉ filesInZip -> "content.xml" ∉ filesInZip ->
      exists message, chooseFiles filesInZip = Throw message).
Proof.
  assert ("word/document.xml" ∈ filesInZip ->
          exists files,
            chooseFiles filesInZip = Ok files
            /\ "word/document.xml" ∈ contentFiles files
            /\ contentFiles files
               = List.filter (fun file => includes file OFFICE_OPEN_XML_CONTENT_FILES) filesInZip
            /\ styleFile files = "docProps/custom.xml") as Hdocx.
  { intros Hin. unfold chooseFiles, detectDocumentType.
    destruct filesInZip as [|f fs] eqn:Hfiles; [by apply elem_of_nil in Hin|].
    rewrite <- Hfiles in *. clear Hfiles.
    rewrite (proj2 (includes_elem OFFICE_OPEN_XML_INDICATOR_FILE filesInZip) Hin).
    rewrite files_office_open_xml. cbn [contentFiles].
    assert ("word/document.xml"
            ∈ List.filter (fun file => includes file OFFICE_OPEN_XML_CONTENT_FILES) filesInZip)
      as Hc by (by apply DedupSpec.elem_of_filter_bool).
    destruct (List.filter (fun file => includes file OFFICE_OPEN_XML_CONTENT_FILES)
                filesInZip) as [|c cs] eqn:Hfilter; [by apply elem_of_nil in Hc|].
    eexists. split; [reflexivity|]. cbn [contentFiles styleFile]. done. }
  assert ("word/document.xml" ∉ filesInZip -> "content.xml" ∈ filesInZip ->
          exists files,
            chooseFiles filesInZip = Ok files
            /\ contentFiles files = List.filter (String.eqb "content.xml") filesInZip
            /\ styleFile files = "meta.xml") as Hodt.
  { intros Hno Hin. unfold chooseFiles, detectDocumentType.
    destruct filesInZip as [|f fs] eqn:Hfiles; [by apply elem_of_nil in Hin|].
    rewrite <- Hfiles in *. clear Hfiles.
    destruct (includes OFFICE_OPEN_XML_INDICATOR_FILE filesInZip) eqn:Hd;
      [by apply includes_elem in Hd|].
    rewrite (proj2 (includes_elem OPEN_DOCUMENT_INDICATOR_FILE filesInZip) Hin).
    rewrite files_open_document. cbn [contentFiles].
    assert (List.filter (fun file => includes file OPEN_DOCUMENT_CONTENT_FILES) filesInZip
            = List.filter (String.eqb "content.xml") filesInZip) as Hsame.
    { apply DedupSpec.filter_agree. intros x _. unfold includes, OPEN_DOCUMENT_CONTENT_FILES.
      destruct (String.eqb_spec "content.xml" x) as [<-|Hne].
      - apply bool_decide_eq_true, list_elem_of_here.
      - apply bool_decide_eq_false. intros ->%list_elem_of_singleton. done. }
    rewrite Hsame.
    assert ("content.xml" ∈ List.filter (String.eqb "content.xml") filesInZip) as Hc.
    { apply DedupSpec.elem_of_filter_bool. by rewrite String.eqb_refl. }
    destruct (List.filter (String.eqb "content.xml") filesInZip) as [|c cs] eqn:Hfilter;
      [by apply elem_of_nil in Hc|].
    eexists. split; [reflexivity|]. cbn [contentFiles styleFile]. done. }
  assert ("word/document.xml" ∉ filesInZip -> "content.xml" ∉ filesInZip ->
          exists message, chooseFiles filesInZip = Throw message
                          /\ message <> "No extractable content files found") as Hnone.
  { intros Hno1 Hno2. unfold chooseFiles, detectDocumentType.
    destruct filesInZip as [|f fs] eqn:Hfiles; [by eexists|].
    rewrite <- Hfiles in *. clear Hfiles.
    destruct (includes OFFICE_OPEN_XML_INDICATOR_FILE filesInZip) eqn:Hd;
      [by apply includes_elem in Hd|].
    destruct (includes OPEN_DOCUMENT_INDICATOR_FILE filesInZip) eqn:Ho;
      [by apply includes_elem in Ho|].
    by eexists. }
  split; [|split; [done|split; [done|]]].
  - destruct (decide ("word/document.xml" ∈ filesInZip)) as [H1|H1].
    { destruct (Hdocx H1) as (files & -> & _). done. }
    destruct (decide ("content.xml" ∈ filesInZip)) as [H2|H2].
    { destruct (Hodt H1 H2) as (files & -> & _). done. }
    destruct (Hnone H1 H2) as (message & -> & Hne). intros [= Heq]. by apply Hne.
  - intros H1 H2. destruct (Hnone H1 H2) as (message & -> & _). by eexists.
Qed.

End DocumentParserFacts.
(** ** The Zotero selectors *)

Module ZoteroFacts.
Import JsString Config Zotero StringFacts.

(** *** Addresses of Zotero items *)

Definition not_colon (c : ascii) : bool := negb (Ascii.eqb c ":").
Definition not_slash (c : ascii) : bool := negb (Ascii.eqb c "/").

Lemma all_impl (f g : ascii -> bool) s :
  (forall c, f c = true -> g c = true) -> all f s = true -> all g s = true.
Proof.
  intros Hfg. induction s as [|c s IH]; [done|]. simpl.
  intros [Hc Hs]%andb_true_iff. by rewrite (Hfg c Hc), IH.
Qed.

Lemma alnum_not_colon c : is_alnum c = true -> not_colon c = true.
Proof. destruct c as [[] [] [] [] [] [] [] []]; by vm_compute. Qed.

Lemma alnum_not_slash c : is_alnum c = true -> not_slash c = true.
Proof. destruct c as [[] [] [] [] [] [] [] []]; by vm_compute. Qed.

Lemma digit_alnum c : is_digit c = true -> is_alnum c = true.
Proof. destruct c as [[] [] [] [] [] [] [] []]; by vm_compute. Qed.

(** A literal with a character that the text does not have matches nowhere
    in the text. *)
Lemma literal_outside f pat t :
  all f pat = false -> all f t = true -> literal pat t = None.
Proof.
  intros Hpat Ht. unfold literal.
  destruct (strip_prefix pat t) as [r|] eqn:Hs; [|done].
  apply strip_prefix_Some in Hs. subst t.
  rewrite all_app, Hpat in Ht. done.
Qed.

Lemma no_match_outside f pat s t :
  all f pat = false -> all f s = true -> all f t = true ->
  no_match_in (literal pat) s t.
Proof.
  intros Hpat Hs Ht. induction s as [|c s IH]; [done|].
  simpl in Hs. apply andb_true_iff in Hs as [Hc Hs]. split; [|by apply IH].
  apply (literal_outside f); [done|]. rewrite sapp_cons. simpl.
  by rewrite Hc, all_app, Hs, Ht.
Qed.

Lemma find_first_nowhere {A : Type} (m : string -> option (A * string)) s :
  no_match_in m s EmptyString -> m EmptyString = None -> find_first m s = None.
Proof.
  intros Hno Hempty. induction s as [|c s IH]; simpl; [by rewrite Hempty|].
  destruct Hno as [Hc Hno]. rewrite sapp_nil_r in Hc. by rewrite Hc, IH.
Qed.

Lemma no_match_in_app {A : Type} (m : string -> option (A * string)) a b t :
  no_match_in m a (b +:+ t) -> no_match_in m b t -> no_match_in m (a +:+ b) t.
Proof.
  intros Ha Hb. induction a as [|c a IH]; [by rewrite sapp_nil_l|].
  destruct Ha as [Hc Ha]. rewrite sapp_cons. split; [|by apply IH].
  by rewrite <- sapp_cons, sapp_assoc.
Qed.

Lemma split_nonempty sep s : split sep s <> [].
Proof.
  destruct s as [|c s]; [done|]. simpl.
  destruct (split sep s); [done|]. by destruct (Ascii.eqb c sep).
Qed.

Lemma split_segment a b :
  all not_slash a = true -> split "/" (a +:+ String "/" b) = a :: split "/" b.
Proof.
  induction a as [|c a IH]; intros Ha.
  - rewrite sapp_nil_l. simpl. pose proof (split_nonempty "/" b) as Hne.
    by destruct (split "/" b).
  - simpl in Ha. apply andb_true_iff in Ha as [Hc Ha]. rewrite sapp_cons. simpl.
    rewrite (IH Ha). unfold not_slash in Hc. by destruct (Ascii.eqb c "/").
Qed.

Lemma split_last a : all not_slash a = true -> split "/" a = [a].
Proof.
  induction a as [|c a IH]; intros Ha; [done|].
  simpl in Ha. apply andb_true_iff in Ha as [Hc Ha]. simpl.
  rewrite (IH Ha). unfold not_slash in Hc. by destruct (Ascii.eqb c "/").
Qed.

(** The parts of the address of an item of a user or group library. *)
Lemma split_item_address libraryType id key :
  all not_slash libraryType = true -> all not_slash id = true -> all not_slash key = true ->
  split "/" ("http://zotero.org/" +:+ libraryType +:+ "/" +:+ id +:+ "/items/" +:+ key)
  = ["http:"; EmptyString; "zotero.org"; libraryType; id; "items"; key].
Proof.
  intros Ht Hid Hkey.
  change ("http://zotero.org/" +:+ libraryType +:+ "/" +:+ id +:+ "/items/" +:+ key)
    with ("http:" +:+ String "/" (EmptyString +:+ String "/" ("zotero.org" +:+
            String "/" (libraryType +:+ String "/" (id +:+ String "/" ("items" +:+
              String "/" key)))))).
  rewrite !split_segment by done. by rewrite split_last.
Qed.

Lemma no_local_prefix libraryType id key :
  (libraryType = USERS /\ all is_digit id = true) \/ libraryType = GROUPS ->
  all is_alnum id = true -> all is_alnum key = true ->
  str_includes LOCAL_URI_PREFIX
    ("http://zotero.org/" +:+ libraryType +:+ "/" +:+ id +:+ "/items/" +:+ key) = false.
Proof.
  intros Htype Hid Hkey. unfold str_includes.
  assert (all not_colon (id +:+ "/items/" +:+ key) = true) as Hrest.
  { rewrite !all_app, (all_impl _ _ _ alnum_not_colon Hid),
      (all_impl _ _ _ alnum_not_colon Hkey). done. }
  rewrite find_first_nowhere; [done| |done].
  destruct Htype as [[-> Hdigit]| ->].
  - change ("http://zotero.org/" +:+ USERS +:+ "/" +:+ id +:+ "/items/" +:+ key)
      with ("http://zotero.org/users/" +:+ (id +:+ "/items/" +:+ key)).
    apply no_match_in_app; [|by apply (no_match_outside not_colon)].
    rewrite sapp_nil_r. cbn -[LOCAL_URI_PREFIX]. unfold literal, LOCAL_URI_PREFIX.
    repeat split; try done.
    change (strip_prefix "http://zotero.org/users/local/"
              ("http://zotero.org/users/" +:+ id +:+ "/items/" +:+ key))
      with (strip_prefix "local/" (id +:+ "/items/" +:+ key)).
    destruct id as [|d id]; [done|]. rewrite sapp_cons.
    simpl in Hdigit. apply andb_true_iff in Hdigit as [Hd _].
    cbn [strip_prefix].
    destruct (Ascii.eqb_spec "l" d) as [<-|_]; done.
  - change ("http://zotero.org/" +:+ GROUPS +:+ "/" +:+ id +:+ "/items/" +:+ key)
      with ("http://zotero.org/groups/" +:+ (id +:+ "/items/" +:+ key)).
    apply no_match_in_app; [|by apply (no_match_outside not_colon)].
    rewrite sapp_nil_r. cbn -[LOCAL_URI_PREFIX]. unfold literal, LOCAL_URI_PREFIX.
    repeat split; done.
Qed.

Lemma includes_zotero_prefix rest :
  isZoteroUri ("http://zotero.org/" +:+ rest) = true.
Proof.
  unfold isZoteroUri, str_includes.
  rewrite (FormatterFacts.find_first_here (literal URI_PREFIX) _ tt rest); [done|].
  unfold literal, URI_PREFIX. by rewrite strip_prefix_app.
Qed.

(** X25. [parseZoteroUri] reads the address of an item as Zotero writes it.
    With an item key of letters and digits, the address of an item of a
    user or group library with a numeric identifier gives the library type,
    the identifier, the key and the address of the library on the web; the
    address of an item of a local library (users/local/...) is read as the
    item of the user library that has the local identifier. *)
Theorem parseZoteroUri_reads_address (id key : string) :
  all is_alnum id = true -> all is_alnum key = true ->
  (all is_digit id = true ->
   parseZoteroUri ("http://zotero.org/users/" +:+ id +:+ "/items/" +:+ key)
   = Some (mkZoteroUri ("http://zotero.org/users/" +:+ id +:+ "/items/" +:+ key)
             ("http://zotero.org/users/" +:+ id +:+ "/items/" +:+ key)
             "users" id key ("https://www.zotero.org/users/" +:+ id)))
  /\ parseZoteroUri ("http://zotero.org/groups/" +:+ id +:+ "/items/" +:+ key)
     = Some (mkZoteroUri ("http://zotero.org/groups/" +:+ id +:+ "/items/" +:+ key)
               ("http://zotero.org/groups/" +:+ id +:+ "/items/" +:+ key)
               "groups" id key ("https://www.zotero.org/groups/" +:+ id))
  /\ parseZoteroUri ("http://zotero.org/users/local/" +:+ id +:+ "/items/" +:+ key)
     = Some (mkZoteroUri ("http://zotero.org/users/local/" +:+ id +:+ "/items/" +:+ key)
               ("http://zotero.org/users/" +:+ id +:+ "/items/" +:+ key)
               "users" id key ("https://www.zotero.org/users/" +:+ id)).
Proof.
  intros Hid Hkey.
  assert (all not_slash id = true) as Hid' by exact (all_impl _ _ _ alnum_not_slash Hid).
  assert (all not_slash key = true) as Hkey' by exact (all_impl _ _ _ alnum_not_slash Hkey).
  split; [|split].
  - intros Hdigit. unfold parseZoteroUri.
    change ("http://zotero.org/users/" +:+ id +:+ "/items/" +:+ key)
      with ("http://zotero.org/" +:+ "users" +:+ "/" +:+ id +:+ "/items/" +:+ key).
    rewrite includes_zotero_prefix. cbn [negb].
    rewrite (no_local_prefix "users") by (done || by left).
    cbv zeta. rewrite split_item_address by done. reflexivity.
  - unfold parseZoteroUri.
    change ("http://zotero.org/groups/" +:+ id +:+ "/items/" +:+ key)
      with ("http://zotero.org/" +:+ "groups" +:+ "/" +:+ id +:+ "/items/" +:+ key).
    rewrite includes_zotero_prefix. cbn [negb].
    rewrite (no_local_prefix "groups") by (done || by right).
    cbv zeta. rewrite split_item_address by done. reflexivity.
  - unfold parseZoteroUri.
    change ("http://zotero.org/users/local/" +:+ id +:+ "/items/" +:+ key)
      with ("http://zotero.org/" +:+ ("users/local/" +:+ id +:+ "/items/" +:+ key)) at 1.
    rewrite includes_zotero_prefix. cbn [negb].
    assert (find_first (literal LOCAL_URI_PREFIX)
              ("http://zotero.org/users/local/" +:+ id +:+ "/items/" +:+ key)
            = Some (EmptyString, tt, id +:+ "/items/" +:+ key)) as Hlocal.
    { apply FormatterFacts.find_first_here. unfold literal, LOCAL_URI_PREFIX.
      by rewrite strip_prefix_app. }
    unfold str_includes, replace_first. rewrite Hlocal. cbv zeta.
    change (EmptyString +:+ WEB_URI_PREFIX +:+ id +:+ "/items/" +:+ key)
      with ("http://zotero.org/" +:+ "users" +:+ "/" +:+ id +:+ "/items/" +:+ key).
    rewrite split_item_address by done. reflexivity.
Qed.

Lemma parseZoteroUri_reads_address_witness :
  parseZoteroUri "http://zotero.org/groups/227594/items/2TK9HDKD"
  = Some (mkZoteroUri "http://zotero.org/groups/227594/items/2TK9HDKD"
            "http://zotero.org/groups/227594/items/2TK9HDKD"
            "groups" "227594" "2TK9HDKD" "https://www.zotero.org/groups/227594").
Proof.
  exact (proj1 (proj2 (parseZoteroUri_reads_address "227594" "2TK9HDKD" eq_refl eq_refl))).
Defined.

(** What a parsed address holds. *)
Lemma parseZoteroUri_Some uri p :
  parseZoteroUri uri = Some p ->
  (libraryType p = USERS \/ libraryType p = GROUPS)
  /\ libraryUrl p = "https://www.zotero.org/" +:+ libraryType p +:+ "/" +:+ libraryId p.
Proof.
  unfold parseZoteroUri. destruct (negb (isZoteroUri uri)); [done|]. cbv zeta.
  generalize (if str_includes LOCAL_URI_PREFIX uri
              then replace_first LOCAL_URI_PREFIX WEB_URI_PREFIX uri else uri).
  intros normalizedUri.
  destruct (split "/" normalizedUri) as [|a [|b [|c [|d [|e [|f [|g [|h t]]]]]]]]; try done.
  destruct (negb (String.eqb a "http:") || negb (String.eqb c "zotero.org")
            || negb (String.eqb f "items")); [done|].
  destruct (includes d [USERS; GROUPS]) eqn:Hd; [|done]. cbn [negb].
  intros [= <-]. cbn [libraryType libraryUrl libraryId]. split; [|done].
  unfold includes in Hd. apply bool_decide_eq_true in Hd.
  apply elem_of_cons in Hd as [->| ->%list_elem_of_singleton]; [by left|by right].
Qed.

(** *** Libraries *)

Lemma lookupLibrary_None url libs :
  lookupLibrary url libs = None <-> url ∉ map fst libs.
Proof.
  induction libs as [|[k lib] libs IH]; simpl.
  - split; [intros _; apply not_elem_of_nil|done].
  - rewrite not_elem_of_cons. destruct (String.eqb_spec url k) as [->|Hne].
    + split; [done|]. by intros [? _].
    + rewrite IH. tauto.
Qed.

Lemma lookupLibrary_elem url lib libs :
  lookupLibrary url libs = Some lib -> (url, lib) ∈ libs.
Proof.
  induction libs as [|[k l] libs IH]; simpl; [done|].
  destruct (String.eqb_spec url k) as [->|Hne].
  - intros [= ->]. apply list_elem_of_here.
  - intros H. apply list_elem_of_further. by apply IH.
Qed.

Lemma elem_lookupLibrary url lib libs :
  NoDup (map fst libs) -> (url, lib) ∈ libs -> lookupLibrary url libs = Some lib.
Proof.
  induction libs as [|[k l] libs IH]; simpl; intros Hnd Hin.
  - by apply elem_of_nil in Hin.
  - apply NoDup_cons in Hnd as [Hk Hnd].
    apply elem_of_cons in Hin as [[= -> ->]|Hin]; [by rewrite String.eqb_refl|].
    destruct (String.eqb_spec url k) as [->|Hne]; [|by apply IH].
    exfalso. apply Hk. apply list_elem_of_fmap. by exists (k, lib).
Qed.

Lemma updateLibrary_keys url f libs : map fst (updateLibrary url f libs) = map fst libs.
Proof.
  induction libs as [|[k l] libs IH]; simpl; [done|].
  destruct (String.eqb url k); simpl; [done|]. by rewrite IH.
Qed.

Lemma lookup_updateLibrary url f libs k :
  lookupLibrary k (updateLibrary url f libs)
  = if String.eqb k url then option_map f (lookupLibrary url libs) else lookupLibrary k libs.
Proof.
  induction libs as [|[k' l] libs IH]; simpl; [by destruct (String.eqb k url)|].
  destruct (String.eqb_spec url k') as [Heq|Hne]; simpl.
  - subst k'. by destruct (String.eqb k url).
  - destruct (String.eqb k k') eqn:Hk; [|apply IH].
    apply String.eqb_eq in Hk. subst k'.
    destruct (String.eqb_spec k url); [congruence|done].
Qed.

Lemma lookup_snoc url lib libs k :
  lookupLibrary k (libs ++ [(url, lib)])
  = match lookupLibrary k libs with
    | Some l => Some l
    | None => if String.eqb k url then Some lib else None
    end.
Proof.
  induction libs as [|[k' l] libs IH]; simpl; [done|].
  by destruct (String.eqb k k').
Qed.

(** What holds of the libraries after the addresses [seen] have been
    grouped. *)
Record grouped (seen : list string) (libs : libraries) : Prop := mkGrouped {
  grouped_keys : NoDup (map fst libs);
  grouped_library : forall url lib,
    lookupLibrary url libs = Some lib ->
    lib_libraryUrl lib = url
    /\ url = "https://www.zotero.org/" +:+ type lib +:+ "/" +:+ subID lib
    /\ (type lib = USERS \/ type lib = GROUPS)
    /\ selectionString lib = None
    /\ items lib <> [] /\ NoDup (items lib)
    /\ forall key, key ∈ items lib <->
         exists uri p, uri ∈ seen /\ parseZoteroUri uri = Some p
                       /\ libraryUrl p = url /\ itemKey p = key;
  grouped_seen : forall uri p,
    uri ∈ seen -> parseZoteroUri uri = Some p ->
    is_Some (lookupLibrary (libraryUrl p) libs)
}.

Lemma pushItem_items key lib k :
  k ∈ items (pushItem key lib) <-> k ∈ items lib \/ k = key.
Proof.
  unfold pushItem, includes. destruct (bool_decide_reflect (key ∈ items lib)) as [Hin|Hout].
  - split; [by left|]. by intros [?| ->].
  - cbn [items]. rewrite elem_of_app, list_elem_of_singleton. done.
Qed.

Lemma pushItem_NoDup key lib : NoDup (items lib) -> NoDup (items (pushItem key lib)).
Proof.
  intros Hnd. unfold pushItem, includes.
  destruct (bool_decide_reflect (key ∈ items lib)) as [Hin|Hout]; [done|].
  cbn [items]. apply NoDup_app. split; [done|]. split; [|apply NoDup_singleton].
  intros x Hx ->%list_elem_of_singleton. done.
Qed.

Lemma pushItem_fields key lib :
  type (pushItem key lib) = type lib /\ subID (pushItem key lib) = subID lib
  /\ lib_libraryUrl (pushItem key lib) = lib_libraryUrl lib
  /\ selectionString (pushItem key lib) = selectionString lib
  /\ items (pushItem key lib) <> [].
Proof.
  unfold pushItem, includes.
  destruct (bool_decide_reflect (key ∈ items lib)) as [Hin|Hout]; cbn.
  - repeat split; try done. intros Hnil. rewrite Hnil in Hin. by apply elem_of_nil in Hin.
  - repeat split; try done. by destruct (items lib).
Qed.

Lemma grouped_step seen libs uri :
  grouped seen libs -> grouped (seen ++ [uri]) (groupItem libs uri).
Proof.
  intros [Hkeys Hlib Hseen]. unfold groupItem.
  destruct (parseZoteroUri uri) as [p|] eqn:Hp.
  - destruct (parseZoteroUri_Some uri p Hp) as [Htype Hurl]. cbv zeta.
    set (fresh := mkLibrary [] (libraryType p) (libraryId p) (libraryUrl p) None).
    set (libs1 := match lookupLibrary (libraryUrl p) libs with
                  | Some _ => libs
                  | None => libs ++ [(libraryUrl p, fresh)]
                  end).
    assert (NoDup (map fst libs1)) as Hkeys1.
    { unfold libs1. destruct (lookupLibrary (libraryUrl p) libs) eqn:Hl; [done|].
      rewrite map_app. apply NoDup_app. split; [done|]. split; [|apply NoDup_singleton].
      intros x Hx ->%list_elem_of_singleton. by apply lookupLibrary_None in Hl. }
    assert (forall k, lookupLibrary k libs1
                      = match lookupLibrary k libs with
                        | Some l => Some l
                        | None => if String.eqb k (libraryUrl p) then Some fresh else None
                        end) as Hlook1.
    { intros k. unfold libs1. destruct (lookupLibrary (libraryUrl p) libs) eqn:Hl.
      - destruct (lookupLibrary k libs) eqn:Hk; [done|].
        destruct (String.eqb_spec k (libraryUrl p)) as [->|_]; [congruence|done].
      - apply lookup_snoc. }
    split.
    + by rewrite updateLibrary_keys.
    + intros url lib. rewrite lookup_updateLibrary, !Hlook1.
      destruct (String.eqb_spec url (libraryUrl p)) as [->|Hne].
      * destruct (lookupLibrary (libraryUrl p) libs) as [l|] eqn:Hl.
        -- cbn [option_map]. intros [= <-].
           destruct (Hlib _ _ Hl) as (H1 & H2 & H3 & H4 & H5 & H6 & H7).
           destruct (pushItem_fields (itemKey p) l) as (F1 & F2 & F3 & F4 & F5).
           rewrite F1, F2, F3, F4. repeat (split; [done|]).
           split; [by apply pushItem_NoDup|]. intros key.
           rewrite pushItem_items, H7. split.
           ++ intros [(u & q & Hu & Hq & Hqu & Hqk)| ->].
              ** exists u, q. rewrite elem_of_app. tauto.
              ** exists uri, p. rewrite elem_of_app, list_elem_of_singleton. tauto.
           ++ intros (u & q & Hu & Hq & Hqu & Hqk).
              apply elem_of_app in Hu as [Hu| ->%list_elem_of_singleton].
              ** left. by exists u, q.
              ** right. congruence.
        -- rewrite String.eqb_refl. cbn [option_map]. intros [= <-].
           destruct (pushItem_fields (itemKey p) fresh) as (F1 & F2 & F3 & F4 & F5).
           rewrite F1, F2, F3, F4. cbn [fresh type subID lib_libraryUrl selectionString].
           repeat (split; [done|]).
           split; [apply pushItem_NoDup; apply NoDup_nil_2|]. intros key.
           rewrite pushItem_items. cbn [fresh items]. split.
           ++ intros [Hin| ->]; [by apply elem_of_nil in Hin|].
              exists uri, p. rewrite elem_of_app, list_elem_of_singleton. tauto.
           ++ intros (u & q & Hu & Hq & Hqu & Hqk).
              apply elem_of_app in Hu as [Hu| ->%list_elem_of_singleton].
              ** destruct (Hseen u q Hu Hq) as [l' Hl']. congruence.
              ** right. congruence.
      * destruct (lookupLibrary url libs) as [l|] eqn:Hl; [|done]. intros [= <-].
        destruct (Hlib _ _ Hl) as (H1 & H2 & H3 & H4 & H5 & H6 & H7).
        repeat (split; [done|]). intros key. rewrite H7. split.
        -- intros (u & q & Hu & Hq & Hqu & Hqk). exists u, q. rewrite elem_of_app. tauto.
        -- intros (u & q & Hu & Hq & Hqu & Hqk).
           apply elem_of_app in Hu as [Hu| ->%list_elem_of_singleton]; [by exists u, q|].
           congruence.
    + intros u q Hu Hq. rewrite lookup_updateLibrary, !Hlook1.
      destruct (String.eqb_spec (libraryUrl q) (libraryUrl p)) as [Heq|Hne].
      * destruct (lookupLibrary (libraryUrl p) libs); [by eexists|].
        rewrite String.eqb_refl. by eexists.
      * apply elem_of_app in Hu as [Hu| ->%list_elem_of_singleton]; [|congruence].
        destruct (Hseen u q Hu Hq) as [l' Hl']. rewrite Hl'. by eexists.
  - split; [done| |].
    + intros url lib Hl. destruct (Hlib _ _ Hl) as (H1 & H2 & H3 & H4 & H5 & H6 & H7).
      repeat (split; [done|]). intros key. rewrite H7. split.
      * intros (u & q & Hu & Hq & Hqu & Hqk). exists u, q. rewrite elem_of_app. tauto.
      * intros (u & q & Hu & Hq & Hqu & Hqk).
        apply elem_of_app in Hu as [Hu| ->%list_elem_of_singleton]; [by exists u, q|].
        congruence.
    + intros u q Hu Hq.
      apply elem_of_app in Hu as [Hu| ->%list_elem_of_singleton]; [by eapply Hseen|].
      congruence.
Qed.

Lemma grouped_foldl zoteroKeys : forall seen libs,
  grouped seen libs -> grouped (seen ++ zoteroKeys) (foldl groupItem libs zoteroKeys).
Proof.
  induction zoteroKeys as [|uri zoteroKeys IH]; intros seen libs Hg; simpl.
  - by rewrite app_nil_r.
  - rewrite (assoc_L app seen [uri] zoteroKeys : seen ++ uri :: zoteroKeys = _).
    apply IH. by apply grouped_step.
Qed.

Lemma grouped_all zoteroKeys : grouped zoteroKeys (groupItemsByLibrary zoteroKeys).
Proof.
  apply (grouped_foldl zoteroKeys [] []). split; [apply NoDup_nil_2|done|].
  intros uri p Hin. by apply elem_of_nil in Hin.
Qed.

(** X26. [groupItemsByLibrary] sorts the item keys by library: each address
    of a library appears once; the library under it carries this address,
    which is made of its type (users or groups) and its identifier; its
    items are without repetition and not empty; and a key is among them
    exactly if one of the given addresses parses to this library and this
    key.  Addresses that do not parse contribute nothing. *)
Theorem libraries_hold_parsed_keys (zoteroKeys : list string) :
  NoDup (map fst (groupItemsByLibrary zoteroKeys))
  /\ forall url lib, (url, lib) ∈ groupItemsByLibrary zoteroKeys ->
       lib_libraryUrl lib = url
       /\ url = "https://www.zotero.org/" +:+ type lib +:+ "/" +:+ subID lib
       /\ (type lib = "users" \/ type lib = "groups")
       /\ items lib <> [] /\ NoDup (items lib)
       /\ forall key, key ∈ items lib <->
            exists uri p, uri ∈ zoteroKeys /\ parseZoteroUri uri = Some p
                          /\ libraryUrl p = url /\ itemKey p = key.
Proof.
  destruct (grouped_all zoteroKeys) as [Hkeys Hlib _]. split; [done|].
  intros url lib Hin. apply (elem_lookupLibrary _ _ _ Hkeys) in Hin.
  destruct (Hlib _ _ Hin) as (H1 & H2 & H3 & H4 & H5 & H6 & H7). done.
Qed.

Lemma withSelectionString_grouped lib :
  items lib <> [] -> type lib = USERS \/ type lib = GROUPS ->
  items (withSelectionString lib) = items lib
  /\ type (withSelectionString lib) = type lib
  /\ subID (withSelectionString lib) = subID lib
  /\ lib_libraryUrl (withSelectionString lib) = lib_libraryUrl lib
  /\ selectionString (withSelectionString lib)
     = Some (if String.eqb (type lib) USERS
             then "zotero://select/library/items?itemKey=" +:+ join "," (items lib)
             else "zotero://select/groups/" +:+ subID lib +:+ "/items?itemKey="
                  +:+ join "," (items lib)).
Proof.
  intros Hitems Htype. unfold withSelectionString.
  destruct (items lib) as [|i rest] eqn:Hi; [done|]. rewrite <- Hi.
  destruct Htype as [Ht|Ht]; rewrite Ht; cbn; by rewrite Hi.
Qed.

(** X27. Every library that [processZoteroIntegration] finds gets a selection
    string: the number of selectors generated is the number of libraries
    found.  For a user library the string is
    zotero://select/library/items?itemKey= followed by the item keys of the
    library, joined by commas; for a group library the identifier of the
    group comes in between.  The library identifier of a user library is
    not part of the string. *)
Theorem every_library_gets_a_selector (citations : list Dedup.dedupResult) :
  selectorsGenerated (processZoteroIntegration citations)
  = librariesFound (processZoteroIntegration citations)
  /\ librariesFound (processZoteroIntegration citations)
     = length (selectors (processZoteroIntegration citations))
  /\ map fst (selectors (processZoteroIntegration citations))
     = map fst (groupItemsByLibrary (extractZoteroItems citations))
  /\ forall url lib, (url, lib) ∈ selectors (processZoteroIntegration citations) ->
       exists found,
         (url, found) ∈ groupItemsByLibrary (extractZoteroItems citations)
         /\ items lib = items found /\ type lib = type found
         /\ subID lib = subID found
         /\ selectionString lib
            = Some (if String.eqb (type lib) "users"
                    then "zotero://select/library/items?itemKey=" +:+ join "," (items lib)
                    else "zotero://select/groups/" +:+ subID lib +:+ "/items?itemKey="
                         +:+ join "," (items lib)).
Proof.
  unfold processZoteroIntegration.
  destruct citations as [|c cs] eqn:Hc; [cbn; repeat split; try done;
    intros url lib Hin; by apply elem_of_nil in Hin|].
  rewrite <- Hc. clear Hc.
  destruct (extractZoteroItems citations) as [|k ks] eqn:Hk; [cbn; repeat split; try done;
    intros url lib Hin; by apply elem_of_nil in Hin|].
  rewrite <- Hk. clear Hk. cbv zeta.
  cbn [selectorsGenerated librariesFound selectors].
  destruct (grouped_all (extractZoteroItems citations)) as [Hkeys Hlib _].
  set (libs := groupItemsByLibrary (extractZoteroItems citations)) in *.
  assert (forall url lib, (url, lib) ∈ generateSelectionStrings libs ->
            exists found,
              (url, found) ∈ libs
              /\ items lib = items found /\ type lib = type found
              /\ subID lib = subID found
              /\ selectionString lib
                 = Some (if String.eqb (type lib) USERS
                         then "zotero://select/library/items?itemKey="
                              +:+ join "," (items lib)
                         else "zotero://select/groups/" +:+ subID lib
                              +:+ "/items?itemKey=" +:+ join "," (items lib))) as Hsel.
  { intros url lib Hin. unfold generateSelectionStrings in Hin.
    apply list_elem_of_fmap in Hin as ([k' l] & [= -> ->] & Hin). cbn [fst snd].
    exists l. split; [done|].
    apply (elem_lookupLibrary _ _ _ Hkeys) in Hin.
    destruct (Hlib _ _ Hin) as (H1 & H2 & H3 & H4 & H5 & H6 & H7).
    destruct (withSelectionString_grouped l H5 H3) as (W1 & W2 & W3 & W4 & W5).
    rewrite W1, W2, W3, W5. done. }
  split; [|split; [|split]].
  - assert (List.filter (fun kv => match selectionString kv.2 with
                                   | Some _ => true
                                   | None => false
                                   end) (generateSelectionStrings libs)
            = generateSelectionStrings libs) as ->.
    { apply DedupSpec.filter_all. intros [url lib] Hin.
      destruct (Hsel url lib Hin) as (g & _ & _ & _ & _ & Hs). cbn [snd]. by rewrite Hs. }
    unfold generateSelectionStrings. by rewrite length_map.
  - unfold generateSelectionStrings. by rewrite length_map.
  - unfold generateSelectionStrings. rewrite map_map. done.
  - exact Hsel.
Qed.

End ZoteroFacts.
(** ** What the page shows after a document *)

Module UIControllerFacts.
Import JsString Json Formatter UIController.

(** The text for the format [data]: what Citation.js renders from the
    cleaned citations or, when it is not loaded or throws, the cleaned
    citations as indented JSON. *)
Definition dataText (Cite : option renderer) (citations : list json) : string :=
  match Cite with
  | Some render =>
      match render (stringify EmptyString (JArr (cleanCitations citations))) CSL_JSON
                   (Some (JObj [])) with
      | Ok text => text
      | Throw _ => stringify "  " (JArr (cleanCitations citations))
      end
  | None => stringify "  " (JArr (cleanCitations citations))
  end.

(** X28. After a document with citations, the text area shows what the
    formatter renders from the citations it already had, not from those of
    the document: [handleFileSelect] updates the display before it hands
    the new citations to the formatter.  So the first document of a
    session leaves the text area empty, and after a second document the
    text area shows the citations of the first one. *)
Theorem display_precedes_hand_over (Cite : option renderer)
  (first second : list json) :
  first <> [] -> second <> [] ->
  let afterFirst := showResult Cite first EmptyString (mkFormatterState [] []) in
  let afterSecond := showResult Cite second EmptyString afterFirst.2 in
  afterFirst.1 = EmptyString
  /\ currentCitations afterFirst.2 = first
  /\ afterSecond.1 = dataText Cite first
  /\ currentCitations afterSecond.2 = second.
Proof.
  intros Hfirst Hsecond.
  destruct first as [|c cs] eqn:Hf; [done|]. rewrite <- Hf.
  assert (showResult Cite first EmptyString (mkFormatterState [] [])
          = (EmptyString, mkFormatterState first [])) as Hshow by (by rewrite Hf).
  cbv zeta. rewrite Hshow. cbn [fst snd currentCitations].
  split; [done|]. split; [done|].
  destruct second as [|d ds] eqn:Hs; [done|]. rewrite <- Hs.
  unfold showResult, updateProcessingResults. rewrite Hs, <- Hs.
  unfold format. cbn [currentCitations formattingCache cache_get].
  change (is_empty CSL_JSON) with false. cbv iota.
  assert (try_catch (formatWithCitationJs Cite first CSL_JSON (JObj []))
                    (fun _ => formatFallback first CSL_JSON)
          = Ok (dataText Cite first)) as Hr.
  { unfold formatWithCitationJs, formatFallback, dataText. rewrite Hf, <- Hf.
    destruct Cite as [render|]; [|done].
    change (String.eqb CSL_JSON BIBLIOGRAPHY_WITH_COUNTS) with false.
    change (String.eqb CSL_JSON CSL_JSON_WITH_COUNTS) with false.
    cbn [negb].
    by destruct (render (stringify EmptyString (JArr (cleanCitations first))) CSL_JSON
                   (Some (JObj []))). }
  rewrite Hf, <- Hf, Hr. done.
Qed.

Lemma display_precedes_hand_over_witness :
  (showResult None [JObj [("title", JStr "B")]] EmptyString
     (showResult None [JObj [("title", JStr "A")]] EmptyString
        (mkFormatterState [] [])).2).1
  = dataText None [JObj [("title", JStr "A")]].
Proof.
  apply (display_precedes_hand_over None [JObj [("title", JStr "A")]]
           [JObj [("title", JStr "B")]]); done.
Defined.

End UIControllerFacts.
